(** * Needpedia assistant: the chat route (src/app/api/chat/route.ts)

    A shallow embedding of the tool-call orchestration of the chat route:
    the rich-text helpers, the three tool executors with their
    confirmation gate and result cache, the bounded tool-call loop and the
    request handler, together with the conversation store of
    src/utils/memory.ts and the history route of
    src/app/api/chat/history/route.ts, which reads that store.

    Conventions.
    - A JavaScript string is the list of its UTF-16 code units ([str]);
      [lit] turns a literal into that form.
    - A regular expression used with [String.prototype.replace] and the
      [g] flag is a [matcher]: what the expression matches at the start of
      a suffix of the subject, with the replacement text and the length of
      the match.  [replace_global] scans the subject the way the built-in
      does: leftmost match first, then on from the end of that match.
    - Code that awaits the network runs in the monad [M]: a state monad
      over [World] whose results are values or thrown errors.  The
      services answer through the oracles of [Env].

    The definitions come first (modules [JS] to [Scenario]), the
    properties after them. *)

From Stdlib Require Import ZArith NArith List String Ascii Bool Lia.
From Stdlib Require Import DecimalString.
From Stdlib Require SpecFloat.
From stdpp Require Import base option countable gmap.
Import ListNotations.

Open Scope N_scope.
Open Scope list_scope.

(** ** JavaScript strings *)

Module JS.

(** A string is its sequence of UTF-16 code units. *)
Abbreviation str := (list N).

Definition lit (s : string) : str :=
  List.map N_of_ascii (list_ascii_of_string s).
Arguments lit : simpl never.

Definition str_eqb (a b : str) : bool :=
  if decide (a = b) then true else false.

(** [LineTerminator]: what the dot of a regular expression refuses. *)
Definition is_line_terminator (c : N) : bool :=
  (c =? 10) || (c =? 13) || (c =? 8232) || (c =? 8233).

(** [WhiteSpace] and [LineTerminator] together: what [trim], [trimEnd]
    and the class [\s] take for white space. *)
Definition is_white_space (c : N) : bool :=
  ((9 <=? c) && (c <=? 13)) || (c =? 32) || (c =? 160) || (c =? 5760)
  || ((8192 <=? c) && (c <=? 8202)) || (c =? 8232) || (c =? 8233)
  || (c =? 8239) || (c =? 8287) || (c =? 12288) || (c =? 65279).

Fixpoint trimStart (s : str) : str :=
  match s with
  | c :: s' => if is_white_space c then trimStart s' else s
  | [] => []
  end.

Definition trimEnd (s : str) : str := rev (trimStart (rev s)).

Definition trim (s : str) : str := trimStart (trimEnd s).

(** [s.split('\n')]: never empty, one more piece than there are newlines. *)
Fixpoint split_lines (s : str) : list str :=
  match s with
  | [] => [[]]
  | c :: s' =>
      if c =? 10 then [] :: split_lines s'
      else match split_lines s' with
           | l :: ls => (c :: l) :: ls
           | [] => [[c]]
           end
  end.

(** [parts.join(sep)]. *)
Fixpoint join (sep : str) (parts : list str) : str :=
  match parts with
  | [] => []
  | [p] => p
  | p :: ps => p ++ sep ++ join sep ps
  end.

Fixpoint strip_prefix (p s : str) : option str :=
  match p, s with
  | [], _ => Some s
  | a :: p', b :: s' => if a =? b then strip_prefix p' s' else None
  | _ :: _, [] => None
  end.

(** Letters compared without case, as the [i] flag does without the [u]
    flag: an ASCII letter of the pattern matches its two ASCII forms and
    nothing else. *)
Definition ascii_upper (c : N) : N :=
  if (97 <=? c) && (c <=? 122) then c - 32 else c.

Fixpoint strip_prefix_ci (p s : str) : option str :=
  match p, s with
  | [], _ => Some s
  | a :: p', b :: s' =>
      if ascii_upper a =? ascii_upper b then strip_prefix_ci p' s' else None
  | _ :: _, [] => None
  end.

Fixpoint span (f : N -> bool) (s : str) : str * str :=
  match s with
  | c :: s' =>
      if f c then let (a, b) := span f s' in (c :: a, b) else ([], s)
  | [] => ([], [])
  end.

Definition skip_ws (s : str) : str := snd (span is_white_space s).

(** The decimal text of an integer, as a template literal prints it. *)
Definition of_Z (z : Z) : str :=
  lit (NilZero.string_of_int (Z.to_int z)).

(** *** Global replacement *)

(** What an expression matches at the start of a suffix: the text that
    replaces the match and the number of code units matched (never 0 for
    the expressions of this file). *)
Definition matcher : Type := str -> option (str * nat).

(** [skip] counts the code units of the last match still to pass over. *)
Fixpoint replace_from (m : matcher) (skip : nat) (s : str) : str :=
  match s with
  | [] => []
  | c :: s' =>
      match skip with
      | S k => replace_from m k s'
      | O =>
          match m s with
          | Some (rep, n) => rep ++ replace_from m (Nat.pred n) s'
          | None => c :: replace_from m 0 s'
          end
      end
  end.

Definition replace_global (m : matcher) (s : str) : str := replace_from m 0 s.

(** A literal pattern. *)
Definition m_lit (pat rep : str) : matcher := fun s =>
  match strip_prefix pat s with
  | Some _ => Some (rep, length pat)
  | None => None
  end.

End JS.
Export JS.

(** ** Rich text: [toRichHtml] and [htmlToPlainText] *)

Module RichText.

(** [\s+(.+)] from the start of [s]: white space, at least one and as much
    as leaves a character for the group, then the group, which runs to the
    next line terminator.  The result is the group. *)
Definition dots (s : str) : option str :=
  match fst (span (fun c => negb (is_line_terminator c)) s) with
  | [] => None
  | g => Some g
  end.

Fixpoint ws_star_dots (s : str) : option str :=
  match s with
  | c :: s' =>
      if is_white_space c then
        match ws_star_dots s' with
        | Some g => Some g
        | None => dots s
        end
      else dots s
  | [] => None
  end.

Definition ws_plus_dots (s : str) : option str :=
  match s with
  | c :: s' => if is_white_space c then ws_star_dots s' else None
  | [] => None
  end.

(** [/^#\s+(.+)/.exec(line)] with [n] hash signs; the group. *)
Definition exec_heading (n : nat) (line : str) : option str :=
  match strip_prefix (repeat 35 n) line with
  | Some rest => ws_plus_dots rest
  | None => None
  end.

(** [/^[-*]\s+(.+)/.exec(line)]; the group. *)
Definition exec_li (line : str) : option str :=
  match line with
  | c :: rest => if (c =? 45) || (c =? 42) then ws_plus_dots rest else None
  | [] => None
  end.

Definition esc1 (c : N) : str :=
  if c =? 38 then lit "&amp;" else [c].
Definition esc2 (c : N) : str :=
  if c =? 60 then lit "&lt;" else [c].
Definition esc3 (c : N) : str :=
  if c =? 62 then lit "&gt;" else [c].

Definition esc (s : str) : str :=
  flat_map esc3 (flat_map esc2 (flat_map esc1 s)).

Definition not_star (c : N) : bool := negb (c =? 42).

(** [/\*\*([^*]+)\*\*/g] to [<strong>$1</strong>]. *)
Definition m_bold : matcher := fun s =>
  match strip_prefix [42; 42] s with
  | Some rest =>
      let (g, after) := span not_star rest in
      match g, strip_prefix [42; 42] after with
      | _ :: _, Some _ =>
          Some (lit "<strong>" ++ g ++ lit "</strong>", (4 + length g)%nat)
      | _, _ => None
      end
  | None => None
  end.

(** [/\*([^*]+)\*/g] to [<em>$1</em>]. *)
Definition m_italic : matcher := fun s =>
  match strip_prefix [42] s with
  | Some rest =>
      let (g, after) := span not_star rest in
      match g, strip_prefix [42] after with
      | _ :: _, Some _ =>
          Some (lit "<em>" ++ g ++ lit "</em>", (2 + length g)%nat)
      | _, _ => None
      end
  | None => None
  end.

(** The look-ahead [(?![^<]*>)]: what follows must not reach a [>] before
    any [<]. *)
Fixpoint not_inside_tag (s : str) : bool :=
  match s with
  | [] => true
  | c :: s' =>
      if c =? 62 then false
      else if c =? 60 then true
      else not_inside_tag s'
  end.

Definition url_char (c : N) : bool := negb (is_white_space c || (c =? 41)).

(** [[^\s)]*] followed by the look-ahead, longest first. *)
Fixpoint url_tail (s : str) : option str :=
  match s with
  | c :: s' =>
      if url_char c then
        match url_tail s' with
        | Some b => Some (c :: b)
        | None => if not_inside_tag s then Some [] else None
        end
      else if not_inside_tag s then Some [] else None
  | [] => Some []
  end.

(** [[^\s)]+] followed by the look-ahead. *)
Definition url_body (s : str) : option str :=
  match s with
  | c :: s' =>
      if url_char c then
        match url_tail s' with
        | Some b => Some (c :: b)
        | None => None
        end
      else None
  | [] => None
  end.

Definition anchor (u : str) : str :=
  lit "<a href=" ++ [34] ++ u ++ [34] ++ lit " target=" ++ [34]
  ++ lit "_blank" ++ [34] ++ lit " rel=" ++ [34]
  ++ lit "noopener noreferrer" ++ [34] ++ lit ">" ++ u ++ lit "</a>".

(** [/(https?:\/\/[^\s)]+)(?![^<]*>)/g] to the anchor of [$1]. *)
Definition m_link : matcher := fun s =>
  match strip_prefix (lit "http") s with
  | Some r =>
      let try (scheme : nat) (r' : str) :=
        match strip_prefix (lit "://") r' with
        | Some r'' =>
            match url_body r'' with
            | Some b =>
                let u := firstn (scheme + 3 + length b) s in
                Some (anchor u, length u)
            | None => None
            end
        | None => None
        end in
      match strip_prefix [115] r with
      | Some r' =>
          match try 5%nat r' with
          | Some x => Some x
          | None => try 4%nat r
          end
      | None => try 4%nat r
      end
  | None => None
  end.

Definition fmtInline (s : str) : str :=
  replace_global m_link (replace_global m_italic (replace_global m_bold s)).

(** The two buffers of [toRichHtml]. *)
Record RichState : Type := {
  htmlParts : list str;
  listBuffer : list str;
}.

Definition flushList (st : RichState) : RichState :=
  match listBuffer st with
  | [] => st
  | lis =>
      {| htmlParts :=
           htmlParts st ++ [lit "<ul>"]
           ++ List.map (fun li => lit "<li>" ++ li ++ lit "</li>") lis
           ++ [lit "</ul>"];
         listBuffer := [] |}
  end.

Definition push (part : str) (st : RichState) : RichState :=
  {| htmlParts := htmlParts st ++ [part]; listBuffer := listBuffer st |}.

Definition heading (tag : str) (body : str) : str :=
  lit "<" ++ tag ++ lit ">" ++ fmtInline (esc body) ++ lit "</" ++ tag ++ lit ">".

(** The body of [lines.forEach]. *)
Definition rich_line (st : RichState) (raw : str) : RichState :=
  let line := trimEnd raw in
  match trim line with
  | [] => flushList st
  | _ =>
      match exec_heading 3 line with
      | Some g => push (heading (lit "h3") g) (flushList st)
      | None =>
      match exec_heading 2 line with
      | Some g => push (heading (lit "h2") g) (flushList st)
      | None =>
      match exec_heading 1 line with
      | Some g => push (heading (lit "h1") g) (flushList st)
      | None =>
      match exec_li line with
      | Some g =>
          {| htmlParts := htmlParts st;
             listBuffer := listBuffer st ++ [fmtInline (esc g)] |}
      | None => push (heading (lit "p") line) (flushList st)
      end end end end
  end.

Definition toRichHtml (input : str) : str :=
  let text := replace_global (m_lit [13; 10] [10]) input in
  let lines := split_lines text in
  let st := fold_left rich_line lines {| htmlParts := []; listBuffer := [] |} in
  join [10] (htmlParts (flushList st)).

(** The block elements that [htmlToPlainText] turns into line breaks, in
    the order of the alternation. *)
Definition block_tags : list str :=
  [lit "p"; lit "div"; lit "h"; lit "li"; lit "ul"; lit "ol";
   lit "blockquote"; lit "section"; lit "article"].

(** One alternative of [(p|div|h[1-6]|...)] read from [s], without case. *)
Definition tag_alt (name s : str) : option str :=
  match strip_prefix_ci name s with
  | Some r =>
      if str_eqb name (lit "h") then
        match r with
        | d :: r' => if (49 <=? d) && (d <=? 54) then Some r' else None
        | [] => None
        end
      else Some r
  | None => None
  end.

(** The first alternative whose continuation [k] succeeds. *)
Fixpoint first_alt (names : list str) (k : str -> bool) (s : str) : bool :=
  match names with
  | [] => false
  | n :: ns =>
      match tag_alt n s with
      | Some r => if k r then true else first_alt ns k s
      | None => first_alt ns k s
      end
  end.

Definition starts_with (p s : str) : bool :=
  match strip_prefix p s with Some _ => true | None => false end.

Definition closes (s : str) : bool := starts_with [62] (skip_ws s).

(** Code units up to and with the first [>], when one stands after at
    least [least] others. *)
Definition upto_gt (least : nat) (s : str) : option nat :=
  let (g, after) := span (fun c => negb (c =? 62)) s in
  if starts_with [62] after && (least <=? length g)%nat
  then Some (S (length g)) else None.

Definition has_gt (s : str) : bool :=
  match upto_gt 0 s with Some _ => true | None => false end.

(** The whole tag, from its [<] to the first [>], becomes a line break. *)
Definition to_newline (s : str) : option (str * nat) :=
  match upto_gt 0 s with
  | Some n => Some ([10], n)
  | None => None
  end.

(** [/<\s*br\s*\/?\s*>/gi] to a line break. *)
Definition m_br : matcher := fun s =>
  match strip_prefix [60] s with
  | Some r =>
      match strip_prefix_ci (lit "br") (skip_ws r) with
      | Some r1 =>
          let r2 := skip_ws r1 in
          let r3 := match strip_prefix [47] r2 with
                    | Some r' => skip_ws r'
                    | None => r2
                    end in
          if starts_with [62] r3 then to_newline s else None
      | None => None
      end
  | None => None
  end.

(** [/<\s*\/\s*(p|div|...)\s*>/gi] to a line break. *)
Definition m_close_block : matcher := fun s =>
  match strip_prefix [60] s with
  | Some r =>
      match strip_prefix [47] (skip_ws r) with
      | Some r1 =>
          if first_alt block_tags closes (skip_ws r1) then to_newline s
          else None
      | None => None
      end
  | None => None
  end.

(** [/<\s*(p|div|...)[^>]*>/gi] to a line break. *)
Definition m_open_block : matcher := fun s =>
  match strip_prefix [60] s with
  | Some r =>
      if first_alt block_tags has_gt (skip_ws r) then to_newline s else None
  | None => None
  end.

(** [/<[^>]+>/g] to nothing. *)
Definition m_any_tag : matcher := fun s =>
  match strip_prefix [60] s with
  | Some r =>
      match upto_gt 1 r with
      | Some n => Some ([], S n)
      | None => None
      end
  | None => None
  end.

(** [/\n{3,}/g] to two line breaks. *)
Definition m_blank_lines : matcher := fun s =>
  let n := length (fst (span (fun c => c =? 10) s)) in
  if (3 <=? n)%nat then Some ([10; 10], n) else None.

Definition entities (s : str) : str :=
  replace_global (m_lit (lit "&#39;") [39])
    (replace_global (m_lit (lit "&quot;") [34])
      (replace_global (m_lit (lit "&gt;") (lit ">"))
        (replace_global (m_lit (lit "&lt;") (lit "<"))
          (replace_global (m_lit (lit "&amp;") (lit "&"))
            (replace_global (m_lit (lit "&nbsp;") (lit " ")) s))))).

Definition htmlToPlainText (html : str) : str :=
  match html with
  | [] => []
  | _ =>
      let t1 := replace_global m_br html in
      let t2 := replace_global m_close_block t1 in
      let t3 := replace_global m_open_block t2 in
      let t4 := replace_global m_any_tag t3 in
      let t5 := entities t4 in
      let t6 := join [10] (List.map trimEnd (split_lines t5)) in
      let t7 := replace_global m_blank_lines t6 in
      trim t7
  end.

End RichText.
Export RichText.

(** ** Data of the chat route *)

Module Data.

(** src/types/chat.ts *)
Inductive Role : Type := user | assistant | system | function | tool.

Definition Role_eqb (a b : Role) : bool :=
  match a, b with
  | user, user | assistant, assistant | system, system
  | function, function | tool, tool => true
  | _, _ => false
  end.

(** One entry of [tool_calls]: its [id] and the [function] it names. *)
Record ToolCall : Type := {
  tc_id : str;
  tc_name : str;
  tc_arguments : str;
}.

(** [content] is [None] for the [null] a model sends with tool calls. *)
Record Message : Type := {
  role : Role;
  content : option str;
  tool_calls : option (list ToolCall);
  tool_call_id : option str;
  name : option str;
}.

(** A value as [JSON.parse] returns it.  A number is the double it
    stands for; an object has its members in the order of its keys. *)
#[warnings="-register-all"] Inductive JsonValue : Type :=
  | JsonNull
  | JsonBool (b : bool)
  | JsonNumber (x : SpecFloat.spec_float)
  | JsonString (s : str)
  | JsonArray (items : list JsonValue)
  | JsonObject (members : list (str * JsonValue)).

(** [changes] of [EditContentArgs]. *)
Record Changes : Type := {
  ch_title : option str;
  ch_description : option str;
}.

(** [FunctionArgs]: an object read through the fields of
    [FindContentArgs], [CreateContentArgs] and [EditContentArgs]; a field
    is [None] when the object has no such key.  The texts are strings, as
    the interfaces declare them.  [confirm] is declared a boolean, but
    nothing checks what the model sent, and the tools only ask whether it
    is true or false as a condition: it is kept as the value it is. *)
Record FunctionArgs : Type := {
  query : option str;
  type_ : option str;
  title : option str;
  description : option str;
  content_type : option str;
  parent_id : option str;
  confirm : option JsonValue;
  content_id : option str;
  changes : option Changes;
}.

Definition no_args : FunctionArgs :=
  {| query := None; type_ := None; title := None; description := None;
     content_type := None; parent_id := None; confirm := None;
     content_id := None; changes := None |}.

Record Item : Type := {
  item_title : str;
  item_type : str;
  item_id : option str;
  item_link : option str;
}.

(** The [post] a write answers with. *)
Record Post : Type := {
  post_link : str;
  post_title : str;
  post_content : str;
  post_post_type : str;
  post_curated : bool;
  post_group_id : option str;
  post_disabled : bool;
  post_private : bool;
  post_problem : option str;
  post_subject : option str;
}.

Record CreatePreview : Type := {
  cp_title : option str;
  cp_content_type : option str;
  cp_description : option str;
  cp_html : str;
  cp_plain_text : str;
  cp_parent_id : option str;
}.

Record EditPreview : Type := {
  ep_content_id : str;
  ep_title : option str;
  ep_description : option str;
  ep_html : option str;
  ep_plain_text : option str;
}.

(** [FunctionResult].  The two previews carry [requires_confirmation:
    true] and the [instructions].  [OtherValue] is a value that is no
    result of a tool: what a function that [funcs] only inherits
    returns. *)
Inductive FunctionResult : Type :=
  | FindContentResult (items : list Item)
  | CreateConfirmation (preview : CreatePreview) (instructions : str)
  | EditConfirmation (preview : EditPreview) (instructions : str)
  | PostResult (post : option Post)
  | OtherValue (value : JsonValue).

(** [ExecutedToolResult]. *)
Record ExecutedToolResult : Type := {
  er_name : str;
  er_result : FunctionResult;
}.

(** [NeedpediaPost]; [np_id] is the text [String(item.id)] gives. *)
Record NeedpediaPost : Type := {
  np_id : option str;
  np_title : option str;
  np_post_type : option str;
  np_link : option str;
  np_url : option str;
  np_post_url : option str;
}.

(** An element of an array the backend sent: an object, read through the
    fields of [NeedpediaPost], or anything else. *)
Inductive Raw : Type :=
  | RawRecord (p : NeedpediaPost)
  | RawOther.

(** A property of the [content] object of a backend answer. *)
Inductive Field : Type :=
  | FArray (l : list Raw)
  | FPost (p : Post)
  | FOther.

(** [payload.content]: an array, or an object with its properties in
    enumeration order. *)
Inductive Content : Type :=
  | ContentArray (l : list Raw)
  | ContentRecord (fields : list (str * Field))
  | ContentOther.

(** What [response.json()] gives. *)
Record Payload : Type := {
  p_message : option str;
  p_content : option Content;
}.

Definition empty_payload : Payload := {| p_message := None; p_content := None |}.

(** A [fetch] response; [r_json] is [None] when [response.json()] rejects. *)
Record Response : Type := {
  r_ok : bool;
  r_status : Z;
  r_statusText : str;
  r_json : option Payload;
}.

Record CreatePostPayload : Type := {
  cpp_title : str;
  cpp_post_type : str;
  cpp_body : str;
  cpp_subject_id : option str;
  cpp_problem_id : option str;
}.

(** [post.content] and [post.content_attributes] carry the same [body]. *)
Record UpdatePostPayload : Type := {
  upp_title : option str;
  upp_body : option str;
}.

(** The requests the route sends to the Content Backend, each with the
    caller's [token] header when there is one. *)
Inductive BackendRequest : Type :=
  | SearchPosts (type_ : str) (title_cont : str) (token : option str)
  | CreatePost (payload : CreatePostPayload) (token : option str)
  | UpdatePost (content_id : str) (payload : UpdatePostPayload)
      (token : option str)
  | DecreaseTokens (utoken : str) (decrement_by : Z).

(** The requests that change content: [POST posts] and [PUT api_update]. *)
Definition is_write (r : BackendRequest) : bool :=
  match r with
  | CreatePost _ _ | UpdatePost _ _ _ => true
  | _ => false
  end.

Definition is_search (r : BackendRequest) : bool :=
  match r with
  | SearchPosts _ _ _ => true
  | _ => false
  end.

Inductive FetchOutcome : Type :=
  | Fetched (r : Response)
  | FetchRejected (message : str).

(** [UsageMetrics]. *)
Record UsageMetrics : Type := {
  total_tokens : option Z;
  total : option Z;
  completion_tokens : option Z;
}.

(** [ErrorPayload]. *)
Inductive ErrorField : Type :=
  | ErrorString (s : str)
  | ErrorObject (message : option str).

Record AxiosResponse : Type := {
  ax_status : Z;
  ax_error : option ErrorField;
}.

(** What a [throw] carries: an [Error] with its message, or the error
    axios rejects with. *)
Inductive Thrown : Type :=
  | JsError (message : str)
  | AxiosError (message : str) (response : option AxiosResponse).

Inductive ToolChoice : Type := auto | none.

(** The body of a chat-completions request ([tools] is constant). *)
Record LMRequest : Type := {
  lm_model : str;
  lm_messages : list Message;
  lm_tool_choice : ToolChoice;
}.

(** [response.data]: [choices[0].message] and [usage]. *)
Record LMData : Type := {
  lm_message : option Message;
  lm_usage : option UsageMetrics;
}.

Inductive LMOutcome : Type :=
  | LMResponse (data : LMData)
  | LMFailure (message : str) (response : option AxiosResponse).

(** An entry of [toolResultCache]. *)
Record CacheEntry : Type := {
  expiryMs : Z;
  payload : list Item;
}.

(** One call of an executor by the tool loop, for the record of the
    calls: the round key and the tool name it was called under, and the
    result it returned, or [None] when it threw. *)
Record Invocation : Type := {
  inv_key : str;
  inv_name : str;
  inv_result : option FunctionResult;
}.

(** An entry of [roundMemo]. *)
Record MemoEntry : Type := {
  memo_name : str;
  memo_content : str;
}.

(** The request body: [messages], [conversationId], [userToken]. *)
Record ChatRequest : Type := {
  messages : list Message;
  conversationId : option str;
  userToken : option str;
}.

Inductive ResponseBody : Type :=
  | ErrorBody (error : str)
  | ChatBody (conversationId : str) (message : Message) (usedTokens : Z).

Record HttpResponse : Type := {
  status : Z;
  body : ResponseBody;
}.

(** [process.env]; a variable is [None] when unset or empty. *)
Record ProcessEnv : Type := {
  OPENROUTER_API_KEY : option str;
  OPENROUTER_MODEL : option str;
  CHAT_MAX_CONTEXT : option Z;
  CHAT_MAX_STORED : option Z;
}.

End Data.
Export Data.

(** ** The world the route runs in *)

Module Effects.

(** The built-ins of the language the route relies on.  [as_args] reads
    a parsed value through the fields of [FunctionArgs], which is all the
    cast [as FunctionArgs] does: [confirm] is the member of that name,
    whatever it is.  Arguments that are no object, or whose other fields
    do not have the types [FunctionArgs] declares, are outside what the
    three tools are modelled for; what [funcs] inherits is modelled for
    every value. *)
Class Runtime : Type := {
  (** [JSON.parse]; [None] when it throws its [SyntaxError]. *)
  JSON_parse : str -> option JsonValue;
  (** The message of that [SyntaxError]. *)
  syntax_error : str -> str;
  (** [JSON.stringify] of a parsed value. *)
  JSON_stringify : JsonValue -> str;
  as_args : JsonValue -> FunctionArgs;
  (** [JSON.stringify(result)]. *)
  stringify_result : FunctionResult -> str;
  (** [JSON.stringify({ error: message })]. *)
  stringify_error : str -> str;
  (** [JSON.stringify({ query, type })]. *)
  stringify_query : str -> str -> str;
  toLowerCase : str -> str;
  (** The message of the [TypeError] for a property read on [undefined]. *)
  undefined_error : str;
  (** The message of the [TypeError] of a call [funcs[name](args)] that
      [Object.prototype] answers with one. *)
  type_error : str -> JsonValue -> str;
}.

(** The services around the route: the environment variables, the
    Language-Model Service, the Content Backend and the clock.  Each
    service answers a request knowing how many it answered before. *)
Record Env : Type := {
  process_env : ProcessEnv;
  openRouter : nat -> LMRequest -> LMOutcome;
  fetch : nat -> BackendRequest -> FetchOutcome;
  Date_now : nat -> Z;
  randomUUID : str;
  (** The text of src/app/prompts/system.ts. *)
  SYSTEM_PROMPT : str;
}.

(** The state that outlives a call: the two module-level maps, and the
    record of what was asked of the services.  [invoked] is a ghost
    record: every executor call of the tool loop, with its round key and
    what it returned. *)
Record World : Type := {
  toolResultCache : gmap str CacheEntry;
  conversationStore : gmap str (list Message);
  lm_log : list LMRequest;
  backend_log : list BackendRequest;
  clock_reads : nat;
  invoked : list Invocation;
}.

Inductive Outcome (A : Type) : Type :=
  | Returned (a : A)
  | Threw (e : Thrown).
Arguments Returned {A} a.
Arguments Threw {A} e.

(** Computations that await: they read and change the world and return
    or throw. *)
Definition M (A : Type) : Type := World -> Outcome A * World.

Definition ret {A} (a : A) : M A := fun w => (Returned a, w).

Definition throw {A} (e : Thrown) : M A := fun w => (Threw e, w).

Definition bind {A B} (m : M A) (k : A -> M B) : M B := fun w =>
  match m w with
  | (Returned a, w') => k a w'
  | (Threw e, w') => (Threw e, w')
  end.

(** [try { m } catch (error) { h error }]. *)
Definition try_catch {A} (m : M A) (h : Thrown -> M A) : M A := fun w =>
  match m w with
  | (Returned a, w') => (Returned a, w')
  | (Threw e, w') => h e w'
  end.

Definition gets {A} (f : World -> A) : M A := fun w => (Returned (f w), w).

Definition modify (f : World -> World) : M unit := fun w => (Returned tt, f w).

Declare Scope route_scope.
Delimit Scope route_scope with route.
Notation "x <- m ;; k" := (bind m (fun x => k))
  (at level 100, m at next level, right associativity) : route_scope.
Notation "m ;;; k" := (bind m (fun _ => k))
  (at level 100, right associativity) : route_scope.

Definition set_cache (f : gmap str CacheEntry -> gmap str CacheEntry)
    (w : World) : World :=
  {| toolResultCache := f (toolResultCache w);
     conversationStore := conversationStore w;
     lm_log := lm_log w; backend_log := backend_log w;
     clock_reads := clock_reads w; invoked := invoked w |}.

Definition set_store (f : gmap str (list Message) -> gmap str (list Message))
    (w : World) : World :=
  {| toolResultCache := toolResultCache w;
     conversationStore := f (conversationStore w);
     lm_log := lm_log w; backend_log := backend_log w;
     clock_reads := clock_reads w; invoked := invoked w |}.

Definition log_lm (r : LMRequest) (w : World) : World :=
  {| toolResultCache := toolResultCache w;
     conversationStore := conversationStore w;
     lm_log := lm_log w ++ [r]; backend_log := backend_log w;
     clock_reads := clock_reads w; invoked := invoked w |}.

Definition log_backend (r : BackendRequest) (w : World) : World :=
  {| toolResultCache := toolResultCache w;
     conversationStore := conversationStore w;
     lm_log := lm_log w; backend_log := backend_log w ++ [r];
     clock_reads := clock_reads w; invoked := invoked w |}.

Definition tick (w : World) : World :=
  {| toolResultCache := toolResultCache w;
     conversationStore := conversationStore w;
     lm_log := lm_log w; backend_log := backend_log w;
     clock_reads := S (clock_reads w); invoked := invoked w |}.

Definition log_invoked (key name : str) (result : option FunctionResult)
    (w : World) : World :=
  {| toolResultCache := toolResultCache w;
     conversationStore := conversationStore w;
     lm_log := lm_log w; backend_log := backend_log w;
     clock_reads := clock_reads w;
     invoked :=
       invoked w
       ++ [{| inv_key := key; inv_name := name; inv_result := result |}] |}.

Section Services.
Context (env : Env).

(** [Date.now()]. *)
Definition now : M Z := fun w =>
  (Returned (Date_now env (clock_reads w)), tick w).

(** [await fetch(...)] against the Content Backend: the request goes
    out, then the answer comes or the promise rejects. *)
Definition backend (r : BackendRequest) : M Response := fun w =>
  match fetch env (length (backend_log w)) r with
  | Fetched resp => (Returned resp, log_backend r w)
  | FetchRejected msg => (Threw (JsError msg), log_backend r w)
  end.

(** [await openRouterClient.post('/chat/completions', ...)]. *)
Definition chat_completions (r : LMRequest) : M LMData := fun w =>
  match openRouter env (length (lm_log w)) r with
  | LMResponse data => (Returned data, log_lm r w)
  | LMFailure msg resp => (Threw (AxiosError msg resp), log_lm r w)
  end.
End Services.

End Effects.
Export Effects.

(** ** The tool executors: [getFunctions] *)

Module Tools.
Local Open Scope route_scope.

Definition TOOL_CACHE_TTL_MS : Z := 5000.

(** [s || d] on strings: the empty string and a missing one give [d]. *)
Definition or_default (o : option str) (d : str) : str :=
  match o with
  | Some ((_ :: _) as s) => s
  | _ => d
  end.

(** A string that is there and not empty. *)
Definition truthy (o : option str) : option str :=
  match o with
  | Some ((_ :: _) as s) => Some s
  | _ => None
  end.

(** [!value] is true: [null], [false], a zero of either sign, [NaN] and
    the empty string.  Every other value counts as true in a condition:
    [true], but also a number that is not zero, a string that is not
    empty (the text "false" too), an array and an object. *)
Definition falsy (v : JsonValue) : bool :=
  match v with
  | JsonNull | JsonBool false | JsonString []
  | JsonNumber (SpecFloat.S754_zero _) | JsonNumber SpecFloat.S754_nan => true
  | _ => false
  end.

(** [!args.confirm] is false. *)
Definition confirmed (args : FunctionArgs) : bool :=
  match confirm args with
  | Some v => negb (falsy v)
  | None => false
  end.

Definition isFindContentArgs (args : FunctionArgs) : bool :=
  bool_decide (is_Some (query args)).

Definition isCreateContentArgs (args : FunctionArgs) : bool :=
  bool_decide (is_Some (title args)) && bool_decide (is_Some (description args))
  && bool_decide (is_Some (content_type args)).

Definition isEditContentArgs (args : FunctionArgs) : bool :=
  bool_decide (is_Some (content_id args)) && bool_decide (is_Some (changes args)).

Definition isNeedpediaPost (v : Raw) : option NeedpediaPost :=
  match v with
  | RawRecord p =>
      match np_title p, np_post_type p with
      | None, None => None
      | _, _ => Some p
      end
  | RawOther => None
  end.

Definition normalizePostArray (v : option Field) : list NeedpediaPost :=
  match v with
  | Some (FArray l) => omap isNeedpediaPost l
  | _ => []
  end.

Fixpoint get_field (k : str) (fields : list (str * Field)) : option Field :=
  match fields with
  | [] => None
  | (k', v) :: rest => if str_eqb k k' then Some v else get_field k rest
  end.

(** [Object.values(bucket).find(Array.isArray)]. *)
Fixpoint first_array (fields : list (str * Field)) : option Field :=
  match fields with
  | [] => None
  | (_, FArray l) :: _ => Some (FArray l)
  | _ :: rest => first_array rest
  end.

(** [payload.content?.post]. *)
Definition content_post (p : Payload) : option Post :=
  match p_content p with
  | Some (ContentRecord fields) =>
      match get_field (lit "post") fields with
      | Some (FPost post) => Some post
      | _ => None
      end
  | _ => None
  end.

Definition api_failure (resp : Response) (p : Payload) : Thrown :=
  JsError (lit "API request failed: " ++ of_Z (r_status resp) ++ lit " - "
           ++ or_default (p_message p) (r_statusText resp)).

(** [await response.json().catch(() => ({}))], then the [response.ok]
    test. *)
Definition read_payload (resp : Response) : M Payload :=
  let p := match r_json resp with Some p => p | None => empty_payload end in
  if r_ok resp then ret p else throw (api_failure resp p).

Section Executors.
Context {rt : Runtime} (env : Env) (userToken : option str).

Definition token_header : option str := truthy userToken.

Definition search_source (postType : str) (p : Payload) : list NeedpediaPost :=
  match p_content p with
  | Some (ContentArray l) => normalizePostArray (Some (FArray l))
  | Some (ContentRecord bucket) =>
      let source :=
        if str_eqb postType (lit "problem") || str_eqb postType (lit "problems")
        then normalizePostArray (get_field (lit "problems") bucket)
        else if str_eqb postType (lit "idea") || str_eqb postType (lit "ideas")
        then normalizePostArray (get_field (lit "ideas") bucket)
        else normalizePostArray (get_field (lit "subjects") bucket) in
      match source with
      | [] => normalizePostArray (first_array bucket)
      | _ => source
      end
  | _ => []
  end.

Definition to_item (postType : str) (item : NeedpediaPost) : Item :=
  {| item_title := or_default (np_title item) (lit "Untitled");
     item_type := or_default (np_post_type item) postType;
     item_id := np_id item;
     item_link :=
       match truthy (np_link item), truthy (np_url item) with
       | Some l, _ => Some l
       | None, Some u => Some u
       | None, None => truthy (np_post_url item)
       end |}.

(** The second half of [find_content]: the search itself, and the
    store of its result. *)
Definition find_content_miss (q postType cacheKey : str) (t : Z)
    : M FunctionResult :=
  resp <- backend env (SearchPosts postType q token_header) ;;
  p <- read_payload resp ;;
  let items := List.map (to_item postType) (search_source postType p) in
  modify (set_cache
    (insert cacheKey {| expiryMs := (t + TOOL_CACHE_TTL_MS)%Z; payload := items |})) ;;;
  ret (FindContentResult items).

Definition find_cache_key (q : str) (postType : str) : str :=
  lit "find_content|" ++ stringify_query q postType.

Definition find_content (args : FunctionArgs) : M FunctionResult :=
  match query args with
  | None => throw (JsError (lit "Invalid arguments for content search"))
  | Some q =>
      let postType := toLowerCase (or_default (type_ args) (lit "all")) in
      let cacheKey := find_cache_key (or_default (Some q) []) postType in
      t <- now env ;;
      cached <- gets (fun w => toolResultCache w !! cacheKey) ;;
      match cached with
      | Some entry =>
          if (t <? expiryMs entry)%Z
          then ret (FindContentResult (payload entry))
          else find_content_miss q postType cacheKey t
      | None => find_content_miss q postType cacheKey t
      end
  end.

Definition create_instructions : str :=
  lit "Please confirm this post before creation by calling create_content again with "
  ++ [34] ++ lit "confirm" ++ [34] ++ lit ": true.".

Definition create_content (args : FunctionArgs) : M FunctionResult :=
  if negb (isCreateContentArgs args)
  then throw (JsError (lit "Invalid arguments for content creation"))
  else
    let htmlBody := toRichHtml (or_default (description args) []) in
    let plainText := htmlToPlainText htmlBody in
    let previewPayload :=
      {| cp_title := title args; cp_content_type := content_type args;
         cp_description := description args; cp_html := htmlBody;
         cp_plain_text := plainText; cp_parent_id := parent_id args |} in
    if negb (confirmed args)
    then ret (CreateConfirmation previewPayload create_instructions)
    else
      let parent := truthy (parent_id args) in
      let is_type (t : str) :=
        match content_type args with
        | Some c => str_eqb c t
        | None => false
        end in
      let postData :=
        {| cpp_title := or_default (title args) [];
           cpp_post_type := or_default (content_type args) [];
           cpp_body := htmlBody;
           cpp_subject_id := if is_type (lit "problem") then parent else None;
           cpp_problem_id := if is_type (lit "idea") then parent else None |} in
      resp <- backend env (CreatePost postData token_header) ;;
      p <- read_payload resp ;;
      ret (PostResult (content_post p)).

(** [Object(value)]: the value itself when it is an object or an
    array, a new empty object for [null].  A primitive comes back in
    its wrapper object, which [JSON.stringify] prints as the primitive:
    it is kept as the primitive. *)
Definition Object (value : JsonValue) : JsonValue :=
  match value with
  | JsonNull => JsonObject []
  | _ => value
  end.

Definition is_object (value : JsonValue) : bool :=
  match value with
  | JsonArray _ | JsonObject _ => true
  | _ => false
  end.

(** The members of [Object.prototype] that a call without [this]
    always answers with a [TypeError]; [__proto__] is among them since
    its value, the prototype itself, is not a function. *)
Definition throwing_members : list str :=
  [lit "valueOf"; lit "toLocaleString"; lit "hasOwnProperty";
   lit "propertyIsEnumerable"; lit "__defineGetter__";
   lit "__defineSetter__"; lit "__lookupGetter__"; lit "__lookupSetter__";
   lit "__proto__"].

(** [funcs[name]] for a name that is no key of [funcs] itself: the
    member of [Object.prototype] of that name, called as the loop calls
    a tool, with the arguments and without [this] (the route is a
    module, so strict code).  [constructor] is [Object]; [toString]
    names the missing [this]; [isPrototypeOf] says no of a value that
    is no object before it looks at [this]. *)
Definition inherited (name : str) : option (JsonValue -> M FunctionResult) :=
  if str_eqb name (lit "constructor")
  then Some (fun args => ret (OtherValue (Object args)))
  else if str_eqb name (lit "toString")
  then Some (fun _ => ret (OtherValue (JsonString (lit "[object Undefined]"))))
  else if str_eqb name (lit "isPrototypeOf")
  then Some (fun args =>
               if is_object args then throw (JsError (type_error name args))
               else ret (OtherValue (JsonBool false)))
  else if existsb (str_eqb name) throwing_members
  then Some (fun args => throw (JsError (type_error name args)))
  else None.

Definition edit_instructions : str :=
  lit "Please confirm this edit by calling edit_content again with "
  ++ [34] ++ lit "confirm" ++ [34] ++ lit ": true.".

Definition edit_content (args : FunctionArgs) : M FunctionResult :=
  match content_id args, changes args with
  | Some cid, Some ch =>
      let title := ch_title ch in
      let description := ch_description ch in
      let html := option_map toRichHtml (truthy description) in
      let plainText := option_map htmlToPlainText (truthy html) in
      let previewPayload :=
        {| ep_content_id := cid; ep_title := title;
           ep_description := description; ep_html := html;
           ep_plain_text := plainText |} in
      if negb (confirmed args)
      then ret (EditConfirmation previewPayload edit_instructions)
      else
        let postData :=
          {| upp_title := truthy title; upp_body := truthy html |} in
        resp <- backend env (UpdatePost cid postData token_header) ;;
        p <- read_payload resp ;;
        ret (PostResult (content_post p))
  | _, _ => throw (JsError (lit "Invalid arguments for content editing"))
  end.

(** [funcs[name]] as the loop reads and calls it: [None] when the
    value is [undefined].  The object has the three tools as keys of
    its own; for any other name the lookup goes on to
    [Object.prototype]. *)
Definition getFunctions (name : str) : option (JsonValue -> M FunctionResult) :=
  if str_eqb name (lit "find_content")
  then Some (fun args => find_content (as_args args))
  else if str_eqb name (lit "create_content")
  then Some (fun args => create_content (as_args args))
  else if str_eqb name (lit "edit_content")
  then Some (fun args => edit_content (as_args args))
  else inherited name.
End Executors.

(** [replacePlaceholderLinksWithToolUrls] *)

(** [item.link] when it is a string with more than white space in it. *)
Definition usable_link (i : Item) : option str :=
  match item_link i with
  | Some l => match trim l with [] => None | _ => Some l end
  | None => None
  end.

Definition collect_links (toolResults : list ExecutedToolResult) : list str :=
  flat_map
    (fun r =>
       match er_result r with
       | FindContentResult items => omap usable_link items
       | _ => []
       end)
    (List.filter (fun r => str_eqb (er_name r) (lit "find_content")) toolResults).

Definition not_rbracket (c : N) : bool := negb (c =? 93).

(** [/\[([^\]]+)\]\(#\)/] at the start of [s]: the label, and the length
    of the match. *)
Definition placeholder_at (s : str) : option (str * nat) :=
  match strip_prefix [91] s with
  | Some rest =>
      let (label, after) := span not_rbracket rest in
      match label, strip_prefix (lit "](#)") after with
      | _ :: _, Some _ => Some (label, (5 + length label)%nat)
      | _, _ => None
      end
  | None => None
  end.

(** The replacement callback, with [linkIndex] threaded through. *)
Fixpoint replace_links (links : list str) (linkIndex : nat) (skip : nat)
    (s : str) : str :=
  match s with
  | [] => []
  | c :: s' =>
      match skip with
      | S k => replace_links links linkIndex k s'
      | O =>
          match placeholder_at s with
          | Some (label, n) =>
              match nth_error links linkIndex with
              | None => firstn n s ++ replace_links links linkIndex (Nat.pred n) s'
              | Some url =>
                  (lit "[" ++ label ++ lit "](" ++ url ++ lit ")")
                  ++ replace_links links (S linkIndex) (Nat.pred n) s'
              end
          | None => c :: replace_links links linkIndex 0 s'
          end
      end
  end.

Definition replacePlaceholderLinksWithToolUrls (text : str)
    (toolResults : list ExecutedToolResult) : str :=
  match text with
  | [] => text
  | _ =>
      match collect_links toolResults with
      | [] => text
      | links => replace_links links 0 0 text
      end
  end.

End Tools.
Export Tools.

(** ** The conversation store (src/utils/memory.ts) *)

Module Memory.

(** [l.slice(-k)] for a positive [k]: the last [k] elements. *)
Definition slice_last {A} (k : Z) (l : list A) : list A :=
  skipn (length l - Z.to_nat k) l.

Definition store_get (id : str) : M (option (list Message)) :=
  gets (fun w => conversationStore w !! id).

(** [conversationStore.set(id, history)]. *)
Definition store_set (id : str) (history : list Message) : M unit :=
  modify (set_store (insert id history)).

(** [conversationStore.append(id, messages, maxMessages)]. *)
Definition store_append (id : str) (msgs : list Message) (maxMessages : Z)
    : M (list Message) := fun w =>
  let current := default [] (conversationStore w !! id) in
  let updated := current ++ msgs in
  let trimmed :=
    if (0 <? maxMessages)%Z then slice_last maxMessages updated else updated in
  (Returned trimmed, set_store (insert id trimmed) w).

End Memory.
Export Memory.

(** ** The request handler: [POST] *)

Module Route.
Local Open Scope route_scope.

Definition MAX_CONTEXT_MESSAGES (env : Env) : Z :=
  default 16%Z (CHAT_MAX_CONTEXT (process_env env)).

Definition MAX_STORED_MESSAGES (env : Env) : Z :=
  default 64%Z (CHAT_MAX_STORED (process_env env)).

Definition getErrorMessage (e : Thrown) : str :=
  match e with
  | JsError m => m
  | AxiosError m _ => m
  end.

Definition extractTokenCount (usage : option UsageMetrics) : Z :=
  match usage with
  | None => 0
  | Some u =>
      match total_tokens u, total u, completion_tokens u with
      | Some t, _, _ => t
      | None, Some t, _ => t
      | None, None, Some t => t
      | None, None, None => 0
      end
  end%Z.

Definition is_system (m : Message) : bool := Role_eqb (role m) system.

(** [baseHistory]. *)
Definition baseHistory (prompt : str) (existingHistory : list Message)
    : list Message :=
  if existsb is_system existingHistory then existingHistory
  else {| role := system; content := Some prompt; tool_calls := None;
          tool_call_id := None; name := None |} :: existingHistory.

(** The leading system message of [joined], as a list of length 0 or 1. *)
Definition leading_system (joined : list Message) : list Message :=
  match joined with
  | m :: _ => if is_system m then [m] else []
  | [] => []
  end.

(** [requestMessages]. *)
Definition requestMessages (maxc : Z) (base msgs : list Message)
    : list Message :=
  let joined := base ++ msgs in
  if (Z.of_nat (length joined) <=? maxc)%Z then joined
  else
    let sys := leading_system joined in
    let tail := slice_last (Z.max 1 (maxc - Z.of_nat (length sys))) joined in
    sys ++ tail.

Definition tool_message (id name content : str) : Message :=
  {| role := tool; content := Some content; tool_calls := None;
     tool_call_id := Some id; name := Some name |}.

(** [assistantMessage.tool_calls], empty when there is none. *)
Definition pending (m : Message) : list ToolCall := default [] (tool_calls m).

(** [!assistantMessage.content]. *)
Definition no_content (m : Message) : bool :=
  match content m with
  | Some (_ :: _) => false
  | _ => true
  end.

(** The variables of one round, and [executedToolResults], which the
    rounds share. *)
Record RoundState : Type := {
  toolResults : list Message;
  roundMemo : gmap str MemoEntry;
  executedToolResults : list ExecutedToolResult;
}.

Definition push_result (m : Message) (st : RoundState) : RoundState :=
  {| toolResults := toolResults st ++ [m];
     roundMemo := roundMemo st;
     executedToolResults := executedToolResults st |}.

Definition new_round (executed : list ExecutedToolResult) : RoundState :=
  {| toolResults := []; roundMemo := ∅; executedToolResults := executed |}.

(** What the [while] loop carries from round to round. *)
Record LoopState : Type := {
  assistantMessage : Message;
  executed : list ExecutedToolResult;
  usedTokens : Z;
  safetyCounter : nat;
}.

Definition FALLBACK_TOOLS : str :=
  lit "I've processed your request using the available tools. Please let me know if you need any additional information.".

Definition FALLBACK_PLAIN : str :=
  lit "I've processed your request. Please let me know if you need any additional information.".

Definition with_content (m : Message) (c : str) : Message :=
  {| role := role m; content := Some c; tool_calls := tool_calls m;
     tool_call_id := tool_call_id m; name := name m |}.

(** [!content || content.trim() === '']. *)
Definition blank (m : Message) : bool :=
  match content m with
  | Some c => match trim c with [] => true | _ => false end
  | None => true
  end.

(** The fallback for an answer without text. *)
Definition ensure_content (m : Message) : Message :=
  if blank m then
    with_content m
      (match pending m with [] => FALLBACK_PLAIN | _ => FALLBACK_TOOLS end)
  else m.

(** The answer as the caller gets it. *)
Definition finalize (m : Message) (executed : list ExecutedToolResult) : Message :=
  let m' := ensure_content m in
  with_content m'
    (replacePlaceholderLinksWithToolUrls (default [] (content m')) executed).

(** The [catch] of the handler. *)
Definition error_response (e : Thrown) : HttpResponse :=
  let response := match e with AxiosError _ r => r | JsError _ => None end in
  {| status :=
       match response with
       | Some r => if (ax_status r =? 0)%Z then 500%Z else ax_status r
       | None => 500%Z
       end;
     body :=
       ErrorBody
         match response with
         | Some {| ax_error := Some (ErrorString s) |} => s
         | Some {| ax_error := Some (ErrorObject m) |} =>
             or_default m (getErrorMessage e)
         | _ => getErrorMessage e
         end |}.

Definition DEFAULT_MODEL : str := lit "mistralai/mistral-7b-instruct:free".

Section Handler.
Context {rt : Runtime} (env : Env).

Section Loop.
(** [funcs], by name. *)
Context (funcs : str -> option (JsonValue -> M FunctionResult)).

(** The body of the [for] loop over the tool calls of a round. *)
Definition run_tool_call (toolCall : ToolCall) (st : RoundState)
    : M RoundState :=
  let name := tc_name toolCall in
  let argsString := tc_arguments toolCall in
  match JSON_parse (or_default (Some argsString) (lit "{}")) with
  | None => throw (JsError (syntax_error argsString))
  | Some args =>
      let roundKey := name ++ lit "|" ++ JSON_stringify args in
      try_catch
        match roundMemo st !! roundKey with
        | Some cached =>
            ret (push_result
                   (tool_message (tc_id toolCall) (memo_name cached)
                      (memo_content cached)) st)
        | None =>
            match funcs name with
            | None =>
                ret (push_result
                       (tool_message (tc_id toolCall) name
                          (stringify_error (lit "Unsupported tool: " ++ name)))
                       st)
            | Some toolFunction =>
                result <- toolFunction args ;;
                modify (log_invoked roundKey name (Some result)) ;;;
                let payload := stringify_result result in
                ret {| toolResults :=
                         toolResults st
                         ++ [tool_message (tc_id toolCall) name payload];
                       roundMemo :=
                         <[roundKey :=
                             {| memo_name := name; memo_content := payload |}]>
                           (roundMemo st);
                       executedToolResults :=
                         executedToolResults st
                         ++ [{| er_name := name; er_result := result |}] |}
            end
        end
        (fun error =>
           modify (log_invoked roundKey name None) ;;;
           ret (push_result
                  (tool_message (tc_id toolCall) name
                     (stringify_error (getErrorMessage error))) st))
  end.

Fixpoint run_tool_calls (toolCalls : list ToolCall) (st : RoundState)
    : M RoundState :=
  match toolCalls with
  | [] => ret st
  | toolCall :: rest =>
      st' <- run_tool_call toolCall st ;;
      run_tool_calls rest st'
  end.

(** [followupResponse.data.choices[0].message], read as the loop
    reads it next. *)
Definition message_of (data : LMData) : M Message :=
  match lm_message data with
  | Some m => ret m
  | None => throw (JsError undefined_error)
  end.

(** The body of the [while] loop: one round.  The flag says that
    the round ended in [break]. *)
Definition round (model : str) (request : list Message)
    (toolCalls : list ToolCall) (ls : LoopState) : M (LoopState * bool) :=
  st <- run_tool_calls toolCalls (new_round (executed ls)) ;;
  let updatedMessages :=
    request ++ [assistantMessage ls] ++ toolResults st in
  followup <- chat_completions env
    {| lm_model := model; lm_messages := updatedMessages;
       lm_tool_choice := auto |} ;;
  msg <- message_of followup ;;
  let used := (usedTokens ls + extractTokenCount (lm_usage followup))%Z in
  if no_content msg && bool_decide (pending msg = []) then
    final <- chat_completions env
      {| lm_model := model; lm_messages := updatedMessages;
         lm_tool_choice := none |} ;;
    msg' <- message_of final ;;
    ret ({| assistantMessage := msg';
            executed := executedToolResults st;
            usedTokens := (used + extractTokenCount (lm_usage final))%Z;
            safetyCounter := S (safetyCounter ls) |}, true)
  else
    ret ({| assistantMessage := msg;
            executed := executedToolResults st;
            usedTokens := used;
            safetyCounter := S (safetyCounter ls) |}, false).

(** The [while] loop.  [remaining] is [5 - safetyCounter]: the test
    [safetyCounter < 5] is the test that [remaining] is not 0. *)
Fixpoint tool_loop (model : str) (request : list Message)
    (remaining : nat) (ls : LoopState) : M LoopState :=
  match pending (assistantMessage ls), remaining with
  | [], _ => ret ls
  | _ :: _, O => ret ls
  | (_ :: _) as toolCalls, S remaining' =>
      r <- round model request toolCalls ls ;;
      if snd r then ret (fst r)
      else tool_loop model request remaining' (fst r)
  end.
End Loop.

(** The token decrement: sent, never awaited. *)
Definition decrease_tokens (utoken : str) (used : Z) : M unit :=
  modify (log_backend (DecreaseTokens utoken (Z.max 1 used))).

(** The [try] block of [POST].  The copy of the conversation that
    [saveConversationToDisk] writes is left out: it is not awaited and
    its failure is swallowed. *)
Definition handle (req : ChatRequest) : M HttpResponse :=
  let id := or_default (conversationId req) (randomUUID env) in
  match truthy (userToken req) with
  | None =>
      ret {| status := 401;
             body := ErrorBody (lit "Unauthenticated: missing user token") |}
  | Some token =>
      existing <- store_get id ;;
      let base := baseHistory (SYSTEM_PROMPT env) (default [] existing) in
      let request := requestMessages (MAX_CONTEXT_MESSAGES env) base (messages req) in
      match truthy (OPENROUTER_API_KEY (process_env env)) with
      | None => throw (JsError (lit "OpenRouter API key is not configured"))
      | Some _ =>
          let model := or_default (OPENROUTER_MODEL (process_env env)) DEFAULT_MODEL in
          response <- chat_completions env
            {| lm_model := model; lm_messages := request;
               lm_tool_choice := auto |} ;;
          match lm_message response with
          | None => throw (JsError (lit "Invalid response from OpenRouter API"))
          | Some first =>
              ls <- tool_loop (getFunctions env (userToken req)) model request 5
                      {| assistantMessage := first; executed := [];
                         usedTokens := extractTokenCount (lm_usage response);
                         safetyCounter := 0 |} ;;
              let answer := finalize (assistantMessage ls) (executed ls) in
              store_append id (messages req ++ [answer]) (MAX_STORED_MESSAGES env) ;;;
              decrease_tokens token (usedTokens ls) ;;;
              ret {| status := 200;
                     body := ChatBody id answer (Z.max 0 (usedTokens ls)) |}
          end
      end
  end.

(** [POST]: the request body as [req.json()] gave it, or the message of
    the error it threw. *)
Definition POST (req : str + ChatRequest) (w : World) : HttpResponse * World :=
  match req with
  | inl message => (error_response (JsError message), w)
  | inr r =>
      match handle r w with
      | (Returned response, w') => (response, w')
      | (Threw e, w') => (error_response e, w')
      end
  end.
End Handler.

End Route.
Export Route.

(** ** Statements of the specification *)

Module Spec.

(** *** Placeholder links, by position *)

(** A text cut at the placeholder links [[label](#)] it holds. *)
Inductive Piece : Type :=
  | Unit (c : N)
  | Placeholder (label : str).

Definition render (p : Piece) : str :=
  match p with
  | Unit c => [c]
  | Placeholder label => lit "[" ++ label ++ lit "](#)"
  end.

(** The pieces of a text, placeholder links taken leftmost first. *)
Fixpoint pieces_from (skip : nat) (s : str) : list Piece :=
  match s with
  | [] => []
  | c :: s' =>
      match skip with
      | S k => pieces_from k s'
      | O =>
          match placeholder_at s with
          | Some (label, n) => Placeholder label :: pieces_from (Nat.pred n) s'
          | None => Unit c :: pieces_from 0 s'
          end
      end
  end.

Definition pieces (s : str) : list Piece := pieces_from 0 s.

(** The [n]-th placeholder link takes the [n]-th link; a placeholder
    without a link stays as it is. *)
Fixpoint fill (links : list str) (n : nat) (ps : list Piece) : str :=
  match ps with
  | [] => []
  | Unit c :: rest => c :: fill links n rest
  | Placeholder label :: rest =>
      match nth_error links n with
      | Some url => lit "[" ++ label ++ lit "](" ++ url ++ lit ")"
      | None => render (Placeholder label)
      end ++ fill links (S n) rest
  end.

(** A link with more than white space in it. *)
Definition not_blank (link : str) : bool :=
  existsb (fun c => negb (is_white_space c)) link.

(** The links of the items of a search, in the order of the items: an
    item without a link, or with a blank one, gives none. *)
Fixpoint item_links (items : list Item) : list str :=
  match items with
  | [] => []
  | i :: rest =>
      match item_link i with
      | Some link =>
          if not_blank link then link :: item_links rest else item_links rest
      | None => item_links rest
      end
  end.

(** The links collected from executed results: those of the searches,
    in the order the searches were executed in. *)
Fixpoint search_links (results : list ExecutedToolResult) : list str :=
  match results with
  | [] => []
  | r :: rest =>
      match er_result r with
      | FindContentResult items =>
          if str_eqb (er_name r) (lit "find_content")
          then item_links items ++ search_links rest
          else search_links rest
      | _ => search_links rest
      end
  end.

(** The text of an answer before its placeholder links are filled: the
    text of the message, or the fallback sentence when that is blank. *)
Definition answer_text (m : Message) : str :=
  if blank m
  then match pending m with [] => FALLBACK_PLAIN | _ => FALLBACK_TOOLS end
  else default [] (content m).

(** *** Lines that round-trip through the rich-text helpers *)

Definition has (c : N) (s : str) : bool := existsb (N.eqb c) s.

(** [http://] or [https://] with a character of an address after it. *)
Definition url_at (s : str) : bool :=
  let body r := match r with c :: _ => url_char c | [] => false end in
  match strip_prefix (lit "http://") s, strip_prefix (lit "https://") s with
  | Some r, _ => body r
  | None, Some r => body r
  | None, None => false
  end.

Fixpoint has_url (s : str) : bool :=
  match s with
  | [] => false
  | _ :: s' => url_at s || has_url s'
  end.

(** The line opens with the marker [m], then a character that [after]
    accepts. *)
Definition opens_with (after : N -> bool) (m line : str) : bool :=
  match strip_prefix m line with
  | Some (c :: _) => after c
  | _ => false
  end.

(** One of the markers, then a character that [after] accepts. *)
Definition marker_then (after : N -> bool) (line : str) : bool :=
  opens_with after (lit "#") line || opens_with after (lit "##") line
  || opens_with after (lit "###") line || opens_with after (lit "-") line
  || opens_with after (lit "*") line.

(** A single line without [&], [<], [>], [*] or an address, whose text
    does not open with a marker followed by a character [after] accepts. *)
Definition plain_line (after : N -> bool) (s : str) : Prop :=
  has 10 s = false /\ has 38 s = false /\ has 60 s = false
  /\ has 62 s = false /\ has 42 s = false /\ has_url s = false
  /\ marker_then after (trimEnd s) = false.

(** *** The tool-result cache *)

(** The key [find_content] files a search under. *)
Definition cache_key {rt : Runtime} (args : FunctionArgs) : str :=
  find_cache_key (or_default (query args) [])
    (toLowerCase (or_default (type_ args) (lit "all"))).

(** The search request of a call. *)
Definition search_request {rt : Runtime} (userToken : option str)
    (args : FunctionArgs) : BackendRequest :=
  SearchPosts (toLowerCase (or_default (type_ args) (lit "all")))
    (default [] (query args)) (truthy userToken).

(** *** The tool loop *)

Definition parses {rt : Runtime} (tc : ToolCall) : Prop :=
  is_Some (JSON_parse (or_default (Some (tc_arguments tc)) (lit "{}"))).

(** How often the executor was called under [key], by the ghost record. *)
Definition times_invoked (key : str) (w : World) : nat :=
  length (List.filter (fun e => str_eqb key (inv_key e)) (invoked w)).

(** The results of the executor calls of a record that returned, in the
    order of the calls, each with the name it was called under. *)
Definition returned_results (log : list Invocation) : list ExecutedToolResult :=
  omap
    (fun i =>
       option_map (fun r => {| er_name := inv_name i; er_result := r |})
         (inv_result i))
    log.

Definition writes (w : World) : list BackendRequest :=
  List.filter is_write (backend_log w).

Definition searches (w : World) : list BackendRequest :=
  List.filter is_search (backend_log w).

(** The first request of a call of [POST]. *)
Definition first_request (env : Env) (req : ChatRequest) (w : World) : LMRequest :=
  let id := or_default (conversationId req) (randomUUID env) in
  {| lm_model := or_default (OPENROUTER_MODEL (process_env env)) DEFAULT_MODEL;
     lm_messages :=
       requestMessages (MAX_CONTEXT_MESSAGES env)
         (baseHistory (SYSTEM_PROMPT env) (default [] (conversationStore w !! id)))
         (messages req);
     lm_tool_choice := auto |}.

(** The state the loop starts in, the conversation a request belongs to,
    and the world after the answer is stored and the token decrement
    sent. *)
Definition loop_start (response : LMData) (first : Message) : LoopState :=
  {| assistantMessage := first; executed := [];
     usedTokens := extractTokenCount (lm_usage response);
     safetyCounter := 0 |}.

Definition conversation_id (env : Env) (req : ChatRequest) : str :=
  or_default (conversationId req) (randomUUID env).

Definition settled (env : Env) (req : ChatRequest) (token : str)
    (ls : LoopState) (w : World) : World :=
  let answer := finalize (assistantMessage ls) (executed ls) in
  log_backend (DecreaseTokens token (Z.max 1 (usedTokens ls)))
    (snd (store_append (conversation_id env req) (messages req ++ [answer])
            (MAX_STORED_MESSAGES env) w)).

(** The messages of a request before the context window is cut. *)
Definition joined_history (env : Env) (req : ChatRequest) (w : World)
    : list Message :=
  baseHistory (SYSTEM_PROMPT env)
    (default [] (conversationStore w !! conversation_id env req))
  ++ messages req.

(** The requests the model was asked with the choice of tools left to it,
    and those that forced a text. *)
Definition is_auto (r : LMRequest) : bool :=
  match lm_tool_choice r with
  | auto => true
  | none => false
  end.

Definition is_forced (r : LMRequest) : bool := negb (is_auto r).

(** A follow-up request: the first request's messages, then an assistant
    message and one tool result for each of its tool calls. *)
Definition followup_of (request : list Message) (r : LMRequest) : Prop :=
  exists m results,
    lm_messages r = request ++ m :: results
    /\ length results = length (pending m).

(** [m] is the message of the answer to the last request made. *)
Definition answered (env : Env) (w : World) (m : Message) : Prop :=
  exists r data,
    last (lm_log w) = Some r
    /\ openRouter env (Nat.pred (length (lm_log w))) r = LMResponse data
    /\ lm_message data = Some m.

(** A computation that leaves the record of model calls and the ghost
    record of executor calls alone. *)
Definition quiet {A} (m : M A) : Prop :=
  forall w, lm_log (snd (m w)) = lm_log w /\ invoked (snd (m w)) = invoked w.

(** The tool result of an executor that returned, and of one that
    threw. *)
Definition executed_message {rt : Runtime} (tc : ToolCall)
    (result : FunctionResult) : Message :=
  tool_message (tc_id tc) (tc_name tc) (stringify_result result).

Definition error_message {rt : Runtime} (tc : ToolCall) (e : Thrown) : Message :=
  tool_message (tc_id tc) (tc_name tc) (stringify_error (getErrorMessage e)).

End Spec.
Export Spec.

(** ** The history route (src/app/api/chat/history/route.ts)

    The route answers with the messages of a conversation.  It looks in
    the conversation store the chat route fills, then asks the Content
    Backend for the thread, then reads the copy on disk
    (src/utils/conversationPersistence.ts); what it finds outside the
    store it puts there. *)

Module History.

(** A property that should hold an array of messages: missing or not
    truthy, an array, or some other truthy value. *)
Inductive Slot : Type :=
  | Absent
  | Messages (l : list Message)
  | NotAnArray.

(** [a || b]. *)
Definition or_slot (a b : Slot) : Slot :=
  match a with
  | Absent => b
  | _ => a
  end.

(** What the backend sends for a thread, read through [messages],
    [chat_thread.messages], [thread.messages] and
    [conversation.messages]. *)
Record ThreadData : Type := {
  d_messages : Slot;
  d_chat_thread : Slot;
  d_thread : Slot;
  d_conversation : Slot;
}.

(** [GET /api/v1/chat_threads/<id>], with the caller's token in the
    headers when there is one. *)
Record ThreadRequest : Type := {
  thread_id : str;
  thread_token : option str;
}.

(** The answer to it: [response.ok] and the data, [None] when
    [response.json()] rejects or gives a value that is not truthy; or the
    rejection of [fetch]. *)
Inductive ThreadOutcome : Type :=
  | ThreadResponse (ok : bool) (data : option ThreadData)
  | ThreadRejected.

(** What reading [<id>.json] gives: the [messages] of the parsed text, or
    a failure of [readFile] or of [JSON.parse]. *)
Inductive FileOutcome : Type :=
  | FileParsed (messages : Slot)
  | FileFailed.

(** The backend and the disk, each answering a request knowing how many
    it answered before. *)
Record Services : Type := {
  chat_threads : nat -> ThreadRequest -> ThreadOutcome;
  readFile : nat -> str -> FileOutcome;
}.

(** The state of the chat route, and the record of what was asked of the
    backend and of the disk. *)
Record HistoryWorld : Type := {
  route_world : World;
  asked : list ThreadRequest;
  read : list str;
}.

Record HistoryRequest : Type := {
  h_conversationId : option str;
  h_userToken : option str;
}.

(** [{ error }], or [{ messages, conversationId }]; the answer for a
    conversation without history carries no [conversationId]. *)
Inductive HistoryBody : Type :=
  | HistoryError (error : str)
  | HistoryMessages (messages : list Message) (conversationId : option str).

Record HistoryResponse : Type := {
  h_status : Z;
  h_body : HistoryBody;
}.

Definition thread_messages (d : ThreadData) : Slot :=
  or_slot (d_messages d)
    (or_slot (d_chat_thread d)
       (or_slot (d_thread d) (or_slot (d_conversation d) (Messages [])))).

(** [history.filter(msg => msg.role !== 'system')]: the messages shown. *)
Definition displayMessages (history : list Message) : list Message :=
  List.filter (fun msg => negb (Role_eqb (role msg) system)) history.

Section Route.
Context (svc : Services).

Definition getBackendMessages (conversationId : str) (userToken : option str)
    (hw : HistoryWorld) : option (list Message) * HistoryWorld :=
  let r := {| thread_id := conversationId; thread_token := truthy userToken |} in
  (match chat_threads svc (length (asked hw)) r with
   | ThreadResponse true (Some d) =>
       match thread_messages d with
       | Messages ((_ :: _) as l) => Some l
       | _ => None
       end
   | _ => None
   end,
   {| route_world := route_world hw; asked := asked hw ++ [r];
      read := read hw |}).

(** [loadConversationFromDisk] of src/utils/conversationPersistence.ts. *)
Definition loadConversationFromDisk (conversationId : str) (hw : HistoryWorld)
    : option (list Message) * HistoryWorld :=
  (match readFile svc (length (read hw)) conversationId with
   | FileParsed (Messages l) => Some l
   | _ => None
   end,
   {| route_world := route_world hw; asked := asked hw;
      read := read hw ++ [conversationId] |}).

(** [history && history.length > 0]. *)
Definition found (history : option (list Message)) : bool :=
  match history with
  | Some (_ :: _) => true
  | _ => false
  end.

(** [conversationStore.set(conversationId, history)]. *)
Definition remember (id : str) (history : list Message) (hw : HistoryWorld)
    : HistoryWorld :=
  {| route_world := snd (store_set id history (route_world hw));
     asked := asked hw; read := read hw |}.

(** [POST]: the request body as [req.json()] gave it, or the message of
    the error it threw. *)
Definition POST (req : str + HistoryRequest) (hw : HistoryWorld)
    : HistoryResponse * HistoryWorld :=
  match req with
  | inl message => ({| h_status := 500; h_body := HistoryError message |}, hw)
  | inr r =>
      match truthy (h_conversationId r) with
      | None =>
          ({| h_status := 400;
              h_body := HistoryError (lit "Conversation ID is required") |}, hw)
      | Some id =>
          let history := conversationStore (route_world hw) !! id in
          let '(history, hw) :=
            if found history then (history, hw)
            else
              let '(backendHistory, hw) :=
                getBackendMessages id (h_userToken r) hw in
              match backendHistory with
              | Some ((_ :: _) as b) => (Some b, remember id b hw)
              | _ => (history, hw)
              end in
          let '(history, hw) :=
            if found history then (history, hw)
            else
              let '(diskHistory, hw) := loadConversationFromDisk id hw in
              match diskHistory with
              | Some ((_ :: _) as d) => (Some d, remember id d hw)
              | _ => (history, hw)
              end in
          match history with
          | Some ((_ :: _) as h) =>
              ({| h_status := 200;
                  h_body := HistoryMessages (displayMessages h) (Some id) |},
               hw)
          | _ =>
              ({| h_status := 200; h_body := HistoryMessages [] None |}, hw)
          end
      end
  end.
End Route.

End History.

(** ** Notions for the properties of the store, the requests and the texts *)

Module Notions.

(** *** Billing *)

(** The token decrements among the requests to the Content Backend. *)
Definition is_decrease (r : BackendRequest) : bool :=
  match r with
  | DecreaseTokens _ _ => true
  | _ => false
  end.

Definition decreases (w : World) : list BackendRequest :=
  List.filter is_decrease (backend_log w).

(** A computation that leaves the conversations alone and sends no token
    decrement. *)
Definition calm {A} (m : M A) : Prop :=
  forall w,
    conversationStore (snd (m w)) = conversationStore w
    /\ decreases (snd (m w)) = decreases w.

(** The usage an answer of the model reports. *)
Definition tokens_of (o : LMOutcome) : Z :=
  match o with
  | LMResponse data => extractTokenCount (lm_usage data)
  | LMFailure _ _ => 0%Z
  end.

(** The answers to the requests [log], the first of which is the
    [n]-th the model was asked. *)
Fixpoint answers (env : Env) (n : nat) (log : list LMRequest) : list LMOutcome :=
  match log with
  | [] => []
  | r :: rest => openRouter env n r :: answers env (S n) rest
  end.

Definition reported_usage (env : Env) (n : nat) (log : list LMRequest) : Z :=
  fold_right Z.add 0%Z (List.map tokens_of (answers env n log)).

(** *** Requests to the Content Backend *)

(** A computation that adds to the requests sent to the Content Backend
    only requests that satisfy [P]. *)
Definition sends {A} (P : BackendRequest -> Prop) (m : M A) : Prop :=
  forall w,
    exists new,
      backend_log (snd (m w)) = backend_log w ++ new /\ Forall P new.

(** A request made for the caller with the token [token]: a search or a
    write that carries that token in its header, or no token when there
    is none, and a decrement of the tokens of that caller. *)
Definition on_behalf_of (token : option str) (r : BackendRequest) : Prop :=
  match r with
  | SearchPosts _ _ t | CreatePost _ t | UpdatePost _ _ t => t = token
  | DecreaseTokens u _ => Some u = token
  end.

(** The values of [confirm] that hold a write back: no [confirm] at
    all, [null], [false], a zero, [NaN] and the empty string. *)
Inductive held_back : option JsonValue -> Prop :=
  | no_confirm : held_back None
  | confirm_null : held_back (Some JsonNull)
  | confirm_false : held_back (Some (JsonBool false))
  | confirm_zero (sign : bool) :
      held_back (Some (JsonNumber (SpecFloat.S754_zero sign)))
  | confirm_nan : held_back (Some (JsonNumber SpecFloat.S754_nan))
  | confirm_empty : held_back (Some (JsonString [])).

(** A tool call whose arguments, when they parse, carry no [confirm],
    or one that reads as false in a condition. *)
Definition unconfirmed {rt : Runtime} (tc : ToolCall) : Prop :=
  forall j,
    JSON_parse (or_default (Some (tc_arguments tc)) (lit "{}")) = Some j ->
    held_back (confirm (as_args j)).

(** A model none of whose answers asks for a tool call with a [confirm]
    that reads as true. *)
Definition never_confirms {rt : Runtime} (env : Env) : Prop :=
  forall n r data m,
    openRouter env n r = LMResponse data ->
    lm_message data = Some m ->
    Forall unconfirmed (pending m).

(** *** Tool names *)

(** The names [funcs] answers to: its three tools, and the members of
    [Object.prototype]. *)
Definition tool_names : list str :=
  [lit "find_content"; lit "create_content"; lit "edit_content"].

Definition inherited_names : list str :=
  lit "constructor" :: lit "toString" :: lit "isPrototypeOf" :: throwing_members.

(** The status the [catch] of the handler answers an error of the model
    with: the upstream status, or 500 when there is none. *)
Definition upstream_status (response : option AxiosResponse) : Z :=
  match response with
  | Some r => if (ax_status r =? 0)%Z then 500%Z else ax_status r
  | None => 500%Z
  end.

(** *** Previews and writes *)

(** The arguments [args] with [confirm] set to [c], or left out. *)
Definition with_confirm (c : option JsonValue) (args : FunctionArgs)
    : FunctionArgs :=
  {| query := query args; type_ := type_ args; title := title args;
     description := description args; content_type := content_type args;
     parent_id := parent_id args; confirm := c;
     content_id := content_id args; changes := changes args |}.

(** The message [baseHistory] puts in front of a history without a
    system message. *)
Definition prompt_message (env : Env) : Message :=
  {| role := system; content := Some (SYSTEM_PROMPT env); tool_calls := None;
     tool_call_id := None; name := None |}.

(** *** Search results *)

(** An item with a title, and with a link that is not the empty string
    when it has one. *)
Definition tidy_item (i : Item) : Prop :=
  item_title i <> [] /\ item_link i <> Some [].

(** A cache whose entries hold such items only. *)
Definition tidy_cache (w : World) : Prop :=
  forall key e,
    toolResultCache w !! key = Some e -> Forall tidy_item (payload e).

(** *** Tool results *)

(** A tool result for the call [tc]: a tool message with the id of the
    call and a content. *)
Definition answers_call (tc : ToolCall) (m : Message) : Prop :=
  role m = tool /\ tool_call_id m = Some (tc_id tc) /\ is_Some (content m).

(** A request that answers every tool call of the message [m]: the
    messages of the first request, then [m] and, for each tool call of
    [m] in their order, a tool result for that call. *)
Definition answers_every_call (request : list Message) (m : Message)
    (r : LMRequest) : Prop :=
  exists results,
    lm_messages r = request ++ m :: results
    /\ Forall2 answers_call (pending m) results.

(** [m] is the message of the answer to [r], the [n]-th request the model
    was asked. *)
Definition replies (env : Env) (n : nat) (r : LMRequest) (m : Message) : Prop :=
  exists data, openRouter env n r = LMResponse data /\ lm_message data = Some m.

(** The request that forces a text after the follow-up [r]: the same
    request with the choice of tools taken away. *)
Definition forced_after (r : LMRequest) : LMRequest :=
  {| lm_model := lm_model r; lm_messages := lm_messages r;
     lm_tool_choice := none |}.

(** The requests of the rounds after the model sent [m], the first of
    them being the [n]-th request the model is asked.  Every round asks
    with a follow-up that answers every tool call of the message the
    model sent last; what comes after a follow-up comes after an answer
    to it, and is the request that forces a text, or the next round. *)
Fixpoint rounds (env : Env) (request : list Message) (n : nat) (m : Message)
    (log : list LMRequest) : Prop :=
  match log with
  | [] => True
  | r :: rest =>
      lm_tool_choice r = auto
      /\ answers_every_call request m r
      /\ (rest = []
          \/ exists m',
               replies env n r m'
               /\ (rest = [forced_after r]
                   \/ rounds env request (S n) m' rest))
  end.

(** *** Texts *)

(** The line feeds a text starts with. *)
Definition leading_newlines (s : str) : nat :=
  length (fst (span (fun c => c =? 10) s)).

(** A text for a heading or a list item that the rich-text helpers leave
    as it is: not empty, no white space at either end, no line
    terminator, none of [&], [<], [>] and [*], and no address. *)
Definition plain_text (t : str) : Prop :=
  t <> [] /\ trim t = t
  /\ forallb (fun c => negb (is_line_terminator c)) t = true
  /\ has 38 t = false /\ has 60 t = false /\ has 62 t = false
  /\ has 42 t = false /\ has_url t = false.

(** The tag of a heading of level [n]: [h1], [h2], [h3]. *)
Definition heading_tag (n : nat) : str := lit "h" ++ [48 + N.of_nat n].

End Notions.
Export Notions.

(** ** Test doubles and scenarios

    A runtime that knows the argument values of the scenarios by their
    texts, prints values as JSON (strings without escapes and numbers as
    integers, which is all the scenarios need), and services that answer
    from a script. *)

Module Scenario.

Definition quoted (s : str) : str := [34] ++ s ++ [34].

Definition member (k : string) (v : option str) : list str :=
  match v with
  | Some s => [quoted (lit k) ++ lit ":" ++ s]
  | None => []
  end.

Definition object (members : list str) : str :=
  lit "{" ++ join (lit ",") members ++ lit "}".

Definition array (xs : list str) : str := lit "[" ++ join (lit ",") xs ++ lit "]".

Definition text (o : option str) : option str := option_map quoted o.

Definition show_number (x : SpecFloat.spec_float) : str :=
  match x with
  | SpecFloat.S754_zero _ => lit "0"
  | SpecFloat.S754_finite s m e =>
      (if s then lit "-" else []) ++ of_Z (Z.shiftl (Z.pos m) e)
  | _ => lit "null"
  end.

Fixpoint show_json (v : JsonValue) : str :=
  match v with
  | JsonNull => lit "null"
  | JsonBool b => if b then lit "true" else lit "false"
  | JsonNumber x => show_number x
  | JsonString s => quoted s
  | JsonArray items => array (List.map show_json items)
  | JsonObject members =>
      object
        (List.map (fun kv => match kv with
                             | (k, v') => quoted k ++ lit ":" ++ show_json v'
                             end) members)
  end.

Definition show_item (i : Item) : str :=
  object (member "title" (text (Some (item_title i)))
          ++ member "type" (text (Some (item_type i)))
          ++ member "id" (text (item_id i))
          ++ member "link" (text (item_link i))).

Definition show_post (p : Post) : str :=
  object (member "link" (text (Some (post_link p)))
          ++ member "title" (text (Some (post_title p)))
          ++ member "content" (text (Some (post_content p)))
          ++ member "post_type" (text (Some (post_post_type p)))).

Definition show_result (r : FunctionResult) : str :=
  match r with
  | FindContentResult items =>
      object (member "items" (Some (array (List.map show_item items))))
  | CreateConfirmation p i =>
      object
        (member "requires_confirmation" (Some (lit "true"))
         ++ member "preview"
              (Some (object
                 (member "title" (text (cp_title p))
                  ++ member "content_type" (text (cp_content_type p))
                  ++ member "description" (text (cp_description p))
                  ++ member "html" (text (Some (cp_html p)))
                  ++ member "plain_text" (text (Some (cp_plain_text p)))
                  ++ member "parent_id" (text (cp_parent_id p)))))
         ++ member "instructions" (text (Some i)))
  | EditConfirmation p i =>
      object
        (member "requires_confirmation" (Some (lit "true"))
         ++ member "preview"
              (Some (object
                 (member "content_id" (text (Some (ep_content_id p)))
                  ++ member "title" (text (ep_title p))
                  ++ member "description" (text (ep_description p))
                  ++ member "html" (text (ep_html p))
                  ++ member "plain_text" (text (ep_plain_text p)))))
         ++ member "instructions" (text (Some i)))
  | PostResult p => object (member "post" (option_map show_post p))
  | OtherValue v => show_json v
  end.

Definition lower (c : N) : N := if (65 <=? c) && (c <=? 90) then c + 32 else c.

Fixpoint assoc {A} (k : str) (l : list (str * A)) : option A :=
  match l with
  | [] => None
  | (k', v) :: r => if str_eqb k k' then Some v else assoc k r
  end.

(** [value[key]] of an object, and the string such a member is. *)
Definition field (k : string) (v : JsonValue) : option JsonValue :=
  match v with
  | JsonObject members => assoc (lit k) members
  | _ => None
  end.

Definition string_field (k : string) (v : JsonValue) : option str :=
  match field k v with
  | Some (JsonString s) => Some s
  | _ => None
  end.

Definition read_args (v : JsonValue) : FunctionArgs :=
  {| query := string_field "query" v; type_ := string_field "type" v;
     title := string_field "title" v;
     description := string_field "description" v;
     content_type := string_field "content_type" v;
     parent_id := string_field "parent_id" v;
     confirm := field "confirm" v;
     content_id := string_field "content_id" v;
     changes :=
       match field "changes" v with
       | Some c =>
           Some {| ch_title := string_field "title" c;
                   ch_description := string_field "description" c |}
       | None => None
       end |}.

(** A runtime whose [JSON.parse] knows the values of [known] by the texts
    they print as. *)
Definition runtime_of (known : list JsonValue) : Runtime :=
  {| JSON_parse := fun s =>
       List.find (fun v => str_eqb (show_json v) s) known;
     syntax_error := fun _ => lit "Unexpected end of JSON input";
     JSON_stringify := show_json;
     as_args := read_args;
     stringify_result := show_result;
     stringify_error := fun m => object (member "error" (text (Some m)));
     stringify_query := fun q t =>
       object (member "query" (text (Some q)) ++ member "type" (text (Some t)));
     toLowerCase := List.map lower;
     undefined_error := lit "Cannot read properties of undefined";
     type_error := fun _ _ => lit "Cannot convert undefined or null to object" |}.

Definition text_message (r : Role) (c : string) : Message :=
  {| role := r; content := Some (lit c); tool_calls := None;
     tool_call_id := None; name := None |}.

(** An assistant message that only asks for tool calls. *)
Definition calling (calls : list ToolCall) : Message :=
  {| role := assistant; content := None; tool_calls := Some calls;
     tool_call_id := None; name := None |}.

Definition answer (m : Message) : LMOutcome :=
  LMResponse {| lm_message := Some m; lm_usage := None |}.

Definition world0 : World :=
  {| toolResultCache := ∅; conversationStore := ∅; lm_log := [];
     backend_log := []; clock_reads := 0; invoked := [] |}.

Definition env_of (lm : nat -> LMRequest -> LMOutcome)
    (be : nat -> BackendRequest -> FetchOutcome) : Env :=
  {| process_env :=
       {| OPENROUTER_API_KEY := Some (lit "sk-or-test");
          OPENROUTER_MODEL := None;
          CHAT_MAX_CONTEXT := None; CHAT_MAX_STORED := None |};
     openRouter := lm; fetch := be;
     Date_now := fun n => (1000 + Z.of_nat n)%Z;
     randomUUID := lit "c0ffee";
     SYSTEM_PROMPT := lit "You are Lotte, assistant for Needpedia.org." |}.

(** The Language-Model Service answers from [script], then fails. *)
Definition scripted (script : list LMOutcome) : nat -> LMRequest -> LMOutcome :=
  fun n _ => nth n script (LMFailure (lit "script exhausted") None).

Definition string_member (k c : string) : str * JsonValue :=
  (lit k, JsonString (lit c)).

(** [{"query":"bike lanes","type":"idea"}] *)
Definition find_json : JsonValue :=
  JsonObject [string_member "query" "bike lanes"; string_member "type" "idea"].

Definition find_text : str :=
  object (member "query" (text (Some (lit "bike lanes")))
          ++ member "type" (text (Some (lit "idea")))).

Definition find_args : FunctionArgs :=
  {| query := Some (lit "bike lanes"); type_ := Some (lit "idea");
     title := None; description := None; content_type := None;
     parent_id := None; confirm := None; content_id := None; changes := None |}.

(** [{"title":"Bike lanes","description":"Safer streets","content_type":"idea","confirm":true}],
    and the same with another [confirm], or none. *)
Definition create_json (c : option JsonValue) : JsonValue :=
  JsonObject
    ([string_member "title" "Bike lanes";
      string_member "description" "Safer streets";
      string_member "content_type" "idea"]
     ++ match c with
        | Some v => [(lit "confirm", v)]
        | None => []
        end).

Definition create_text : str :=
  object (member "title" (text (Some (lit "Bike lanes")))
          ++ member "description" (text (Some (lit "Safer streets")))
          ++ member "content_type" (text (Some (lit "idea")))
          ++ member "confirm" (Some (lit "true"))).

(** The same arguments with the text [false] for [confirm]. *)
Definition create_text_false : str :=
  object (member "title" (text (Some (lit "Bike lanes")))
          ++ member "description" (text (Some (lit "Safer streets")))
          ++ member "content_type" (text (Some (lit "idea")))
          ++ member "confirm" (text (Some (lit "false")))).

Definition create_args (c : option JsonValue) : FunctionArgs :=
  {| query := None; type_ := None;
     title := Some (lit "Bike lanes"); description := Some (lit "Safer streets");
     content_type := Some (lit "idea"); parent_id := None; confirm := c;
     content_id := None; changes := None |}.

(** [{"content_id":"7","changes":{"title":"Bike lanes"},"confirm":true}] *)
Definition edit_args (c : option JsonValue) : FunctionArgs :=
  {| query := None; type_ := None; title := None; description := None;
     content_type := None; parent_id := None; confirm := c;
     content_id := Some (lit "7");
     changes := Some {| ch_title := Some (lit "Bike lanes"); ch_description := None |} |}.

#[local] Instance rt0 : Runtime :=
  runtime_of
    [JsonObject []; find_json; create_json (Some (JsonBool true));
     create_json (Some (JsonString (lit "false")))].

Definition two_ideas : Response :=
  {| r_ok := true; r_status := 200; r_statusText := lit "OK";
     r_json :=
       Some {| p_message := None;
               p_content :=
                 Some (ContentRecord
                   [(lit "ideas",
                     FArray
                       [RawRecord
                          {| np_id := Some (lit "7");
                             np_title := Some (lit "Protected bike lanes");
                             np_post_type := Some (lit "idea");
                             np_link := Some (lit "https://needpedia.org/posts/7");
                             np_url := None; np_post_url := None |};
                        RawRecord
                          {| np_id := Some (lit "9");
                             np_title := Some (lit "Bike lane map");
                             np_post_type := None; np_link := None;
                             np_url := Some (lit "https://needpedia.org/posts/9");
                             np_post_url := None |}])]) |} |}.

Definition unavailable : Response :=
  {| r_ok := false; r_status := 503; r_statusText := lit "Service Unavailable";
     r_json := None |}.

Definition call (id name : string) (arguments : str) : ToolCall :=
  {| tc_id := lit id; tc_name := lit name; tc_arguments := arguments |}.

Definition ask (c : string) : ChatRequest :=
  {| messages := [text_message user c]; conversationId := None;
     userToken := Some (lit "u-1") |}.

(** The model asks for one search and answers with two placeholder
    links. *)
Definition env_search : Env :=
  env_of
    (scripted
       [answer (calling [call "call_1" "find_content" find_text]);
        answer (text_message assistant
                  "Found [Protected bike lanes](#) and [Bike lane map](#).")])
    (fun _ _ => Fetched two_ideas).

(** The model asks for a search; the follow-up call is refused with 503. *)
Definition env_followup_down : Env :=
  env_of
    (scripted
       [answer (calling [call "call_1" "find_content" find_text]);
        LMFailure (lit "Request failed with status code 503")
          (Some {| ax_status := 503;
                   ax_error := Some (ErrorString (lit "Service Unavailable")) |})])
    (fun _ _ => Fetched two_ideas).

(** The backend is down; the model asks for a search and then answers. *)
Definition env_backend_down : Env :=
  env_of
    (fun n _ =>
       match n with
       | O => answer (calling [call "call_1" "find_content" find_text])
       | S _ => answer (text_message assistant
                          "The search is not available right now.")
       end)
    (fun _ _ => Fetched unavailable).

(** The model sends a tool call whose arguments are cut short, and a
    second, well-formed one. *)
Definition env_bad_arguments : Env :=
  env_of
    (scripted
       [answer (calling [call "call_1" "find_content" (lit "{");
                         call "call_2" "find_content" find_text]);
        answer (text_message assistant "Done.")])
    (fun _ _ => Fetched two_ideas).

(** The model asks for a search in every answer. *)
Definition env_endless : Env :=
  env_of (fun _ _ => answer (calling [call "call_1" "find_content" find_text]))
    (fun _ _ => Fetched two_ideas).

(** The model asks twice, in one round, for the same confirmed creation,
    and the backend refuses both. *)
Definition twice_create : list ToolCall :=
  [call "call_1" "create_content" create_text;
   call "call_2" "create_content" create_text].

Definition env_create_down : Env :=
  env_of (scripted []) (fun _ _ => Fetched unavailable).

(** The first of the two creations, which the backend refuses, and what
    it leaves. *)
Definition refused_create : Outcome RoundState * World :=
  run_tool_calls (getFunctions env_create_down (Some (lit "u-1")))
    [call "call_1" "create_content" create_text] (new_round []) world0.

Definition after_refused_create : RoundState :=
  match fst refused_create with
  | Returned st => st
  | Threw _ => new_round []
  end.

(** The model asks for a search in every answer it gives; its third call
    is refused with 429. *)
Definition env_rate_limited : Env :=
  env_of
    (scripted
       [answer (calling [call "call_1" "find_content" find_text]);
        answer (calling [call "call_2" "find_content" find_text]);
        LMFailure (lit "Request failed with status code 429")
          (Some {| ax_status := 429;
                   ax_error := Some (ErrorString (lit "Rate limit exceeded")) |})])
    (fun _ _ => Fetched two_ideas).

(** Tool calls under names that are no tools: three that [funcs]
    inherits, and one it has nothing under. *)
Definition odd_calls : list ToolCall :=
  [call "call_1" "toString" find_text;
   call "call_2" "constructor" find_text;
   call "call_3" "valueOf" find_text;
   call "call_4" "delete_content" find_text].

Definition error_payload (message : string) : str :=
  object (member "error" (text (Some (lit message)))).

(** The model asks twice, in one round, for the same search. *)
Definition twice_find : list ToolCall :=
  [call "call_1" "find_content" find_text;
   call "call_2" "find_content" find_text].

(** What the search of [env_search] finds. *)
Definition found_items : list Item :=
  [{| item_title := lit "Protected bike lanes"; item_type := lit "idea";
      item_id := Some (lit "7");
      item_link := Some (lit "https://needpedia.org/posts/7") |};
   {| item_title := lit "Bike lane map"; item_type := lit "idea";
      item_id := Some (lit "9");
      item_link := Some (lit "https://needpedia.org/posts/9") |}].

(** The first search of [env_search], from an empty world. *)
Definition first_search : Outcome FunctionResult * World :=
  find_content env_search (Some (lit "u-1")) find_args world0.

(** The first tool call of a round of [env_search], and the state and
    world it leaves. *)
Definition first_call : Outcome RoundState * World :=
  run_tool_call (getFunctions env_search (Some (lit "u-1")))
    (call "call_1" "find_content" find_text) (new_round []) world0.

Definition after_first_call : RoundState :=
  match fst first_call with
  | Returned st => st
  | Threw _ => new_round []
  end.

(** Fifteen messages of the caller: with the system prompt, exactly the
    sixteen the default configuration allows. *)
Definition long_request : ChatRequest :=
  {| messages := repeat (text_message user "and another thing") 15;
     conversationId := None; userToken := Some (lit "u-1") |}.

(** The round of [twice_find] against [env_search], and the state it
    leaves. *)
Definition twice_found : Outcome RoundState * World :=
  run_tool_calls (getFunctions env_search (Some (lit "u-1"))) twice_find
    (new_round []) world0.

Definition after_twice_find : RoundState :=
  match fst twice_found with
  | Returned st => st
  | Threw _ => new_round []
  end.

(** The model reports its usage: 120 tokens for the first answer, 30 for
    the second. *)
Definition metered (m : Message) (u : UsageMetrics) : LMOutcome :=
  LMResponse {| lm_message := Some m; lm_usage := Some u |}.

Definition env_metered : Env :=
  env_of
    (scripted
       [metered (calling [call "call_1" "find_content" find_text])
          {| total_tokens := Some 120%Z; total := None;
             completion_tokens := Some 20%Z |};
        metered (text_message assistant "Two ideas found.")
          {| total_tokens := None; total := Some 30%Z;
             completion_tokens := None |}])
    (fun _ _ => Fetched two_ideas).

(** A runtime that knows no arguments with a [confirm], and a model that
    asks for a creation without it. *)
Definition create_preview_text : str :=
  object (member "title" (text (Some (lit "Bike lanes")))
          ++ member "description" (text (Some (lit "Safer streets")))
          ++ member "content_type" (text (Some (lit "idea")))).

Definition rt_unconfirmed : Runtime :=
  runtime_of [JsonObject []; find_json; create_json None].

Definition env_preview : Env :=
  env_of
    (scripted
       [answer (calling [call "call_1" "create_content" create_preview_text]);
        answer (text_message assistant "Shall I create this idea?")])
    (fun _ _ => Fetched two_ideas).

(** The model answers at once, without a tool call. *)
Definition env_plain : Env :=
  env_of (scripted [answer (text_message assistant "Hello! How can I help?")])
    (fun _ _ => Fetched two_ideas).

(** The history route: a backend that knows one thread, under
    [chat_thread.messages], and a backend that is down; nothing on disk. *)
Definition thread_7 : list Message :=
  [text_message system "You are Lotte, assistant for Needpedia.org.";
   text_message user "hello";
   text_message assistant "Hi! How can I help?"].

Definition svc_thread : History.Services :=
  {| History.chat_threads := fun _ _ =>
       History.ThreadResponse true
         (Some {| History.d_messages := History.Absent;
                  History.d_chat_thread := History.Messages thread_7;
                  History.d_thread := History.Absent;
                  History.d_conversation := History.Absent |});
     History.readFile := fun _ _ => History.FileFailed |}.

Definition svc_down : History.Services :=
  {| History.chat_threads := fun _ _ => History.ThreadRejected;
     History.readFile := fun _ _ => History.FileFailed |}.

Definition history_of (id : string) : History.HistoryRequest :=
  {| History.h_conversationId := Some (lit id);
     History.h_userToken := Some (lit "u-1") |}.

Definition hworld (w : World) : History.HistoryWorld :=
  {| History.route_world := w; History.asked := []; History.read := [] |}.

End Scenario.

(** * Properties *)

#[global] Arguments N.eqb : simpl never.
#[global] Arguments N.leb : simpl never.

(** ** Strings and global replacement *)

Module StringProofs.

Lemma str_eqb_eq (a b : str) : str_eqb a b = true <-> a = b.
Proof. unfold str_eqb. destruct (decide (a = b)); split; congruence. Qed.

Lemma str_eqb_refl (a : str) : str_eqb a a = true.
Proof. apply str_eqb_eq. reflexivity. Qed.

Lemma str_eqb_neq (a b : str) : a <> b -> str_eqb a b = false.
Proof. unfold str_eqb. destruct (decide (a = b)); congruence. Qed.

Lemma strip_prefix_Some (p s r : str) :
  strip_prefix p s = Some r <-> s = p ++ r.
Proof.
  revert s. induction p as [|a p IH]; intros s; simpl.
  - split; congruence.
  - destruct s as [|b s].
    + split; discriminate.
    + destruct (N.eqb_spec a b) as [->|Hne].
      * rewrite IH. split; congruence.
      * split; [discriminate | congruence].
Qed.

Lemma strip_prefix_app (p r : str) : strip_prefix p (p ++ r) = Some r.
Proof. apply strip_prefix_Some. reflexivity. Qed.

(** A text that does not start with the first code unit of a pattern
    does not start with the pattern. *)
Lemma strip_prefix_head (a c : N) (p s : str) :
  c <> a -> strip_prefix (a :: p) (c :: s) = None.
Proof.
  intros Hne. simpl. destruct (N.eqb_spec a c); [congruence | reflexivity].
Qed.

Lemma span_app (f : N -> bool) (s : str) :
  fst (span f s) ++ snd (span f s) = s.
Proof.
  induction s as [|c s IH]; simpl; [reflexivity|].
  destruct (f c); [|reflexivity].
  destruct (span f s) as [a b]; simpl in *. congruence.
Qed.

Lemma span_all (f : N -> bool) (s : str) :
  forallb f (fst (span f s)) = true.
Proof.
  induction s as [|c s IH]; simpl; [reflexivity|].
  destruct (f c) eqn:Hc; [|reflexivity].
  destruct (span f s) as [a b]; simpl in *. rewrite Hc. exact IH.
Qed.

Lemma span_stop (f : N -> bool) (s : str) (c : N) (r : str) :
  snd (span f s) = c :: r -> f c = false.
Proof.
  induction s as [|d s IH]; simpl; [discriminate|].
  destruct (f d) eqn:Hd.
  - destruct (span f s) as [a b]; simpl in *. exact IH.
  - simpl. intros H. injection H as <- _. exact Hd.
Qed.

(** The longest run is the whole text when every code unit passes. *)
Lemma span_forall (f : N -> bool) (s : str) :
  forallb f s = true -> span f s = (s, []).
Proof.
  induction s as [|c s IH]; simpl; [reflexivity|].
  destruct (f c); simpl; [|discriminate].
  intros H. rewrite (IH H). reflexivity.
Qed.

(** The run before a code unit that does not pass. *)
Lemma span_until (f : N -> bool) (a : str) (c : N) (r : str) :
  forallb f a = true -> f c = false -> span f (a ++ c :: r) = (a, c :: r).
Proof.
  intros Ha Hc. induction a as [|d a IH]; simpl in *.
  - rewrite Hc. reflexivity.
  - destruct (f d); simpl in *; [|discriminate]. rewrite (IH Ha). reflexivity.
Qed.

(** *** [replace_global] *)

Lemma replace_from_skip (m : matcher) (k : nat) (s : str) :
  replace_from m k s = replace_from m 0 (skipn k s).
Proof.
  revert k. induction s as [|c s IH]; intros k.
  - destruct k; reflexivity.
  - destruct k as [|k]; [reflexivity|]. simpl. apply IH.
Qed.

Lemma replace_global_nil (m : matcher) : replace_global m [] = [].
Proof. reflexivity. Qed.

Lemma replace_global_miss (m : matcher) (c : N) (s : str) :
  m (c :: s) = None ->
  replace_global m (c :: s) = c :: replace_global m s.
Proof. unfold replace_global. simpl. intros ->. reflexivity. Qed.

Lemma replace_global_hit (m : matcher) (c : N) (s rep : str) (n : nat) :
  m (c :: s) = Some (rep, S n) ->
  replace_global m (c :: s) = rep ++ replace_global m (skipn n s).
Proof.
  unfold replace_global. simpl. intros ->. simpl.
  rewrite replace_from_skip. reflexivity.
Qed.

(** An expression that matches nowhere in a text leaves it as it is. *)
Lemma replace_global_none (m : matcher) (s : str) :
  (forall a b, s = a ++ b -> m b = None) -> replace_global m s = s.
Proof.
  induction s as [|c s IH]; intros H; [reflexivity|].
  rewrite replace_global_miss by (apply (H []); reflexivity).
  f_equal. apply IH. intros a b ->. apply (H (c :: a)). reflexivity.
Qed.

(** An expression whose matches all start with [c] leaves a text without
    [c] as it is. *)
Lemma replace_global_absent (m : matcher) (c : N) (s : str) :
  (forall d r, d <> c -> m (d :: r) = None) ->
  m [] = None ->
  existsb (N.eqb c) s = false ->
  replace_global m s = s.
Proof.
  intros Hm Hnil. induction s as [|d s IH]; simpl; intros Hs; [reflexivity|].
  apply orb_false_iff in Hs as [Hd Hs].
  rewrite replace_global_miss.
  - f_equal. apply IH. exact Hs.
  - apply Hm. intros ->. rewrite N.eqb_refl in Hd. discriminate.
Qed.

End StringProofs.

(** ** The confirmation gate of the content-changing tools *)

Module GateProofs.
Import Scenario.

(** The test [!args.confirm] holds a call back for exactly the values of
    [held_back]. *)
Lemma confirmed_held_back (args : FunctionArgs) :
  confirmed args = false <-> held_back (confirm args).
Proof.
  unfold confirmed. split.
  - destruct (confirm args) as [v|]; [|constructor].
    destruct v as [|[|]|[]|[|c s]|items|members]; cbn; intros H;
      try discriminate; constructor.
  - intros H. inversion H; reflexivity.
Qed.

Lemma confirmed_false (args : FunctionArgs) :
  held_back (confirm args) -> confirmed args = false.
Proof. apply confirmed_held_back. Qed.

Lemma confirmed_true (args : FunctionArgs) :
  ~ held_back (confirm args) -> confirmed args = true.
Proof.
  intros H. destruct (confirmed args) eqn:Hc; [reflexivity|].
  exfalso. apply H, confirmed_held_back, Hc.
Qed.

Lemma backend_logs (env : Env) (r : BackendRequest) (w : World) :
  backend_log (snd (backend env r w)) = backend_log w ++ [r].
Proof. unfold backend. destruct (fetch env _ r); reflexivity. Qed.

Lemma read_payload_world (resp : Response) (w : World) :
  snd (read_payload resp w) = w.
Proof. unfold read_payload. destruct (r_ok resp); reflexivity. Qed.

(** A request followed by the reading of its answer leaves one entry in
    the log, whatever the answer. *)
Lemma request_then_read {A} (env : Env) (r : BackendRequest)
    (k : Payload -> M A) (w : World) :
  (forall p w', backend_log (snd (k p w')) = backend_log w') ->
  backend_log
    (snd (bind (backend env r) (fun resp => bind (read_payload resp) k) w))
  = backend_log w ++ [r].
Proof.
  intros Hk. unfold bind.
  pose proof (backend_logs env r w) as Hlog.
  destruct (backend env r w) as [[resp|e] w1]; simpl in *; [|exact Hlog].
  pose proof (read_payload_world resp w1) as Hrd.
  destruct (read_payload resp w1) as [[p|e] w2]; simpl in *; subst w2.
  - rewrite Hk. exact Hlog.
  - exact Hlog.
Qed.

(** C1 (as amended).  The gate of [create_content] and [edit_content] is
    the condition [!args.confirm], for arguments whose texts are strings
    and whose [confirm] is any value.  A call whose [confirm] is missing,
    [null], [false], a zero, [NaN] or the empty string sends nothing to
    the Content Backend and, when the arguments have the fields the tool
    checks for, returns the preview: the title and description as given,
    the HTML derived from the description and its plain text.  With any
    other [confirm] ([true], but also a string that is not empty, a number
    that is not zero, an array or an object) and the checked fields, the
    call sends exactly one request, the write.  Arguments without the
    checked fields make the executor throw before anything is sent. *)
Theorem confirmation_gate (env : Env) (userToken : option str)
    (args : FunctionArgs) (w : World) :
  (held_back (confirm args) ->
     snd (create_content env userToken args w) = w
     /\ snd (edit_content env userToken args w) = w
     /\ (isCreateContentArgs args = true ->
         exists p,
           fst (create_content env userToken args w)
           = Returned (CreateConfirmation p create_instructions)
           /\ cp_title p = title args
           /\ cp_description p = description args
           /\ cp_html p = toRichHtml (or_default (description args) [])
           /\ cp_plain_text p = htmlToPlainText (cp_html p))
     /\ (isEditContentArgs args = true ->
         exists p ch,
           fst (edit_content env userToken args w)
           = Returned (EditConfirmation p edit_instructions)
           /\ changes args = Some ch
           /\ ep_title p = ch_title ch
           /\ ep_description p = ch_description ch
           /\ ep_html p = option_map toRichHtml (truthy (ch_description ch))
           /\ ep_plain_text p = option_map htmlToPlainText (truthy (ep_html p))))
  /\ (~ held_back (confirm args) ->
      (isCreateContentArgs args = true ->
       exists payload,
         backend_log (snd (create_content env userToken args w))
         = backend_log w ++ [CreatePost payload (truthy userToken)])
      /\ (isEditContentArgs args = true ->
          exists cid payload,
            content_id args = Some cid
            /\ backend_log (snd (edit_content env userToken args w))
               = backend_log w ++ [UpdatePost cid payload (truthy userToken)]))
  /\ (isCreateContentArgs args = false ->
      create_content env userToken args w
      = (Threw (JsError (lit "Invalid arguments for content creation")), w))
  /\ (isEditContentArgs args = false ->
      edit_content env userToken args w
      = (Threw (JsError (lit "Invalid arguments for content editing")), w)).
Proof.
  split; [intros Hc; apply confirmed_false in Hc | split; [intros Hc; apply confirmed_true in Hc | split]].
  - split; [|split; [|split]].
    + unfold create_content.
      destruct (isCreateContentArgs args); simpl; [|reflexivity].
      rewrite Hc. reflexivity.
    + unfold edit_content.
      destruct (content_id args), (changes args); try reflexivity.
      rewrite Hc. reflexivity.
    + intros Hargs. unfold create_content. rewrite Hargs, Hc. simpl.
      eexists. repeat split; reflexivity.
    + intros Hargs. unfold edit_content, isEditContentArgs in *.
      destruct (content_id args) as [cid|]; [|discriminate].
      destruct (changes args) as [ch|]; [|discriminate].
      rewrite Hc. simpl. eexists. exists ch. repeat split; reflexivity.
  - split.
    + intros Hargs. unfold create_content. rewrite Hargs, Hc. simpl.
      eexists. unfold token_header.
      apply (request_then_read env). reflexivity.
    + intros Hargs. unfold edit_content, isEditContentArgs in *.
      destruct (content_id args) as [cid|]; [|discriminate].
      destruct (changes args) as [ch|]; [|discriminate].
      rewrite Hc. simpl. exists cid. eexists. split; [reflexivity|].
      unfold token_header. apply (request_then_read env). reflexivity.
  - intros Hargs. unfold create_content. rewrite Hargs. reflexivity.
  - intros Hargs. unfold edit_content, isEditContentArgs in *.
    destruct (content_id args), (changes args); try reflexivity; discriminate.
Qed.

(** C1, as stated, fails: [create_content] called with the arguments of a
    search, which carry no [confirm], returns no preview; it throws. *)
Lemma create_content_without_fields_throws :
  confirm find_args <> Some (JsonBool true)
  /\ create_content env_create_down (Some (lit "u-1")) find_args world0
     = (Threw (JsError (lit "Invalid arguments for content creation")), world0).
Proof. split; [discriminate | reflexivity]. Qed.

#[local] Existing Instance rt0.

(** And a [confirm] that is not [true] can let the write through: with
    the text [false] for [confirm], the creation is sent. *)
Example text_confirm_writes :
  let args := create_args (Some (JsonString (lit "false"))) in
  confirm args <> Some (JsonBool true)
  /\ as_args (create_json (Some (JsonString (lit "false")))) = args
  /\ JSON_parse create_text_false
     = Some (create_json (Some (JsonString (lit "false"))))
  /\ exists payload,
      writes (snd (create_content env_search (Some (lit "u-1")) args world0))
      = [CreatePost payload (Some (lit "u-1"))].
Proof.
  split_and!; [discriminate | reflexivity | reflexivity |].
  eexists. vm_compute. reflexivity.
Qed.

Lemma confirmation_gate_witness :
  (held_back (confirm (create_args None))
   /\ isCreateContentArgs (create_args None) = true
   /\ writes (snd (create_content env_create_down (Some (lit "u-1"))
                     (create_args None) world0)) = [])
  /\ (~ held_back (confirm (create_args (Some (JsonBool true))))
      /\ isCreateContentArgs (create_args (Some (JsonBool true))) = true
      /\ length (writes (snd (create_content env_create_down (Some (lit "u-1"))
                                (create_args (Some (JsonBool true))) world0)))
         = 1%nat)
  /\ (held_back (confirm (edit_args (Some (JsonBool false))))
      /\ isEditContentArgs (edit_args (Some (JsonBool false))) = true
      /\ writes (snd (edit_content env_create_down (Some (lit "u-1"))
                        (edit_args (Some (JsonBool false))) world0)) = [])
  /\ (~ held_back (confirm (edit_args (Some (JsonString (lit "yes")))))
      /\ isEditContentArgs (edit_args (Some (JsonString (lit "yes")))) = true
      /\ length (writes (snd (edit_content env_create_down (Some (lit "u-1"))
                                (edit_args (Some (JsonString (lit "yes"))))
                                world0))) = 1%nat).
Proof.
  pose proof (confirmation_gate env_create_down (Some (lit "u-1"))
                (create_args None) world0) as [Hc _].
  pose proof (confirmation_gate env_create_down (Some (lit "u-1"))
                (create_args (Some (JsonBool true))) world0) as [_ [Hc' _]].
  pose proof (confirmation_gate env_create_down (Some (lit "u-1"))
                (edit_args (Some (JsonBool false))) world0) as [He _].
  pose proof (confirmation_gate env_create_down (Some (lit "u-1"))
                (edit_args (Some (JsonString (lit "yes")))) world0)
    as [_ [He' _]].
  assert (H1 : held_back (confirm (create_args None))) by constructor.
  assert (H2 : held_back (confirm (edit_args (Some (JsonBool false)))))
    by constructor.
  assert (H3 : ~ held_back (confirm (create_args (Some (JsonBool true)))))
    by (intros H; inversion H).
  assert (H4 : ~ held_back (confirm (edit_args (Some (JsonString (lit "yes"))))))
    by (intros H; inversion H).
  destruct (Hc H1) as [Hw _]. destruct (He H2) as [_ [Hw' _]].
  destruct (Hc' H3) as [Hone _]. destruct (He' H4) as [_ Hone'].
  destruct (Hone eq_refl) as [p Hp].
  destruct (Hone' eq_refl) as [cid [p' [_ Hp']]].
  split; [|split; [|split]]; (split; [assumption | split; [reflexivity|]]).
  - rewrite Hw. reflexivity.
  - unfold writes. rewrite Hp. reflexivity.
  - rewrite Hw'. reflexivity.
  - unfold writes. rewrite Hp'. reflexivity.
Defined.

End GateProofs.

(** ** The tool-result cache *)

Module CacheProofs.
Import Scenario.

Section Cache.
Context {rt : Runtime} (env : Env) (userToken : option str).

Lemma find_content_unfold (args : FunctionArgs) (q : str) (w : World) :
  query args = Some q ->
  find_content env userToken args w
  = let t := Date_now env (clock_reads w) in
    match toolResultCache w !! cache_key args with
    | Some entry =>
        if (t <? expiryMs entry)%Z
        then (Returned (FindContentResult (payload entry)), tick w)
        else find_content_miss env userToken q
               (toLowerCase (or_default (type_ args) (lit "all")))
               (cache_key args) t (tick w)
    | None =>
        find_content_miss env userToken q
          (toLowerCase (or_default (type_ args) (lit "all")))
          (cache_key args) t (tick w)
    end.
Proof.
  intros Hq. unfold find_content, cache_key. rewrite Hq.
  unfold bind, now, gets. simpl.
  destruct (toolResultCache w !! _) as [entry|]; [|reflexivity].
  destruct (_ <? _)%Z; reflexivity.
Qed.

Lemma miss_log (q postType key : str) (t : Z) (w : World) :
  backend_log (snd (find_content_miss env userToken q postType key t w))
  = backend_log w ++ [SearchPosts postType q (truthy userToken)].
Proof.
  unfold find_content_miss, token_header.
  apply (GateProofs.request_then_read env). reflexivity.
Qed.

Lemma miss_store (q postType key : str) (t : Z) (w w' : World)
    (r : FunctionResult) :
  find_content_miss env userToken q postType key t w = (Returned r, w') ->
  exists items,
    r = FindContentResult items
    /\ toolResultCache w'
       = <[key := {| expiryMs := (t + 5000)%Z; payload := items |}]>
           (toolResultCache w).
Proof.
  unfold find_content_miss, bind, backend, read_payload, modify, ret.
  destruct (fetch env _ _) as [resp|msg]; [|discriminate].
  destruct (r_ok resp); [|discriminate].
  intros H. injection H as <- <-. eexists. split; reflexivity.
Qed.

(** C9.  A lookup returns the stored payload only when the expiry of
    the entry is strictly later than the clock, and then nothing is
    asked of the backend; otherwise the search is sent.  A search that
    succeeds stores its payload with expiry [now + 5000].  Hence a
    second call with the same arguments whose clock reads less than
    that expiry sends no search: the two calls send exactly one. *)
Theorem tool_result_cache (args : FunctionArgs) (q : str) (w : World) :
  query args = Some q ->
  let key := cache_key args in
  let t := Date_now env (clock_reads w) in
  (forall e,
      toolResultCache w !! key = Some e -> (t < expiryMs e)%Z ->
      find_content env userToken args w
      = (Returned (FindContentResult (payload e)), tick w))
  /\ ((forall e, toolResultCache w !! key = Some e -> (expiryMs e <= t)%Z) ->
      backend_log (snd (find_content env userToken args w))
      = backend_log w ++ [search_request userToken args]
      /\ forall items w',
          find_content env userToken args w
          = (Returned (FindContentResult items), w') ->
          toolResultCache w'
          = <[key := {| expiryMs := (t + 5000)%Z; payload := items |}]>
              (toolResultCache w)
          /\ (forall w2,
                 toolResultCache w2 !! key
                 = Some {| expiryMs := (t + 5000)%Z; payload := items |} ->
                 (Date_now env (clock_reads w2) < t + 5000)%Z ->
                 find_content env userToken args w2
                 = (Returned (FindContentResult items), tick w2))
          /\ ((Date_now env (clock_reads w') < t + 5000)%Z ->
              fst (find_content env userToken args w')
              = Returned (FindContentResult items)
              /\ backend_log (snd (find_content env userToken args w'))
                 = backend_log w ++ [search_request userToken args])).
Proof.
  intros Hq key t.
  assert (Hhit : forall e w0,
             toolResultCache w0 !! key = Some e ->
             (Date_now env (clock_reads w0) <? expiryMs e)%Z = true ->
             find_content env userToken args w0
             = (Returned (FindContentResult (payload e)), tick w0)).
  { intros e w0 He Hlt. rewrite (find_content_unfold _ _ _ Hq). simpl.
    fold key. rewrite He, Hlt. reflexivity. }
  split.
  - intros e He Hlt. apply Hhit; [exact He|]. apply Z.ltb_lt. exact Hlt.
  - intros Hmiss.
    assert (Hrun : find_content env userToken args w
                   = find_content_miss env userToken q
                       (toLowerCase (or_default (type_ args) (lit "all")))
                       key t (tick w)).
    { rewrite (find_content_unfold _ _ _ Hq). simpl. fold key t.
      destruct (toolResultCache w !! key) as [e|] eqn:He; [|reflexivity].
      specialize (Hmiss e eq_refl).
      destruct (t <? expiryMs e)%Z eqn:Hlt; [|reflexivity].
      apply Z.ltb_lt in Hlt. lia. }
    assert (Hlog : backend_log (snd (find_content env userToken args w))
                   = backend_log w ++ [search_request userToken args]).
    { rewrite Hrun, miss_log. unfold search_request. rewrite Hq. reflexivity. }
    split; [exact Hlog|].
    intros items w' Hfind.
    rewrite Hrun in Hfind. destruct (miss_store _ _ _ _ _ _ _ Hfind)
      as [items' [Heq Hcache]].
    injection Heq as <-.
    assert (Hagain : forall w2,
               toolResultCache w2 !! key
               = Some {| expiryMs := (t + 5000)%Z; payload := items |} ->
               (Date_now env (clock_reads w2) < t + 5000)%Z ->
               find_content env userToken args w2
               = (Returned (FindContentResult items), tick w2)).
    { intros w2 He Hlt.
      apply (Hhit {| expiryMs := (t + 5000)%Z; payload := items |} w2 He).
      apply Z.ltb_lt. exact Hlt. }
    split; [exact Hcache|]. split; [exact Hagain|].
    intros Hlt.
    assert (He : toolResultCache w' !! key
                 = Some {| expiryMs := (t + 5000)%Z; payload := items |}).
    { rewrite Hcache. apply lookup_insert_eq. }
    rewrite (Hagain w' He Hlt). simpl. split; [reflexivity|].
    rewrite <- Hlog, Hrun, Hfind. reflexivity.
Qed.
End Cache.

#[local] Existing Instance rt0.

(** The scenario of two searches in a row: the clock reads 1000, then
    1001; one request goes out. *)
Lemma tool_result_cache_witness :
  let second :=
    find_content env_search (Some (lit "u-1")) find_args (snd first_search) in
  fst second = Returned (FindContentResult found_items)
  /\ backend_log (snd second)
     = [SearchPosts (lit "idea") (lit "bike lanes") (Some (lit "u-1"))].
Proof.
  assert (Hfirst : find_content env_search (Some (lit "u-1")) find_args world0
                   = (Returned (FindContentResult found_items), snd first_search))
    by (vm_compute; reflexivity).
  destruct (tool_result_cache env_search (Some (lit "u-1")) find_args
              (lit "bike lanes") world0 eq_refl) as [_ Hmiss].
  destruct Hmiss as [_ Hstore].
  { intros e He. vm_compute in He. discriminate. }
  destruct (Hstore found_items (snd first_search) Hfirst) as [_ [_ Htwo]].
  destruct Htwo as [Hsame Hlog].
  { vm_compute. reflexivity. }
  split; [exact Hsame | exact Hlog].
Defined.

End CacheProofs.

(** ** The tool calls of one round *)

Module RoundProofs.
Import Scenario StringProofs.

Lemma quiet_ret {A} (a : A) : quiet (ret a).
Proof. intros w. split; reflexivity. Qed.

Lemma quiet_throw {A} (e : Thrown) : quiet (@throw A e).
Proof. intros w. split; reflexivity. Qed.

Lemma quiet_bind {A B} (m : M A) (k : A -> M B) :
  quiet m -> (forall a, quiet (k a)) -> quiet (bind m k).
Proof.
  intros Hm Hk w. unfold bind. destruct (Hm w) as [H1 H2].
  destruct (m w) as [[a|e] w1]; simpl in *.
  - destruct (Hk a w1) as [H3 H4]. split; congruence.
  - split; assumption.
Qed.

Lemma quiet_backend (env : Env) (r : BackendRequest) : quiet (backend env r).
Proof. intros w. unfold backend. destruct (fetch env _ r); split; reflexivity. Qed.

Lemma quiet_read_payload (resp : Response) : quiet (read_payload resp).
Proof.
  unfold read_payload. destruct (r_ok resp); [apply quiet_ret | apply quiet_throw].
Qed.

Lemma quiet_modify_cache (f : gmap str CacheEntry -> gmap str CacheEntry) :
  quiet (modify (set_cache f)).
Proof. intros w. split; reflexivity. Qed.

Lemma quiet_now (env : Env) : quiet (now env).
Proof. intros w. split; reflexivity. Qed.

Lemma quiet_gets {A} (f : World -> A) : quiet (gets f).
Proof. intros w. split; reflexivity. Qed.

Create HintDb quiet.
#[local] Hint Resolve quiet_ret quiet_throw quiet_backend quiet_read_payload
  quiet_modify_cache quiet_now quiet_gets : quiet.

Ltac quiet_step :=
  repeat first
    [ apply quiet_bind; [| intros ? ]
    | solve [ auto with quiet ] ].

Section Executors.
Context {rt : Runtime} (env : Env) (userToken : option str).

Lemma quiet_find_content (args : FunctionArgs) :
  quiet (find_content env userToken args).
Proof.
  unfold find_content. destruct (query args) as [q|]; [|auto with quiet].
  apply quiet_bind; [auto with quiet | intros t].
  apply quiet_bind; [auto with quiet | intros cached].
  assert (Hmiss : forall k, quiet (find_content_miss env userToken q
            (toLowerCase (or_default (type_ args) (lit "all"))) k t)).
  { intros k. unfold find_content_miss. quiet_step. }
  destruct cached as [entry|]; [|apply Hmiss].
  destruct (_ <? _)%Z; [auto with quiet | apply Hmiss].
Qed.

Lemma quiet_create_content (args : FunctionArgs) :
  quiet (create_content env userToken args).
Proof.
  unfold create_content.
  destruct (negb (isCreateContentArgs args)); [auto with quiet|].
  destruct (negb (confirmed args)); [auto with quiet|]. quiet_step.
Qed.

Lemma quiet_edit_content (args : FunctionArgs) :
  quiet (edit_content env userToken args).
Proof.
  unfold edit_content.
  destruct (content_id args), (changes args); try solve [auto with quiet].
  destruct (negb (confirmed args)); [auto with quiet|]. quiet_step.
Qed.

(** What [funcs] inherits asks nothing of anyone. *)
Lemma inherited_pure (name : str) (f : JsonValue -> M FunctionResult)
    (args : JsonValue) (w : World) :
  inherited name = Some f -> snd (f args w) = w.
Proof.
  unfold inherited.
  repeat match goal with
         | |- context [if ?b then _ else _] => destruct b
         end; intros H; try discriminate; injection H as <-;
    try reflexivity.
  destruct (is_object args); reflexivity.
Qed.

Lemma quiet_inherited (name : str) (f : JsonValue -> M FunctionResult)
    (args : JsonValue) :
  inherited name = Some f -> quiet (f args).
Proof.
  intros Hf w. rewrite (inherited_pure name f args w Hf). split; reflexivity.
Qed.

Lemma quiet_getFunctions (name : str) (f : JsonValue -> M FunctionResult)
    (args : JsonValue) :
  getFunctions env userToken name = Some f -> quiet (f args).
Proof.
  unfold getFunctions.
  repeat match goal with
         | |- context [if ?b then _ else _] => destruct b
         end; intros H; try (injection H as <-).
  - apply quiet_find_content.
  - apply quiet_create_content.
  - apply quiet_edit_content.
  - exact (quiet_inherited name f args H).
Qed.
End Executors.

Section Round.
Context {rt : Runtime}.
Context (funcs : str -> option (JsonValue -> M FunctionResult)).

(** [run_tool_call], case by case. *)
Lemma run_tool_call_cases (tc : ToolCall) (st : RoundState) (w : World) :
  run_tool_call funcs tc st w
  = match JSON_parse (or_default (Some (tc_arguments tc)) (lit "{}")) with
    | None => (Threw (JsError (syntax_error (tc_arguments tc))), w)
    | Some args =>
        let key := tc_name tc ++ lit "|" ++ JSON_stringify args in
        match roundMemo st !! key with
        | Some cached =>
            (Returned
               (push_result
                  (tool_message (tc_id tc) (memo_name cached) (memo_content cached))
                  st), w)
        | None =>
            match funcs (tc_name tc) with
            | None =>
                (Returned
                   (push_result
                      (tool_message (tc_id tc) (tc_name tc)
                         (stringify_error (lit "Unsupported tool: " ++ tc_name tc)))
                      st), w)
            | Some f =>
                match f args w with
                | (Returned result, w1) =>
                    (Returned
                       {| toolResults := toolResults st ++ [executed_message tc result];
                          roundMemo :=
                            <[key := {| memo_name := tc_name tc;
                                        memo_content := stringify_result result |}]>
                              (roundMemo st);
                          executedToolResults :=
                            executedToolResults st
                            ++ [{| er_name := tc_name tc; er_result := result |}] |},
                     log_invoked key (tc_name tc) (Some result) w1)
                | (Threw e, w1) =>
                    (Returned (push_result (error_message tc e) st),
                     log_invoked key (tc_name tc) None w1)
                end
            end
        end
    end.
Proof.
  unfold run_tool_call.
  destruct (JSON_parse _) as [args|]; [|reflexivity]. simpl.
  unfold try_catch, bind, ret, modify.
  destruct (roundMemo st !! _) as [cached|]; [reflexivity|].
  destruct (funcs (tc_name tc)) as [f|]; [|reflexivity].
  destruct (f args w) as [[result|e] w1]; reflexivity.
Qed.

Lemma times_invoked_log (key key' name : str) (r : option FunctionResult)
    (w : World) :
  times_invoked key (log_invoked key' name r w)
  = (times_invoked key w + if str_eqb key key' then 1 else 0)%nat.
Proof.
  unfold times_invoked, log_invoked. simpl.
  rewrite List.filter_app, length_app. simpl.
  destruct (str_eqb key key'); reflexivity.
Qed.

Hypothesis funcs_quiet :
  forall name f args, funcs name = Some f -> quiet (f args).

(** A key that is in the memo stays there with its entry, and the
    executor is not called under it again. *)
Lemma memo_kept (key : str) (e : MemoEntry) (tc : ToolCall)
    (st st' : RoundState) (w w' : World) :
  roundMemo st !! key = Some e ->
  run_tool_call funcs tc st w = (Returned st', w') ->
  roundMemo st' !! key = Some e /\ times_invoked key w' = times_invoked key w.
Proof using funcs_quiet.
  intros Hkey. rewrite run_tool_call_cases.
  destruct (JSON_parse _) as [args|]; [|discriminate]. cbv zeta.
  set (k := tc_name tc ++ lit "|" ++ JSON_stringify args).
  destruct (roundMemo st !! k) as [cached|] eqn:Hk.
  { intros H. injection H as <- <-. split; [exact Hkey | reflexivity]. }
  assert (Hne : key <> k) by (intros ->; congruence).
  destruct (funcs (tc_name tc)) as [f|] eqn:Hf.
  2:{ intros H. injection H as <- <-. split; [exact Hkey | reflexivity]. }
  destruct (funcs_quiet _ _ args Hf w) as [_ Hinv].
  destruct (f args w) as [[result|err] w1]; cbn [snd] in Hinv;
    intros H; injection H as <- <-; unfold push_result; cbn [roundMemo];
    rewrite times_invoked_log, (str_eqb_neq _ _ Hne), Nat.add_0_r;
    unfold times_invoked; rewrite Hinv.
  - split; [|reflexivity]. rewrite lookup_insert_ne; [exact Hkey | congruence].
  - split; [exact Hkey | reflexivity].
Qed.

Lemma memo_kept_calls (key : str) (e : MemoEntry) (tcs : list ToolCall) :
  forall (st st' : RoundState) (w w' : World),
    roundMemo st !! key = Some e ->
    run_tool_calls funcs tcs st w = (Returned st', w') ->
    roundMemo st' !! key = Some e /\ times_invoked key w' = times_invoked key w.
Proof using funcs_quiet.
  induction tcs as [|tc tcs IH]; intros st st' w w' Hkey; simpl.
  - unfold ret. intros H. injection H as <- <-. split; [exact Hkey | reflexivity].
  - unfold bind.
    destruct (run_tool_call funcs tc st w) as [[st1|err] w1] eqn:H1; [|discriminate].
    destruct (memo_kept _ _ _ _ _ _ _ Hkey H1) as [Hk1 Hn1].
    intros H. destruct (IH _ _ _ _ Hk1 H) as [Hk2 Hn2].
    split; [exact Hk2 | congruence].
Qed.

(** A call never takes an executor call back, and a key comes into the
    memo only by a call of the executor under it. *)
Lemma memo_filled (key : str) (tc : ToolCall) (st st' : RoundState)
    (w w' : World) :
  roundMemo st !! key = None ->
  run_tool_call funcs tc st w = (Returned st', w') ->
  (times_invoked key w <= times_invoked key w')%nat
  /\ (is_Some (roundMemo st' !! key) ->
      (S (times_invoked key w) <= times_invoked key w')%nat).
Proof using funcs_quiet.
  intros Hkey. rewrite run_tool_call_cases.
  destruct (JSON_parse _) as [args|]; [|discriminate]. cbv zeta.
  set (k := tc_name tc ++ lit "|" ++ JSON_stringify args).
  destruct (roundMemo st !! k) as [cached|] eqn:Hk.
  { intros H. injection H as <- <-. unfold push_result. cbn [roundMemo].
    rewrite Hkey. split; [lia | intros [x Hx]; discriminate]. }
  destruct (funcs (tc_name tc)) as [f|] eqn:Hf.
  2:{ intros H. injection H as <- <-. unfold push_result. cbn [roundMemo].
      rewrite Hkey. split; [lia | intros [x Hx]; discriminate]. }
  destruct (funcs_quiet _ _ args Hf w) as [_ Hinv].
  destruct (f args w) as [[result|err] w1]; cbn [snd] in Hinv;
    intros H; injection H as <- <-; unfold push_result; cbn [roundMemo];
    rewrite times_invoked_log;
    replace (times_invoked key w1) with (times_invoked key w)
      by (unfold times_invoked; rewrite Hinv; reflexivity).
  - split; [lia|]. destruct (decide (key = k)) as [->|Hne].
    + rewrite str_eqb_refl. lia.
    + rewrite lookup_insert_ne by congruence. rewrite Hkey.
      intros [x Hx]; discriminate.
  - rewrite Hkey. split; [lia | intros [x Hx]; discriminate].
Qed.

Lemma memo_filled_calls (key : str) (tcs : list ToolCall) :
  forall (st st' : RoundState) (w w' : World),
    roundMemo st !! key = None ->
    run_tool_calls funcs tcs st w = (Returned st', w') ->
    (times_invoked key w <= times_invoked key w')%nat
    /\ (is_Some (roundMemo st' !! key) ->
        (S (times_invoked key w) <= times_invoked key w')%nat).
Proof using funcs_quiet.
  induction tcs as [|tc tcs IH]; intros st st' w w' Hkey; simpl.
  - unfold ret. intros H. injection H as <- <-. rewrite Hkey.
    split; [lia | intros [x Hx]; discriminate].
  - unfold bind.
    destruct (run_tool_call funcs tc st w) as [[st1|err] w1] eqn:H1; [|discriminate].
    destruct (memo_filled _ _ _ _ _ _ Hkey H1) as [Hle Hin].
    intros H. destruct (roundMemo st1 !! key) as [e|] eqn:Hk1.
    + destruct (memo_kept_calls _ _ _ _ _ _ _ Hk1 H) as [Hk2 Hn2].
      specialize (Hin (ex_intro _ e eq_refl)). split; intros; lia.
    + destruct (IH _ _ _ _ Hk1 H) as [Hle2 Hin2].
      split; [lia|]. intros Hs. specialize (Hin2 Hs). lia.
Qed.

(** [executedToolResults] grows by the results of the executor calls
    that returned, and by nothing else. *)
Lemma run_tool_call_executed (tc : ToolCall) (st st' : RoundState)
    (w w' : World) :
  run_tool_call funcs tc st w = (Returned st', w') ->
  exists new,
    invoked w' = invoked w ++ new
    /\ executedToolResults st'
       = executedToolResults st ++ returned_results new.
Proof using funcs_quiet.
  rewrite run_tool_call_cases.
  destruct (JSON_parse _) as [args|]; [|discriminate]. cbv zeta.
  destruct (roundMemo st !! _) as [cached|].
  { intros H. injection H as <- <-. exists []. rewrite !app_nil_r.
    split; reflexivity. }
  destruct (funcs (tc_name tc)) as [f|] eqn:Hf.
  2:{ intros H. injection H as <- <-. exists []. rewrite !app_nil_r.
      split; reflexivity. }
  destruct (funcs_quiet _ _ args Hf w) as [_ Hinv].
  destruct (f args w) as [[result|err] w1]; cbn [snd] in Hinv;
    intros H; injection H as <- <-; eexists; cbn [invoked log_invoked];
    rewrite Hinv; (split; [reflexivity|]).
  - reflexivity.
  - cbn. rewrite app_nil_r. reflexivity.
Qed.

Lemma returned_results_app (a b : list Invocation) :
  returned_results (a ++ b) = returned_results a ++ returned_results b.
Proof. unfold returned_results. apply omap_app. Qed.

Lemma run_tool_calls_executed (tcs : list ToolCall) :
  forall (st st' : RoundState) (w w' : World),
    run_tool_calls funcs tcs st w = (Returned st', w') ->
    exists new,
      invoked w' = invoked w ++ new
      /\ executedToolResults st'
         = executedToolResults st ++ returned_results new.
Proof using funcs_quiet.
  induction tcs as [|tc tcs IH]; intros st st' w w'; simpl.
  - unfold ret. intros H. injection H as <- <-. exists [].
    rewrite !app_nil_r. split; reflexivity.
  - unfold bind.
    destruct (run_tool_call funcs tc st w) as [[st1|err] w1] eqn:H1; [|discriminate].
    destruct (run_tool_call_executed _ _ _ _ _ H1) as [n1 [Hi1 He1]].
    intros H. destruct (IH _ _ _ _ H) as [n2 [Hi2 He2]].
    exists (n1 ++ n2). rewrite Hi2, Hi1, He2, He1, returned_results_app, !app_assoc.
    split; reflexivity.
Qed.

(** The ghost record only grows, whatever the round does. *)
Lemma run_tool_calls_invoked (tcs : list ToolCall) :
  forall (st : RoundState) (w : World),
    exists new, invoked (snd (run_tool_calls funcs tcs st w)) = invoked w ++ new.
Proof using funcs_quiet.
  induction tcs as [|tc tcs IH]; intros st w; simpl.
  - exists []. rewrite app_nil_r. reflexivity.
  - unfold bind.
    destruct (run_tool_call funcs tc st w) as [[st1|err] w1] eqn:H1.
    + destruct (run_tool_call_executed _ _ _ _ _ H1) as [n1 [Hi1 _]].
      destruct (IH st1 w1) as [n2 Hi2]. exists (n1 ++ n2).
      rewrite Hi2, Hi1, app_assoc. reflexivity.
    + exists []. rewrite app_nil_r. revert H1. rewrite run_tool_call_cases.
      destruct (JSON_parse _) as [args|].
      2:{ intros H. injection H as _ <-. reflexivity. }
      cbv zeta. destruct (roundMemo st !! _); [discriminate|].
      destruct (funcs (tc_name tc)) as [f|]; [|discriminate].
      destruct (f args w) as [[result|e] w2]; discriminate.
Qed.

(** Every call of a round whose arguments parse gets its tool result:
    an executor that throws, or a tool that is not there, stops
    nothing. *)
Lemma run_tool_call_returns (tc : ToolCall) (st : RoundState) (w : World) :
  parses tc ->
  exists st' w' m,
    run_tool_call funcs tc st w = (Returned st', w')
    /\ toolResults st' = toolResults st ++ [m]
    /\ tool_call_id m = Some (tc_id tc)
    /\ lm_log w' = lm_log w.
Proof using funcs_quiet.
  intros [args Hargs]. rewrite run_tool_call_cases, Hargs. simpl.
  destruct (roundMemo st !! _) as [cached|].
  { eexists _, _, _. repeat split; reflexivity. }
  destruct (funcs (tc_name tc)) as [f|] eqn:Hf.
  2:{ eexists _, _, _. repeat split; reflexivity. }
  destruct (funcs_quiet _ _ args Hf w) as [Hlm _].
  destruct (f args w) as [[result|err] w1]; simpl in Hlm;
    eexists _, _, _; (split; [reflexivity|]); simpl;
    (split; [reflexivity|]); split; try reflexivity; exact Hlm.
Qed.

Lemma run_tool_calls_returns (tcs : list ToolCall) :
  forall (st : RoundState) (w : World),
    Forall parses tcs ->
    exists st' w',
      run_tool_calls funcs tcs st w = (Returned st', w')
      /\ length (toolResults st') = (length (toolResults st) + length tcs)%nat
      /\ lm_log w' = lm_log w.
Proof using funcs_quiet.
  induction tcs as [|tc tcs IH]; intros st w Hall; simpl.
  - exists st, w. repeat split. lia.
  - inversion Hall as [|? ? Htc Hrest]; subst.
    destruct (run_tool_call_returns tc st w Htc) as [st1 [w1 [m [H1 [Hres [_ Hlm]]]]]].
    destruct (IH st1 w1 Hrest) as [st2 [w2 [H2 [Hlen Hlm2]]]].
    exists st2, w2. unfold bind. rewrite H1, H2. repeat split.
    + rewrite Hlen, Hres, length_app. simpl. lia.
    + congruence.
Qed.

(** Whatever a round does, it asks nothing of the model, and when it
    returns it has one tool result for each call. *)
Lemma run_tool_calls_log (tcs : list ToolCall) :
  forall (st : RoundState) (w : World),
    lm_log (snd (run_tool_calls funcs tcs st w)) = lm_log w
    /\ forall st' w',
        run_tool_calls funcs tcs st w = (Returned st', w') ->
        length (toolResults st') = (length (toolResults st) + length tcs)%nat.
Proof using funcs_quiet.
  induction tcs as [|tc tcs IH]; intros st w; simpl.
  - split; [reflexivity|]. unfold ret. intros st' w' H. injection H as <- <-. lia.
  - unfold bind. rewrite run_tool_call_cases.
    destruct (JSON_parse _) as [args|]; [|split; [reflexivity | discriminate]].
    simpl.
    assert (Hstep : forall m w1, lm_log w1 = lm_log w ->
               forall st1, toolResults st1 = toolResults st ++ [m] ->
               lm_log (snd (run_tool_calls funcs tcs st1 w1)) = lm_log w
               /\ forall st' w',
                   run_tool_calls funcs tcs st1 w1 = (Returned st', w') ->
                   length (toolResults st')
                   = (length (toolResults st) + S (length tcs))%nat).
    { intros m w1 Hw1 st1 Hst1. destruct (IH st1 w1) as [Hl Hn].
      split; [congruence|]. intros st' w' H. rewrite (Hn _ _ H), Hst1, length_app.
      simpl. lia. }
    destruct (roundMemo st !! _) as [cached|].
    { eapply Hstep; reflexivity. }
    destruct (funcs (tc_name tc)) as [f|] eqn:Hf.
    2:{ eapply Hstep; reflexivity. }
    destruct (funcs_quiet _ _ args Hf w) as [Hlm _].
    destruct (f args w) as [[result|err] w1]; simpl in Hlm;
      eapply Hstep; try reflexivity; exact Hlm.
Qed.

(** A call whose arguments do not parse ends the round, with the calls
    after it, in a throw. *)
Lemma run_tool_calls_throws (pre post : list ToolCall) (tc : ToolCall) :
  forall (st : RoundState) (w : World),
    Forall parses pre -> ~ parses tc ->
    exists w',
      run_tool_calls funcs (pre ++ tc :: post) st w
      = (Threw (JsError (syntax_error (tc_arguments tc))), w')
      /\ lm_log w' = lm_log w.
Proof using funcs_quiet.
  induction pre as [|p pre IH]; intros st w Hall Hbad; simpl.
  - exists w. unfold bind. rewrite run_tool_call_cases.
    destruct (JSON_parse _) as [args|] eqn:Hp.
    + exfalso. apply Hbad. exists args. exact Hp.
    + split; reflexivity.
  - inversion Hall as [|? ? Hp Hrest]; subst.
    destruct (run_tool_call_returns p st w Hp) as [st1 [w1 [m [H1 [_ [_ Hlm]]]]]].
    destruct (IH st1 w1 Hrest Hbad) as [w' [H2 Hlm2]].
    exists w'. unfold bind. rewrite H1, H2. split; [reflexivity | congruence].
Qed.

(** The memo of a round, for any executors that leave the ghost record
    alone: two calls with the same name and arguments, the first of
    which finds no entry under their key. *)
Lemma round_memo_for (a b : ToolCall) (mid : list ToolCall)
    (args : JsonValue) (f : JsonValue -> M FunctionResult)
    (st st2 : RoundState) (w w2 : World) :
  let key := tc_name a ++ lit "|" ++ JSON_stringify args in
  tc_name a = tc_name b ->
  tc_arguments a = tc_arguments b ->
  JSON_parse (or_default (Some (tc_arguments a)) (lit "{}")) = Some args ->
  funcs (tc_name a) = Some f ->
  roundMemo st !! key = None ->
  run_tool_calls funcs (a :: mid) st w = (Returned st2, w2) ->
  (forall result w',
      f args w = (Returned result, w') ->
      run_tool_call funcs b st2 w2
      = (Returned
           (push_result
              (tool_message (tc_id b) (tc_name a) (stringify_result result))
              st2), w2)
      /\ times_invoked key w2 = S (times_invoked key w))
  /\ (forall e w',
        f args w = (Threw e, w') ->
        exists st3 w3,
          run_tool_call funcs b st2 w2 = (Returned st3, w3)
          /\ (2 + times_invoked key w <= times_invoked key w3)%nat
          /\ (mid = [] ->
              st2 = push_result (error_message a e) st
              /\ roundMemo st2 = roundMemo st
              /\ times_invoked key w3 = (2 + times_invoked key w)%nat)).
Proof using funcs_quiet.
  intros key Hname Hargs Hparse Hf Hmemo. cbn [run_tool_calls]. unfold bind.
  assert (Hb : forall st' w',
             run_tool_call funcs b st' w'
             = match roundMemo st' !! key with
               | Some cached =>
                   (Returned
                      (push_result
                         (tool_message (tc_id b) (memo_name cached)
                            (memo_content cached)) st'), w')
               | None =>
                   match f args w' with
                   | (Returned result, w1) =>
                       (Returned
                          {| toolResults :=
                               toolResults st' ++ [executed_message b result];
                             roundMemo :=
                               <[key := {| memo_name := tc_name b;
                                           memo_content := stringify_result result |}]>
                                 (roundMemo st');
                             executedToolResults :=
                               executedToolResults st'
                               ++ [{| er_name := tc_name b; er_result := result |}] |},
                        log_invoked key (tc_name b) (Some result) w1)
                   | (Threw e, w1) =>
                       (Returned (push_result (error_message b e) st'),
                        log_invoked key (tc_name b) None w1)
                   end
               end).
  { intros st' w'. rewrite run_tool_call_cases, <- Hargs, Hparse. cbv zeta.
    rewrite <- Hname. fold key. rewrite Hf. reflexivity. }
  rewrite run_tool_call_cases, Hparse. cbv zeta. fold key. rewrite Hmemo, Hf.
  destruct (funcs_quiet _ _ args Hf w) as [_ Hinv].
  destruct (f args w) as [[result|e] w1] eqn:Hfw; cbn [snd] in Hinv; intros Hmid.
  - split; [|intros e w' H; discriminate].
    intros result' w' H. injection H as <- <-.
    match type of Hmid with
    | run_tool_calls _ _ ?s1 ?x1 = _ =>
        assert (Hk1 : roundMemo s1 !! key
                      = Some {| memo_name := tc_name a;
                                memo_content := stringify_result result |})
          by (cbn [roundMemo]; apply lookup_insert_eq);
        destruct (memo_kept_calls _ _ _ _ _ _ _ Hk1 Hmid) as [Hk2 Hn2]
    end.
    rewrite Hb, Hk2. split; [reflexivity|].
    rewrite Hn2, times_invoked_log, str_eqb_refl.
    unfold times_invoked. rewrite Hinv. lia.
  - split; [intros result w' H; discriminate|].
    intros e' w' H. injection H as <- <-.
    match type of Hmid with
    | run_tool_calls _ _ ?s1 ?x1 = _ =>
        assert (Hk1 : roundMemo s1 !! key = None) by exact Hmemo;
        destruct (memo_filled_calls _ _ _ _ _ _ Hk1 Hmid) as [Hle Hin];
        assert (H1 : times_invoked key x1 = S (times_invoked key w))
          by (rewrite times_invoked_log, str_eqb_refl;
              unfold times_invoked; rewrite Hinv; lia)
    end.
    assert (Hstep : forall st' w',
               roundMemo st' !! key = None ->
               exists st3 w3,
                 run_tool_call funcs b st' w' = (Returned st3, w3)
                 /\ times_invoked key w3 = S (times_invoked key w')).
    { intros st' w' Hnone. rewrite Hb, Hnone.
      destruct (funcs_quiet _ _ args Hf w') as [_ Hinv'].
      destruct (f args w') as [[r|e'] w''] eqn:Hfw'; cbn [snd] in Hinv';
        eexists _, _; (split; [reflexivity|]);
        rewrite times_invoked_log, str_eqb_refl;
        unfold times_invoked; rewrite Hinv'; lia. }
    destruct (roundMemo st2 !! key) as [cached|] eqn:Hk2.
    + specialize (Hin (ex_intro _ cached eq_refl)).
      eexists _, w2. rewrite Hb, Hk2. split; [reflexivity|]. split; [lia|].
      intros ->. cbn [run_tool_calls] in Hmid. unfold ret in Hmid.
      injection Hmid as <- <-. cbn [push_result roundMemo] in Hk2. congruence.
    + destruct (Hstep st2 w2 Hk2) as [st3 [w3 [Hrun Hcount]]].
      exists st3, w3. split; [exact Hrun|]. split; [lia|].
      intros ->. cbn [run_tool_calls] in Hmid. unfold ret in Hmid.
      injection Hmid as <- <-. split_and!; [reflexivity | reflexivity | lia].
Qed.
End Round.

#[local] Existing Instance rt0.

(** C2: the code does this only for a call whose executor returned.
    Take two tool calls of one round with the same tool name and the same
    argument text, the first of which finds nothing in the memo under
    their key.  When the executor returns for the first, its result is
    memoized: the second is answered from the memo with the name and the
    content of the first, nothing else happens in the world, and the
    executor has been called exactly once under their key.  When the
    executor throws for the first, nothing is memoized: by the time the
    second call is answered the executor has been called at least twice
    under their key, and exactly twice when the second call follows the
    first at once. *)
Theorem round_memo {rt : Runtime} (env : Env) (userToken : option str)
    (a b : ToolCall) (mid : list ToolCall) (args : JsonValue)
    (f : JsonValue -> M FunctionResult)
    (st st2 : RoundState) (w w2 : World) :
  let funcs := getFunctions env userToken in
  let key := tc_name a ++ lit "|" ++ JSON_stringify args in
  tc_name a = tc_name b ->
  tc_arguments a = tc_arguments b ->
  JSON_parse (or_default (Some (tc_arguments a)) (lit "{}")) = Some args ->
  funcs (tc_name a) = Some f ->
  roundMemo st !! key = None ->
  run_tool_calls funcs (a :: mid) st w = (Returned st2, w2) ->
  (forall result w',
      f args w = (Returned result, w') ->
      run_tool_call funcs b st2 w2
      = (Returned
           (push_result
              (tool_message (tc_id b) (tc_name a) (stringify_result result))
              st2), w2)
      /\ times_invoked key w2 = S (times_invoked key w))
  /\ (forall e w',
        f args w = (Threw e, w') ->
        exists st3 w3,
          run_tool_call funcs b st2 w2 = (Returned st3, w3)
          /\ (2 + times_invoked key w <= times_invoked key w3)%nat
          /\ (mid = [] ->
              st2 = push_result (error_message a e) st
              /\ roundMemo st2 = roundMemo st
              /\ times_invoked key w3 = (2 + times_invoked key w)%nat)).
Proof.
  intros funcs key. apply round_memo_for.
  intros name f0 args0 Hf. exact (quiet_getFunctions env userToken name f0 args0 Hf).
Qed.

(** The same confirmed creation asked twice in one round, with a backend
    that refuses: the executor is called twice and the write is sent
    twice. *)
Lemma refused_call_runs_twice :
  let out :=
    run_tool_calls (getFunctions env_create_down (Some (lit "u-1")))
      twice_create (new_round []) world0 in
  (exists st, fst out = Returned st)
  /\ times_invoked (lit "create_content|" ++ create_text) (snd out) = 2%nat
  /\ length (writes (snd out)) = 2%nat.
Proof.
  vm_compute. split; [eexists; reflexivity | split; reflexivity].
Qed.

(** Names that are no tools: what [funcs] inherits is called, and its
    value or its error is the tool result; a name [funcs] has nothing
    under is refused.  Nothing is asked of the backend. *)
Example inherited_members_are_called :
  let out :=
    run_tool_calls (getFunctions env_search (Some (lit "u-1"))) odd_calls
      (new_round []) world0 in
  (exists st,
      fst out = Returned st
      /\ List.map content (toolResults st)
         = [Some (quoted (lit "[object Undefined]"));
            Some find_text;
            Some (error_payload "Cannot convert undefined or null to object");
            Some (error_payload "Unsupported tool: delete_content")])
  /\ backend_log (snd out) = [].
Proof.
  vm_compute. split; [eexists; split; reflexivity | reflexivity].
Qed.

Lemma round_memo_witness :
  let funcs := getFunctions env_create_down (Some (lit "u-1")) in
  let key := lit "create_content|" ++ create_text in
  exists st3 w3,
    run_tool_call funcs (call "call_2" "create_content" create_text)
      after_refused_create (snd refused_create) = (Returned st3, w3)
    /\ times_invoked key w3 = 2%nat.
Proof.
  intros funcs key.
  assert (Hrun : run_tool_calls funcs
                   [call "call_1" "create_content" create_text]
                   (new_round []) world0
                 = (Returned after_refused_create, snd refused_create))
    by (vm_compute; reflexivity).
  assert (Hparse : JSON_parse (or_default (Some create_text) (lit "{}"))
                   = Some (create_json (Some (JsonBool true))))
    by (vm_compute; reflexivity).
  destruct (round_memo env_create_down (Some (lit "u-1"))
              (call "call_1" "create_content" create_text)
              (call "call_2" "create_content" create_text) []
              (create_json (Some (JsonBool true)))
              (fun j => create_content env_create_down (Some (lit "u-1")) (as_args j))
              (new_round []) after_refused_create world0 (snd refused_create)
              eq_refl eq_refl Hparse eq_refl eq_refl Hrun) as [_ Hthrew].
  destruct (Hthrew
              (JsError (lit "API request failed: 503 - Service Unavailable"))
              (log_backend
                 (CreatePost
                    {| cpp_title := lit "Bike lanes"; cpp_post_type := lit "idea";
                       cpp_body := lit "<p>Safer streets</p>";
                       cpp_subject_id := None; cpp_problem_id := None |}
                    (Some (lit "u-1"))) world0))
    as [st3 [w3 [Hb [_ Hexact]]]].
  { vm_compute. reflexivity. }
  exists st3, w3. split; [exact Hb|].
  destruct (Hexact eq_refl) as [_ [_ Hcount]]. exact Hcount.
Defined.

End RoundProofs.

(** ** Placeholder links *)

Module LinkProofs.
Import StringProofs.

(** What the expression matched: a bracket, a label without closing
    bracket, and the placeholder target. *)
Lemma placeholder_at_Some (s label : str) (n : nat) :
  placeholder_at s = Some (label, n) ->
  exists after,
    s = render (Placeholder label) ++ after
    /\ n = length (render (Placeholder label))
    /\ label <> []
    /\ forallb not_rbracket label = true.
Proof.
  unfold placeholder_at.
  destruct (strip_prefix [91] s) as [rest|] eqn:Hs; [|discriminate].
  apply strip_prefix_Some in Hs.
  pose proof (span_app not_rbracket rest) as Happ.
  pose proof (span_all not_rbracket rest) as Hall.
  destruct (span not_rbracket rest) as [lab after]. simpl in Happ, Hall.
  destruct lab as [|l0 lab]; [discriminate|].
  destruct (strip_prefix (lit "](#)") after) as [r|] eqn:Ha; [|discriminate].
  apply strip_prefix_Some in Ha.
  intros H. injection H as <- <-.
  exists r. split_and!.
  - rewrite Hs, <- Happ, Ha. unfold render.
    rewrite <- !app_assoc. reflexivity.
  - unfold render. rewrite !length_app. cbn [length]. change (length (lit "[")) with 1%nat.
    change (length (lit "](#)")) with 4%nat. lia.
  - discriminate.
  - exact Hall.
Qed.

Lemma skipn_render (label after : str) :
  skipn (length (render (Placeholder label))) (render (Placeholder label) ++ after)
  = after.
Proof. rewrite skipn_app, skipn_all, Nat.sub_diag. reflexivity. Qed.

Lemma firstn_render (label after : str) :
  firstn (length (render (Placeholder label))) (render (Placeholder label) ++ after)
  = render (Placeholder label).
Proof. rewrite firstn_app, firstn_all, Nat.sub_diag, app_nil_r. reflexivity. Qed.

Lemma render_length (label : str) :
  length (render (Placeholder label)) = S (length label + 4).
Proof. unfold render. rewrite !length_app. reflexivity. Qed.

(** The pieces of a text are the text. *)
Lemma pieces_from_text (s : str) :
  forall k, concat (List.map render (pieces_from k s)) = skipn k s.
Proof.
  induction s as [|c s IH]; intros k.
  - destruct k; reflexivity.
  - destruct k as [|k]; [|apply IH]. cbn [pieces_from skipn].
    destruct (placeholder_at (c :: s)) as [[label n]|] eqn:Hp.
    + destruct (placeholder_at_Some _ _ _ Hp) as [after [Hs [Hn _]]].
      cbn [List.map concat]. rewrite IH.
      etransitivity; [|symmetry; exact Hs]. f_equal.
      rewrite render_length in Hn. subst n. cbn [Nat.pred].
      change (skipn (S (length label + 4)) (c :: s) = after).
      rewrite Hs, <- render_length. apply skipn_render.
    + cbn [List.map concat render]. rewrite IH. reflexivity.
Qed.

(** Past the last link nothing is filled, whatever the index. *)
Lemma fill_out_of_links (links : list str) (ps : list Piece) :
  forall i, (length links <= i)%nat ->
  fill links i ps = concat (List.map render ps).
Proof.
  induction ps as [|p ps IH]; intros i Hi; [reflexivity|].
  destruct p as [c|label]; cbn [fill List.map concat].
  - rewrite IH by exact Hi. reflexivity.
  - destruct (nth_error links i) eqn:Hn.
    + assert (nth_error links i <> None) as Hlt by congruence.
      apply nth_error_Some in Hlt. lia.
    + rewrite IH by lia. reflexivity.
Qed.

Lemma replace_links_out_of_links (links : list str) (s : str) :
  forall i k, (length links <= i)%nat ->
  replace_links links i k s = skipn k s.
Proof.
  induction s as [|c s IH]; intros i k Hi.
  - destruct k; reflexivity.
  - destruct k as [|k]; [|apply IH; exact Hi]. cbn [replace_links skipn].
    destruct (placeholder_at (c :: s)) as [[label n]|] eqn:Hp.
    + destruct (placeholder_at_Some _ _ _ Hp) as [after [Hs [Hn _]]].
      destruct (nth_error links i) eqn:Hl.
      { assert (nth_error links i <> None) as Hlt by congruence.
        apply nth_error_Some in Hlt. lia. }
      rewrite IH by exact Hi.
      rewrite render_length in Hn. subst n. cbn [Nat.pred].
      change (firstn (S (length label + 4)) (c :: s)
              ++ skipn (S (length label + 4)) (c :: s) = c :: s).
      apply firstn_skipn.
    + rewrite IH by exact Hi. reflexivity.
Qed.

(** The callback with its counter is the filling by position. *)
Lemma replace_links_fill (links : list str) (s : str) :
  forall i k, replace_links links i k s = fill links i (pieces_from k s).
Proof.
  induction s as [|c s IH]; intros i k.
  - destruct k; reflexivity.
  - destruct k as [|k]; [|apply IH]. cbn [replace_links pieces_from].
    destruct (placeholder_at (c :: s)) as [[label n]|] eqn:Hp.
    + destruct (placeholder_at_Some _ _ _ Hp) as [after [Hs [Hn _]]].
      cbn [fill]. destruct (nth_error links i) eqn:Hl.
      * rewrite IH. reflexivity.
      * apply nth_error_None in Hl.
        rewrite replace_links_out_of_links by exact Hl.
        rewrite fill_out_of_links by lia.
        rewrite pieces_from_text. f_equal.
        rewrite Hn, Hs. apply firstn_render.
    + cbn [fill]. rewrite IH. reflexivity.
Qed.

(** The filling by position, for the links the code collects. *)
Lemma replace_by_position (text : str) (toolResults : list ExecutedToolResult) :
  replacePlaceholderLinksWithToolUrls text toolResults
  = fill (collect_links toolResults) 0 (pieces text).
Proof.
  unfold replacePlaceholderLinksWithToolUrls.
  destruct text as [|c t]; [reflexivity|].
  destruct (collect_links toolResults) as [|l ls] eqn:Hl.
  - rewrite fill_out_of_links by (simpl; lia).
    unfold pieces. rewrite pieces_from_text. reflexivity.
  - apply replace_links_fill.
Qed.

(** *** What is collected *)

Lemma trimStart_nil (s : str) :
  trimStart s = [] <-> forallb is_white_space s = true.
Proof.
  induction s as [|c s IH]; simpl; [tauto|].
  destruct (is_white_space c); simpl; [exact IH|].
  split; discriminate.
Qed.

Lemma trimStart_first (s : str) (c : N) (r : str) :
  trimStart s = c :: r -> is_white_space c = false.
Proof.
  induction s as [|d s IH]; simpl; [discriminate|].
  destruct (is_white_space d) eqn:Hd; [exact IH|].
  intros H. injection H as <- _. exact Hd.
Qed.

Lemma forallb_rev (f : N -> bool) (s : str) :
  forallb f (rev s) = forallb f s.
Proof.
  induction s as [|c s IH]; [reflexivity|].
  cbn [rev]. rewrite List.forallb_app, IH. cbn [forallb].
  rewrite andb_true_r. apply andb_comm.
Qed.

(** [link.trim().length > 0] asks for a character that is no white
    space. *)
Lemma trim_not_blank (link : str) :
  trim link = [] <-> not_blank link = false.
Proof.
  unfold not_blank, trim, trimEnd.
  assert (Hex : existsb (fun c => negb (is_white_space c)) link
                = negb (forallb is_white_space link)).
  { induction link as [|c l IH]; [reflexivity|]. simpl. rewrite IH.
    destruct (is_white_space c); reflexivity. }
  rewrite Hex, negb_false_iff, trimStart_nil, forallb_rev.
  destruct (trimStart (rev link)) as [|c r] eqn:Ht.
  - apply trimStart_nil in Ht. rewrite forallb_rev in Ht. simpl. tauto.
  - apply trimStart_first in Ht as Hc.
    assert (Hrev : forallb is_white_space link = false).
    { rewrite <- (forallb_rev _ link).
      destruct (forallb is_white_space (rev link)) eqn:Hall; [|reflexivity].
      apply trimStart_nil in Hall. congruence. }
    rewrite Hrev. cbn [forallb]. rewrite Hc. split; discriminate.
Qed.

Lemma usable_links (items : list Item) :
  omap usable_link items = item_links items.
Proof.
  induction items as [|i items IH]; [reflexivity|].
  cbn [omap list_omap item_links]. unfold usable_link at 1.
  destruct (item_link i) as [l|]; [|exact IH].
  destruct (not_blank l) eqn:Hb.
  - destruct (trim l) eqn:Ht.
    + apply trim_not_blank in Ht. congruence.
    + cbn. rewrite IH. reflexivity.
  - apply trim_not_blank in Hb. rewrite Hb. exact IH.
Qed.

(** The links the code collects are the links of the searches, in the
    order of their execution and of their items. *)
Lemma collect_links_search_links (results : list ExecutedToolResult) :
  collect_links results = search_links results.
Proof.
  unfold collect_links. induction results as [|r rs IH]; [reflexivity|].
  cbn [List.filter search_links].
  destruct (str_eqb (er_name r) (lit "find_content")).
  - cbn [flat_map]. rewrite IH.
    destruct (er_result r); try reflexivity. rewrite usable_links. reflexivity.
  - rewrite IH. destruct (er_result r); reflexivity.
Qed.

(** *** What a placeholder link is *)

Lemma span_label (label after : str) :
  forallb not_rbracket label = true ->
  span not_rbracket (label ++ 93 :: after) = (label, 93 :: after).
Proof.
  induction label as [|c l IH]; intros H; [reflexivity|].
  simpl in H. apply andb_true_iff in H as [Hc Hl].
  cbn [app span]. rewrite Hc, (IH Hl). reflexivity.
Qed.

(** The expression matches at the start of a text exactly when the text
    starts with a bracket, a label that is not empty and has no closing
    bracket in it, and the target [(#)]. *)
Lemma placeholder_at_iff (s label : str) (n : nat) :
  placeholder_at s = Some (label, n)
  <-> (label <> []
       /\ Forall (fun c => c <> 93) label
       /\ n = length (render (Placeholder label))
       /\ exists after, s = render (Placeholder label) ++ after).
Proof.
  split.
  - intros H. destruct (placeholder_at_Some _ _ _ H) as [after [Hs [Hn [Hl Hall]]]].
    split_and!; [exact Hl | | exact Hn | exists after; exact Hs].
    apply List.Forall_forall. intros c Hc.
    rewrite forallb_forall in Hall. specialize (Hall c Hc).
    unfold not_rbracket in Hall. intros ->. discriminate.
  - intros [Hl [Hall [-> [after ->]]]].
    assert (Hb : forallb not_rbracket label = true).
    { apply forallb_forall. intros c Hc. rewrite List.Forall_forall in Hall.
      specialize (Hall c Hc). unfold not_rbracket.
      destruct (N.eqb_spec c 93); [contradiction | reflexivity]. }
    unfold placeholder_at, render.
    change (lit "[") with [91]. cbn [app strip_prefix].
    rewrite N.eqb_refl. rewrite <- !app_assoc.
    change (lit "](#)") with [93; 40; 35; 41]. cbn [app].
    rewrite (span_label label _ Hb).
    destruct label as [|c l]; [congruence|].
    cbn [strip_prefix]. rewrite !N.eqb_refl.
    do 2 f_equal. cbn [length]. rewrite length_app. cbn [length]. lia.
Qed.

(** One placeholder link and one search result with a link. *)
Example one_placeholder_one_link :
  replacePlaceholderLinksWithToolUrls (lit "See [Bike lane map](#).")
    [{| er_name := lit "find_content";
        er_result :=
          FindContentResult
            [{| item_title := lit "Bike lane map"; item_type := lit "idea";
                item_id := Some (lit "9");
                item_link := Some (lit "https://needpedia.org/posts/9") |}] |}]
  = lit "See [Bike lane map](https://needpedia.org/posts/9).".
Proof. vm_compute. reflexivity. Qed.

(** Two placeholder links and one link: the second stays. *)
Example more_placeholders_than_links :
  replacePlaceholderLinksWithToolUrls (lit "[a](#) and [b](#)")
    [{| er_name := lit "find_content";
        er_result :=
          FindContentResult
            [{| item_title := lit "a"; item_type := lit "idea";
                item_id := None;
                item_link := Some (lit "https://needpedia.org/posts/1") |};
             {| item_title := lit "b"; item_type := lit "idea";
                item_id := None; item_link := Some (lit "  ") |}] |};
     {| er_name := lit "create_content"; er_result := PostResult None |}]
  = lit "[a](https://needpedia.org/posts/1) and [b](#)".
Proof. vm_compute. reflexivity. Qed.

End LinkProofs.

(** ** The rich-text helpers *)

Module RichTextProofs.
Import StringProofs.

(** *** The helpers at work *)

(** A heading, a list item with bold text, a blank line and a paragraph
    with an address. *)
Example toRichHtml_markdown :
  toRichHtml
    (lit "# Title" ++ [10] ++ lit "- a **b** c" ++ [10] ++ [10]
     ++ lit "see https://a.b/c) ok")
  = lit "<h1>Title</h1>" ++ [10] ++ lit "<ul>" ++ [10]
    ++ lit "<li>a <strong>b</strong> c</li>" ++ [10] ++ lit "</ul>" ++ [10]
    ++ lit "<p>see " ++ anchor (lit "https://a.b/c") ++ lit ") ok</p>".
Proof. vm_compute. reflexivity. Qed.

(** The characters of HTML are escaped before the inline marks are read. *)
Example toRichHtml_escapes :
  toRichHtml (lit "* *it* <x> & y")
  = lit "<ul>" ++ [10] ++ lit "<li><em>it</em> &lt;x&gt; &amp; y</li>" ++ [10]
    ++ lit "</ul>".
Proof. vm_compute. reflexivity. Qed.

(** Block tags in any case become line breaks, other tags go, entities
    are read one replacement after the other. *)
Example htmlToPlainText_blocks :
  htmlToPlainText
    (lit "<P class='x'>a</p ><pre>b< / DIV >c<BR/>d<br >e<h7>f</h1><hr>g<>h&amp;lt;")
  = lit "a" ++ [10; 10] ++ lit "b" ++ [10] ++ lit "c" ++ [10] ++ lit "d" ++ [10]
    ++ lit "ef" ++ [10] ++ lit "g<>h<".
Proof. vm_compute. reflexivity. Qed.

(** *** Trimming *)

Lemma trimStart_suffix (s : str) :
  exists d, s = d ++ trimStart s /\ forallb is_white_space d = true.
Proof.
  induction s as [|c s [d [Hs Hd]]]; [exists []; split; reflexivity|].
  cbn [trimStart]. destruct (is_white_space c) eqn:Hc.
  - exists (c :: d). cbn [forallb app]. rewrite Hc, Hd, <- Hs. split; reflexivity.
  - exists []. split; reflexivity.
Qed.

Lemma trimStart_head (s : str) (c : N) (r : str) :
  trimStart s = c :: r -> is_white_space c = false.
Proof.
  induction s as [|d s IH]; cbn [trimStart]; [discriminate|].
  destruct (is_white_space d) eqn:Hd; [exact IH|].
  intros H. injection H as <- _. exact Hd.
Qed.

Lemma trimStart_clean (c : N) (r : str) :
  is_white_space c = false -> trimStart (c :: r) = c :: r.
Proof. intros H. cbn [trimStart]. rewrite H. reflexivity. Qed.

Lemma trimStart_idem (s : str) : trimStart (trimStart s) = trimStart s.
Proof.
  destruct (trimStart s) as [|c r] eqn:H; [reflexivity|].
  apply trimStart_clean. exact (trimStart_head _ _ _ H).
Qed.

Lemma trimStart_ws (c : N) (s : str) :
  is_white_space c = true -> trimStart (c :: s) = trimStart s.
Proof. intros H. cbn [trimStart]. rewrite H. reflexivity. Qed.

Lemma trimEnd_prefix (s : str) :
  exists t, s = trimEnd s ++ t /\ forallb is_white_space t = true.
Proof.
  unfold trimEnd. destruct (trimStart_suffix (rev s)) as [d [Hs Hd]].
  exists (rev d). split.
  - rewrite <- rev_app_distr, <- Hs, rev_involutive. reflexivity.
  - rewrite forallb_forall in *. intros x Hx. apply Hd, in_rev. exact Hx.
Qed.

Lemma trimEnd_idem (s : str) : trimEnd (trimEnd s) = trimEnd s.
Proof. unfold trimEnd. rewrite rev_involutive, trimStart_idem. reflexivity. Qed.

Lemma trimEnd_snoc (s : str) (c : N) :
  is_white_space c = true -> trimEnd (s ++ [c]) = trimEnd s.
Proof.
  intros H. unfold trimEnd. rewrite rev_app_distr. cbn [rev app].
  rewrite trimStart_ws by exact H. reflexivity.
Qed.

Lemma trimEnd_nil : trimEnd [] = [].
Proof. reflexivity. Qed.

(** A text that ends clean still does with a code unit in front. *)
Lemma trimEnd_cons (c : N) (line : str) :
  trimEnd line = line -> line <> [] -> trimEnd (c :: line) = c :: line.
Proof.
  unfold trimEnd. intros Hfix Hne.
  assert (HL : trimStart (rev line) = rev line).
  { apply (f_equal (@rev N)) in Hfix. rewrite rev_involutive in Hfix. exact Hfix. }
  cbn [rev]. destruct (rev line) as [|d L] eqn:HrL.
  { exfalso. apply Hne. apply (f_equal (@rev N)) in HrL.
    rewrite rev_involutive in HrL. exact HrL. }
  assert (Hd : is_white_space d = false) by exact (trimStart_head _ _ _ HL).
  cbn [app]. rewrite trimStart_clean by exact Hd.
  change (rev ((d :: L) ++ [c]) = c :: line).
  rewrite rev_app_distr, <- HrL, rev_involutive. reflexivity.
Qed.

Lemma trim_trimEnd (s : str) : trim (trimEnd s) = trim s.
Proof. unfold trim. rewrite trimEnd_idem. reflexivity. Qed.

(** *** Code units that are not there *)

Lemma has_app (c : N) (a b : str) : has c (a ++ b) = has c a || has c b.
Proof. unfold has. apply existsb_app. Qed.

Lemma has_cons (c d : N) (s : str) : has c (d :: s) = (c =? d) || has c s.
Proof. reflexivity. Qed.

Lemma has_trimEnd (c : N) (s : str) : has c s = false -> has c (trimEnd s) = false.
Proof.
  destruct (trimEnd_prefix s) as [t [Hs _]]. rewrite Hs at 1. rewrite has_app.
  intros H. apply orb_false_iff in H. tauto.
Qed.

Lemma has_head (c d : N) (s : str) : has c (d :: s) = false -> d <> c.
Proof.
  rewrite has_cons. intros H Heq. subst d. rewrite N.eqb_refl in H. discriminate.
Qed.

Lemma has_tail (c d : N) (s : str) : has c (d :: s) = false -> has c s = false.
Proof. rewrite has_cons. intros H. apply orb_false_iff in H. tauto. Qed.

(** An expression whose matches all start with [c] passes over a text
    without [c]. *)
Lemma replace_global_through (m : matcher) (c : N) (a b : str) :
  (forall d r, d <> c -> m (d :: r) = None) ->
  has c a = false ->
  replace_global m (a ++ b) = a ++ replace_global m b.
Proof.
  intros Hm. induction a as [|d a IH]; intros Ha; [reflexivity|].
  cbn [app]. rewrite replace_global_miss.
  - rewrite IH by exact (has_tail _ _ _ Ha). reflexivity.
  - apply Hm. exact (has_head _ _ _ Ha).
Qed.

Lemma replace_global_without (m : matcher) (c : N) (s : str) :
  (forall d r, d <> c -> m (d :: r) = None) ->
  has c s = false ->
  replace_global m s = s.
Proof.
  intros Hm Hs. rewrite <- (app_nil_r s) at 1.
  rewrite (replace_global_through m c) by assumption.
  rewrite replace_global_nil, app_nil_r. reflexivity.
Qed.

Lemma m_lit_head (a : N) (pat rep : str) (d : N) (r : str) :
  d <> a -> m_lit (a :: pat) rep (d :: r) = None.
Proof. intros H. unfold m_lit. rewrite strip_prefix_head by exact H. reflexivity. Qed.

(** *** Lines *)

Lemma split_lines_single (s : str) : has 10 s = false -> split_lines s = [s].
Proof.
  induction s as [|c s IH]; [reflexivity|]. intros H.
  cbn [split_lines]. pose proof (has_head _ _ _ H) as Hc.
  destruct (N.eqb_spec c 10); [congruence|].
  rewrite IH by exact (has_tail _ _ _ H). reflexivity.
Qed.

Lemma split_lines_newline (a b : str) :
  has 10 a = false -> split_lines (a ++ 10 :: b) = a :: split_lines b.
Proof.
  induction a as [|c a IH]; intros H.
  - reflexivity.
  - cbn [app split_lines]. pose proof (has_head _ _ _ H) as Hc.
    destruct (N.eqb_spec c 10); [congruence|].
    rewrite IH by exact (has_tail _ _ _ H). reflexivity.
Qed.

(** *** [toRichHtml] of a plain line *)

Section Plain.
Context (line : str).
Hypothesis no_amp : has 38 line = false.
Hypothesis no_lt : has 60 line = false.
Hypothesis no_gt : has 62 line = false.
Hypothesis no_star : has 42 line = false.
Hypothesis no_url : forall a b, line = a ++ b -> exists t, url_at (b ++ t) = false.

Lemma flat_map_id (f : N -> str) (s : str) :
  (forall c, In c s -> f c = [c]) -> flat_map f s = s.
Proof.
  induction s as [|c s IH]; intros H; [reflexivity|].
  cbn [flat_map]. rewrite (H c) by (left; reflexivity).
  rewrite IH; [reflexivity|]. intros d Hd. apply H. right. exact Hd.
Qed.

Lemma has_in (c : N) (s : str) : has c s = false -> forall d, In d s -> d <> c.
Proof.
  induction s as [|e s IH]; intros H d []; subst.
  - exact (has_head _ _ _ H).
  - apply IH; [exact (has_tail _ _ _ H) | assumption].
Qed.

Lemma esc_plain : esc line = line.
Proof using no_amp no_lt no_gt.
  unfold esc.
  rewrite (flat_map_id esc1 line).
  2:{ intros c Hc. unfold esc1. pose proof (has_in _ _ no_amp c Hc).
      destruct (N.eqb_spec c 38); [congruence | reflexivity]. }
  rewrite (flat_map_id esc2 line).
  2:{ intros c Hc. unfold esc2. pose proof (has_in _ _ no_lt c Hc).
      destruct (N.eqb_spec c 60); [congruence | reflexivity]. }
  apply flat_map_id.
  intros c Hc. unfold esc3. pose proof (has_in _ _ no_gt c Hc).
  destruct (N.eqb_spec c 62); [congruence | reflexivity].
Qed.

Lemma m_bold_head (d : N) (r : str) : d <> 42 -> m_bold (d :: r) = None.
Proof. intros H. unfold m_bold. rewrite strip_prefix_head by exact H. reflexivity. Qed.

Lemma m_italic_head (d : N) (r : str) : d <> 42 -> m_italic (d :: r) = None.
Proof. intros H. unfold m_italic. rewrite strip_prefix_head by exact H. reflexivity. Qed.

Lemma url_body_head (s b : str) :
  url_body s = Some b -> exists c r, s = c :: r /\ url_char c = true.
Proof.
  unfold url_body. destruct s as [|c r]; [discriminate|].
  destruct (url_char c) eqn:Hc; [|discriminate].
  intros _. exists c, r. split; [reflexivity | exact Hc].
Qed.

(** Where the link expression matches, an address starts. *)
Lemma m_link_url (b : str) (x : str * nat) (t : str) :
  m_link b = Some x -> url_at (b ++ t) = true.
Proof.
  unfold m_link.
  destruct (strip_prefix (lit "http") b) as [r|] eqn:Hb; [|discriminate].
  apply strip_prefix_Some in Hb. subst b.
  assert (Hplain : forall x,
             match strip_prefix (lit "://") r with
             | Some r'' =>
                 match url_body r'' with
                 | Some b0 =>
                     Some (anchor (firstn (4 + 3 + length b0) (lit "http" ++ r)),
                           length (firstn (4 + 3 + length b0) (lit "http" ++ r)))
                 | None => None
                 end
             | None => None
             end = Some x ->
             url_at ((lit "http" ++ r) ++ t) = true).
  { intros y. destruct (strip_prefix (lit "://") r) as [r''|] eqn:Hr; [|discriminate].
    apply strip_prefix_Some in Hr. subst r.
    destruct (url_body r'') as [b0|] eqn:Hu; [|discriminate].
    destruct (url_body_head _ _ Hu) as [c [r3 [-> Hc]]]. intros _.
    unfold url_at.
    change ((lit "http" ++ lit "://" ++ c :: r3) ++ t)
      with (lit "http://" ++ c :: (r3 ++ t)).
    rewrite strip_prefix_app. exact Hc. }
  destruct (strip_prefix [115] r) as [r'|] eqn:Hs; [|apply Hplain].
  apply strip_prefix_Some in Hs.
  destruct (strip_prefix (lit "://") r') as [r''|] eqn:Hr.
  - apply strip_prefix_Some in Hr.
    destruct (url_body r'') as [b0|] eqn:Hu.
    + destruct (url_body_head _ _ Hu) as [c [r3 [-> Hc]]]. intros _.
      subst r r'. unfold url_at.
      change ((lit "http" ++ [115] ++ lit "://" ++ c :: r3) ++ t)
        with (lit "https://" ++ c :: (r3 ++ t)).
      rewrite strip_prefix_app.
      assert (Hno : strip_prefix (lit "http://") (lit "https://" ++ c :: r3 ++ t)
                    = None) by reflexivity.
      rewrite Hno. exact Hc.
    + apply Hplain.
  - apply Hplain.
Qed.

Lemma fmtInline_plain : fmtInline line = line.
Proof using no_star no_url.
  unfold fmtInline.
  rewrite (replace_global_without m_bold 42) by (auto using m_bold_head).
  rewrite (replace_global_without m_italic 42) by (auto using m_italic_head).
  apply replace_global_none. intros a b Hab.
  destruct (m_link b) as [x|] eqn:Hm; [|reflexivity].
  destruct (no_url a b Hab) as [t Ht].
  rewrite (m_link_url b x t Hm) in Ht. discriminate.
Qed.
End Plain.

Lemma has_url_suffix (s a b : str) :
  has_url s = false -> s = a ++ b -> url_at b = false.
Proof.
  revert s. induction a as [|c a IH]; intros s Hs Hab.
  - cbn [app] in Hab. subst b. destruct s as [|c s]; [reflexivity|].
    cbn [has_url] in Hs. apply orb_false_iff in Hs. tauto.
  - subst s. cbn [app has_url] in Hs. apply orb_false_iff in Hs.
    apply (IH (a ++ b)); [tauto | reflexivity].
Qed.

(** *** The markers *)

Lemma ws_plus_dots_none (rest : str) :
  match rest with c :: _ => is_white_space c | [] => false end = false ->
  ws_plus_dots rest = None.
Proof.
  unfold ws_plus_dots. destruct rest as [|c r]; [reflexivity|].
  intros ->. reflexivity.
Qed.

Lemma marker_then_false (after : N -> bool) (line : str) :
  marker_then after line = false ->
  opens_with after (lit "#") line = false
  /\ opens_with after (lit "##") line = false
  /\ opens_with after (lit "###") line = false
  /\ opens_with after (lit "-") line = false
  /\ opens_with after (lit "*") line = false.
Proof.
  unfold marker_then. intros H.
  repeat (apply orb_false_iff in H; destruct H as [H ?]).
  split_and!; assumption.
Qed.

Lemma exec_heading_none (n : nat) (line : str) :
  opens_with is_white_space (repeat 35 n) line = false ->
  exec_heading n line = None.
Proof.
  unfold opens_with, exec_heading.
  destruct (strip_prefix (repeat 35 n) line) as [rest|]; [|reflexivity].
  intros H. apply ws_plus_dots_none. destruct rest; assumption.
Qed.

Lemma exec_li_none (line : str) :
  opens_with is_white_space (lit "-") line = false ->
  opens_with is_white_space (lit "*") line = false ->
  exec_li line = None.
Proof.
  unfold opens_with, exec_li. destruct line as [|c rest]; [reflexivity|].
  change (lit "-") with [45]. change (lit "*") with [42].
  cbn [strip_prefix]. rewrite (N.eqb_sym 45 c), (N.eqb_sym 42 c).
  destruct (c =? 45), (c =? 42); cbn [orb]; intros H1 H2;
    try reflexivity; apply ws_plus_dots_none; destruct rest; assumption.
Qed.

(** *** The round trip *)

(** A plain line becomes one paragraph. *)
Lemma toRichHtml_plain (s : str) :
  plain_line is_white_space s ->
  toRichHtml s
  = match trim s with
    | [] => []
    | _ => lit "<p>" ++ trimEnd s ++ lit "</p>"
    end.
Proof.
  intros [Hnl [Hamp [Hlt [Hgt [Hstar [Hurl Hmark]]]]]].
  unfold toRichHtml.
  rewrite (replace_global_none (m_lit [13; 10] [10]) s).
  2:{ intros a b Hab. unfold m_lit.
      destruct (strip_prefix [13; 10] b) as [r|] eqn:Hb; [|reflexivity].
      apply strip_prefix_Some in Hb. subst b s.
      rewrite has_app in Hnl. apply orb_false_iff in Hnl as [_ Hnl].
      discriminate Hnl. }
  rewrite (split_lines_single s Hnl). cbn [fold_left].
  unfold rich_line. cbn [htmlParts listBuffer].
  rewrite trim_trimEnd.
  destruct (trim s) as [|c0 t0] eqn:Htrim; [reflexivity|].
  destruct (marker_then_false _ _ Hmark) as [H1 [H2 [H3 [H4 H5]]]].
  rewrite (exec_heading_none 3) by exact H3.
  rewrite (exec_heading_none 2) by exact H2.
  rewrite (exec_heading_none 1) by exact H1.
  rewrite exec_li_none by assumption.
  unfold heading.
  rewrite esc_plain by (apply has_trimEnd; assumption).
  rewrite fmtInline_plain.
  - reflexivity.
  - apply has_trimEnd. exact Hstar.
  - intros a b Hab. destruct (trimEnd_prefix s) as [t [Hs _]].
    exists t. apply (has_url_suffix s a (b ++ t) Hurl).
    rewrite Hs at 1. rewrite Hab, <- app_assoc. reflexivity.
Qed.

Lemma m_br_head (d : N) (r : str) : d <> 60 -> m_br (d :: r) = None.
Proof. intros H. unfold m_br. rewrite strip_prefix_head by exact H. reflexivity. Qed.

Lemma m_close_block_head (d : N) (r : str) :
  d <> 60 -> m_close_block (d :: r) = None.
Proof.
  intros H. unfold m_close_block. rewrite strip_prefix_head by exact H. reflexivity.
Qed.

Lemma m_open_block_head (d : N) (r : str) :
  d <> 60 -> m_open_block (d :: r) = None.
Proof.
  intros H. unfold m_open_block. rewrite strip_prefix_head by exact H. reflexivity.
Qed.

Lemma m_any_tag_head (d : N) (r : str) : d <> 60 -> m_any_tag (d :: r) = None.
Proof.
  intros H. unfold m_any_tag. rewrite strip_prefix_head by exact H. reflexivity.
Qed.

Lemma m_blank_lines_head (d : N) (r : str) :
  d <> 10 -> m_blank_lines (d :: r) = None.
Proof.
  intros H. unfold m_blank_lines. cbn [span].
  destruct (N.eqb_spec d 10); [congruence | reflexivity].
Qed.

Lemma m_entity_head (pat rep : str) (d : N) (r : str) :
  head pat = Some 38 -> d <> 38 -> m_lit pat rep (d :: r) = None.
Proof.
  destruct pat as [|a pat]; [discriminate|]. intros H Hd. injection H as ->.
  apply m_lit_head. exact Hd.
Qed.

Lemma entity_without (pat rep s : str) :
  head pat = Some 38 -> has 38 s = false ->
  replace_global (m_lit pat rep) s = s.
Proof.
  intros Hp Hs. apply (replace_global_without _ 38); [|exact Hs].
  intros d r Hd. apply m_entity_head; assumption.
Qed.

Lemma entities_without (s : str) : has 38 s = false -> entities s = s.
Proof.
  intros H. unfold entities.
  rewrite (entity_without (lit "&nbsp;")) by (reflexivity || exact H).
  rewrite (entity_without (lit "&amp;")) by (reflexivity || exact H).
  rewrite (entity_without (lit "&lt;")) by (reflexivity || exact H).
  rewrite (entity_without (lit "&gt;")) by (reflexivity || exact H).
  rewrite (entity_without (lit "&quot;")) by (reflexivity || exact H).
  apply entity_without; [reflexivity | exact H].
Qed.

(** The paragraph of a line that ends clean reads back as the line
    without its leading white space. *)
Lemma htmlToPlainText_paragraph (line : str) :
  line <> [] -> trimEnd line = line ->
  has 10 line = false -> has 38 line = false -> has 60 line = false ->
  htmlToPlainText (lit "<p>" ++ line ++ lit "</p>") = trimStart line.
Proof.
  intros Hne Hclean Hnl Hamp Hlt.
  change (lit "<p>" ++ line ++ lit "</p>")
    with (60 :: ([112; 62] ++ line) ++ lit "</p>").
  assert (Hbody : has 60 ([112; 62] ++ line) = false).
  { rewrite has_app, Hlt. reflexivity. }
  unfold htmlToPlainText.
  (* line breaks *)
  rewrite (replace_global_miss m_br) by reflexivity.
  rewrite (replace_global_through m_br 60) by (auto using m_br_head).
  change (replace_global m_br (lit "</p>")) with (lit "</p>").
  (* closing tags *)
  rewrite (replace_global_miss m_close_block) by reflexivity.
  rewrite (replace_global_through m_close_block 60)
    by (auto using m_close_block_head).
  change (replace_global m_close_block (lit "</p>")) with [10].
  (* opening tags *)
  change (60 :: ([112; 62] ++ line) ++ [10]) with (60 :: 112 :: 62 :: line ++ [10]).
  rewrite (replace_global_hit m_open_block 60 _ [10] 2) by reflexivity.
  change (skipn 2 (112 :: 62 :: line ++ [10])) with (line ++ [10]).
  rewrite (replace_global_through m_open_block 60)
    by (auto using m_open_block_head).
  change (replace_global m_open_block [10]) with [10].
  (* other tags, entities *)
  assert (Hlt' : has 60 ([10] ++ line ++ [10]) = false).
  { rewrite !has_app, Hlt. reflexivity. }
  assert (Hamp' : has 38 ([10] ++ line ++ [10]) = false).
  { rewrite !has_app, Hamp. reflexivity. }
  rewrite (replace_global_without m_any_tag 60)
    by (auto using m_any_tag_head).
  rewrite entities_without by exact Hamp'.
  (* lines *)
  change ([10] ++ line ++ [10]) with (10 :: line ++ [10]).
  change (split_lines (10 :: line ++ [10])) with ([] :: split_lines (line ++ [10])).
  rewrite (split_lines_newline line [] Hnl).
  change (split_lines []) with [@nil N].
  cbn [List.map]. rewrite trimEnd_nil, Hclean.
  change (join [10] [[]; line; []]) with (10 :: line ++ [10] ++ []).
  rewrite app_nil_r.
  (* blank lines *)
  destruct line as [|c l] eqn:Hline; [congruence|].
  rewrite <- Hline in *.
  assert (Hc : c <> 10).
  { apply (has_head 10 c l). rewrite <- Hline. exact Hnl. }
  rewrite (replace_global_miss m_blank_lines).
  2:{ rewrite Hline. unfold m_blank_lines. cbn [app span].
      change (10 =? 10) with true. cbv iota.
      destruct (N.eqb_spec c 10); [congruence | reflexivity]. }
  rewrite (replace_global_through m_blank_lines 10)
    by (auto using m_blank_lines_head).
  change (replace_global m_blank_lines [10]) with [10].
  (* trim *)
  unfold trim. change (10 :: line ++ [10]) with ((10 :: line) ++ [10]).
  rewrite trimEnd_snoc by reflexivity.
  rewrite trimEnd_cons by (rewrite ?Hline; congruence || assumption).
  apply trimStart_ws. reflexivity.
Qed.

(** C10 (as amended).  For every single line without [&], [<], [>], [*]
    or an address that does not open, once its trailing white space is
    removed, with a heading marker ([#], [##], [###]) or a list marker
    ([-], [*]) followed by white space of any kind, the plain text of the
    rich HTML of the line is the line without its leading and trailing
    white space. *)
Theorem plain_line_round_trip (s : str) :
  plain_line is_white_space s ->
  htmlToPlainText (toRichHtml s) = trim s.
Proof.
  intros Hs. rewrite (toRichHtml_plain s Hs).
  destruct Hs as [Hnl [Hamp [Hlt _]]].
  destruct (trim s) as [|c t] eqn:Htrim; [reflexivity|].
  rewrite htmlToPlainText_paragraph.
  - exact Htrim.
  - intros Hnil. unfold trim in Htrim. rewrite Hnil in Htrim. discriminate.
  - apply trimEnd_idem.
  - apply has_trimEnd. exact Hnl.
  - apply has_trimEnd. exact Hamp.
  - apply has_trimEnd. exact Hlt.
Qed.

(** C10, as stated, fails: a heading marker followed by a tab is not a
    marker followed by a space, and the line is taken for a heading all
    the same. *)
Lemma tab_after_marker_is_a_heading :
  let s := lit "#" ++ [9] ++ lit "x" in
  plain_line (N.eqb 32) s
  /\ htmlToPlainText (toRichHtml s) = lit "x"
  /\ trim s = s
  /\ htmlToPlainText (toRichHtml s) <> trim s.
Proof. vm_compute. repeat split. discriminate. Qed.

Lemma plain_line_round_trip_witness :
  htmlToPlainText (toRichHtml (lit "  Safer streets for bikes  "))
  = lit "Safer streets for bikes".
Proof.
  apply (plain_line_round_trip (lit "  Safer streets for bikes  ")).
  vm_compute. repeat split.
Defined.

End RichTextProofs.

(** ** The loop and the handler *)

Module HandlerProofs.
Import Scenario StringProofs RoundProofs.

Lemma chat_completions_cases (env : Env) (r : LMRequest) (w : World) :
  chat_completions env r w
  = match openRouter env (length (lm_log w)) r with
    | LMResponse data => (Returned data, log_lm r w)
    | LMFailure msg resp => (Threw (AxiosError msg resp), log_lm r w)
    end.
Proof. reflexivity. Qed.

Lemma answered_by (env : Env) (r : LMRequest) (w : World) (data : LMData)
    (m : Message) :
  openRouter env (length (lm_log w)) r = LMResponse data ->
  lm_message data = Some m ->
  answered env (log_lm r w) m.
Proof.
  intros Hr Hm. exists r, data. simpl.
  rewrite last_snoc, length_app. simpl.
  replace (Nat.pred (length (lm_log w) + 1)) with (length (lm_log w)) by lia.
  repeat split; assumption.
Qed.

Lemma answered_same_log (env : Env) (w w' : World) (m : Message) :
  lm_log w' = lm_log w -> answered env w m -> answered env w' m.
Proof. unfold answered. intros ->. exact id. Qed.

Section Loop.
Context {rt : Runtime} (env : Env).
Context (funcs : str -> option (JsonValue -> M FunctionResult)).
Hypothesis funcs_quiet :
  forall name f args, funcs name = Some f -> quiet (f args).
Context (model : str) (request : list Message).

(** [round], case by case. *)
Lemma round_cases (toolCalls : list ToolCall) (ls : LoopState) (w : World) :
  round env funcs model request toolCalls ls w
  = match run_tool_calls funcs toolCalls (new_round (executed ls)) w with
    | (Threw e, w1) => (Threw e, w1)
    | (Returned st, w1) =>
        let msgs := request ++ [assistantMessage ls] ++ toolResults st in
        let r1 := {| lm_model := model; lm_messages := msgs;
                     lm_tool_choice := auto |} in
        let r2 := {| lm_model := model; lm_messages := msgs;
                     lm_tool_choice := none |} in
        match openRouter env (length (lm_log w1)) r1 with
        | LMFailure msg resp => (Threw (AxiosError msg resp), log_lm r1 w1)
        | LMResponse data =>
            match lm_message data with
            | None => (Threw (JsError undefined_error), log_lm r1 w1)
            | Some m =>
                let used :=
                  (usedTokens ls + extractTokenCount (lm_usage data))%Z in
                if no_content m && bool_decide (pending m = []) then
                  match openRouter env (length (lm_log (log_lm r1 w1))) r2 with
                  | LMFailure msg resp =>
                      (Threw (AxiosError msg resp), log_lm r2 (log_lm r1 w1))
                  | LMResponse final =>
                      match lm_message final with
                      | None =>
                          (Threw (JsError undefined_error),
                           log_lm r2 (log_lm r1 w1))
                      | Some m' =>
                          (Returned
                             ({| assistantMessage := m';
                                 executed := executedToolResults st;
                                 usedTokens :=
                                   (used + extractTokenCount (lm_usage final))%Z;
                                 safetyCounter := S (safetyCounter ls) |}, true),
                           log_lm r2 (log_lm r1 w1))
                      end
                  end
                else
                  (Returned
                     ({| assistantMessage := m;
                         executed := executedToolResults st;
                         usedTokens := used;
                         safetyCounter := S (safetyCounter ls) |}, false),
                   log_lm r1 w1)
            end
        end
    end.
Proof.
  unfold round, bind.
  destruct (run_tool_calls funcs toolCalls _ w) as [[st|e] w1]; [|reflexivity].
  rewrite chat_completions_cases. cbv zeta.
  destruct (openRouter env (length (lm_log w1)) _) as [data|msg resp];
    [|reflexivity].
  unfold message_of at 1.
  destruct (lm_message data) as [m|]; [|reflexivity].
  unfold ret at 1.
  destruct (no_content m && bool_decide (pending m = [])); [|reflexivity].
  rewrite chat_completions_cases.
  destruct (openRouter env _ _) as [final|msg resp]; [|reflexivity].
  unfold message_of. destruct (lm_message final); reflexivity.
Qed.

(** What one round asks of the model: the follow-up request and, when
    it forces a text, that request after it; and what it returns. *)
Lemma round_log (toolCalls : list ToolCall) (ls : LoopState) (w : World) :
  toolCalls = pending (assistantMessage ls) ->
  exists new,
    lm_log (snd (round env funcs model request toolCalls ls w)) = lm_log w ++ new
    /\ (length (List.filter is_auto new) <= 1)%nat
    /\ (length (List.filter is_forced new) <= 1)%nat
    /\ Forall (followup_of request) new
    /\ forall ls' brk w',
        round env funcs model request toolCalls ls w = (Returned (ls', brk), w') ->
        answered env w' (assistantMessage ls')
        /\ safetyCounter ls' = S (safetyCounter ls)
        /\ (brk = false -> List.filter is_forced new = []).
Proof using funcs_quiet.
  intros Hcalls. rewrite round_cases.
  destruct (run_tool_calls_log funcs funcs_quiet toolCalls
              (new_round (executed ls)) w) as [Hquiet Hlen].
  destruct (run_tool_calls funcs toolCalls (new_round (executed ls)) w)
    as [[st|e] w1]; simpl in Hquiet.
  2:{ exists []. rewrite app_nil_r. simpl.
      split_and!; [exact Hquiet | lia | lia | constructor | discriminate ]. }
  specialize (Hlen st w1 eq_refl). simpl in Hlen. cbv zeta.
  set (r1 := {| lm_model := model;
                lm_messages := request ++ [assistantMessage ls] ++ toolResults st;
                lm_tool_choice := auto |}).
  set (r2 := {| lm_model := model;
                lm_messages := request ++ [assistantMessage ls] ++ toolResults st;
                lm_tool_choice := none |}).
  assert (Hshape : forall c, followup_of request
            {| lm_model := model;
               lm_messages := request ++ [assistantMessage ls] ++ toolResults st;
               lm_tool_choice := c |}).
  { intros c. exists (assistantMessage ls), (toolResults st). simpl.
    split; [reflexivity|]. rewrite Hlen, Hcalls. reflexivity. }
  assert (Hlog1 : lm_log (log_lm r1 w1) = lm_log w ++ [r1]).
  { simpl. rewrite Hquiet. reflexivity. }
  assert (Hlog2 : lm_log (log_lm r2 (log_lm r1 w1)) = lm_log w ++ [r1; r2]).
  { simpl. rewrite Hquiet, <- app_assoc. reflexivity. }
  assert (Hone : forall (o : Outcome (LoopState * bool)),
             (forall ls' brk w',
                 (o, log_lm r1 w1) = (Returned (ls', brk), w') ->
                 answered env w' (assistantMessage ls')
                 /\ safetyCounter ls' = S (safetyCounter ls)) ->
             exists new,
               lm_log (snd (o, log_lm r1 w1)) = lm_log w ++ new
               /\ (length (List.filter is_auto new) <= 1)%nat
               /\ (length (List.filter is_forced new) <= 1)%nat
               /\ Forall (followup_of request) new
               /\ forall ls' brk w',
                   (o, log_lm r1 w1) = (Returned (ls', brk), w') ->
                   answered env w' (assistantMessage ls')
                   /\ safetyCounter ls' = S (safetyCounter ls)
                   /\ (brk = false -> List.filter is_forced new = [])).
  { intros o Ho. exists [r1].
    split_and!; [exact Hlog1 | simpl; lia | simpl; lia
                | repeat constructor; apply Hshape |].
    intros ls' brk w' H. destruct (Ho ls' brk w' H) as [Ha Hc].
    split_and!; [exact Ha | exact Hc | reflexivity]. }
  assert (Htwo : forall (o : Outcome (LoopState * bool)),
             (forall ls' brk w',
                 (o, log_lm r2 (log_lm r1 w1)) = (Returned (ls', brk), w') ->
                 answered env w' (assistantMessage ls')
                 /\ safetyCounter ls' = S (safetyCounter ls) /\ brk = true) ->
             exists new,
               lm_log (snd (o, log_lm r2 (log_lm r1 w1))) = lm_log w ++ new
               /\ (length (List.filter is_auto new) <= 1)%nat
               /\ (length (List.filter is_forced new) <= 1)%nat
               /\ Forall (followup_of request) new
               /\ forall ls' brk w',
                   (o, log_lm r2 (log_lm r1 w1)) = (Returned (ls', brk), w') ->
                   answered env w' (assistantMessage ls')
                   /\ safetyCounter ls' = S (safetyCounter ls)
                   /\ (brk = false -> List.filter is_forced new = [])).
  { intros o Ho. exists [r1; r2].
    split_and!; [exact Hlog2 | simpl; lia | simpl; lia
                | repeat constructor; apply Hshape |].
    intros ls' brk w' H. destruct (Ho ls' brk w' H) as [Ha [Hc Hb]].
    split_and!; [exact Ha | exact Hc | congruence]. }
  fold r1 r2.
  destruct (openRouter env (length (lm_log w1)) r1) as [data|msg resp] eqn:H1.
  2:{ apply Hone. discriminate. }
  destruct (lm_message data) as [m|] eqn:Hm.
  2:{ apply Hone. discriminate. }
  destruct (no_content m && bool_decide (pending m = [])).
  - destruct (openRouter env (length (lm_log (log_lm r1 w1))) r2)
      as [data2|msg resp] eqn:H2.
    2:{ apply Htwo. discriminate. }
    destruct (lm_message data2) as [m2|] eqn:Hm2.
    2:{ apply Htwo. discriminate. }
    apply Htwo. intros ls' brk w' H. injection H as <- <- <-.
    split_and!; [exact (answered_by env r2 _ data2 m2 H2 Hm2)
                | reflexivity | reflexivity].
  - apply Hone. intros ls' brk w' H. injection H as <- <- <-.
    split; [exact (answered_by env r1 _ data m H1 Hm) | reflexivity].
Qed.

(** The loop asks for at most [remaining] follow-ups and at most one
    forced text, and returns the message of the last answer. *)
Lemma tool_loop_log (remaining : nat) :
  forall (ls : LoopState) (w : World),
  exists new,
    lm_log (snd (tool_loop env funcs model request remaining ls w))
    = lm_log w ++ new
    /\ (length (List.filter is_auto new) <= remaining)%nat
    /\ (length (List.filter is_forced new) <= 1)%nat
    /\ Forall (followup_of request) new
    /\ forall ls' w',
        tool_loop env funcs model request remaining ls w = (Returned ls', w') ->
        (answered env w (assistantMessage ls) ->
         answered env w' (assistantMessage ls'))
        /\ (safetyCounter ls' <= safetyCounter ls + remaining)%nat.
Proof using funcs_quiet.
  assert (Hstop : forall ls w (n : nat),
    exists new : list LMRequest,
      lm_log (snd (ret ls w)) = lm_log w ++ new
      /\ (length (List.filter is_auto new) <= n)%nat
      /\ (length (List.filter is_forced new) <= 1)%nat
      /\ Forall (followup_of request) new
      /\ forall ls' w',
          ret ls w = (Returned ls', w') ->
          (answered env w (assistantMessage ls) ->
           answered env w' (assistantMessage ls'))
          /\ (safetyCounter ls' <= safetyCounter ls + n)%nat).
  { intros ls w n. exists []. simpl. rewrite app_nil_r.
    split_and!; [reflexivity | lia | lia | constructor |].
    intros ls' w' H. injection H as <- <-. split; [exact id | lia]. }
  induction remaining as [|k IH]; intros ls w; simpl.
  - destruct (pending (assistantMessage ls)); apply Hstop.
  - destruct (pending (assistantMessage ls)) as [|tc tcs] eqn:Hp; [apply Hstop|].
    unfold bind.
    destruct (round_log (tc :: tcs) ls w (eq_sym Hp))
      as [new [Hlog [Hauto [Hforced [Hshape Hret]]]]].
    destruct (round env funcs model request (tc :: tcs) ls w)
      as [[[ls1 brk]|e] w1]; simpl in Hlog.
    2:{ exists new. simpl.
        split_and!; [exact Hlog | lia | exact Hforced | exact Hshape | discriminate]. }
    destruct (Hret ls1 brk w1 eq_refl) as [Hans [Hcount Hbrk]].
    simpl. destruct brk.
    + exists new. simpl.
      split_and!; [exact Hlog | lia | exact Hforced | exact Hshape |].
      intros ls' w' H. injection H as <- <-. split; [intros _; exact Hans | lia].
    + destruct (IH ls1 w1) as [new' [Hlog' [Hauto' [Hforced' [Hshape' Hret']]]]].
      exists (new ++ new').
      rewrite Hlog', Hlog, <- app_assoc, !List.filter_app, !length_app.
      rewrite (Hbrk eq_refl). simpl.
      split_and!; [reflexivity | lia | exact Hforced'
                  | apply Forall_app; split; assumption |].
      intros ls' w' H. destruct (Hret' ls' w' H) as [Ha Hc].
      split; [intros _; exact (Ha Hans) | lia].
Qed.

(** What the tool calls of a round were answered with goes to the
    model: the first request of the round after them is the follow-up
    with the assistant message and those tool results. *)
Lemma round_feeds_back (toolCalls : list ToolCall) (ls : LoopState)
    (st : RoundState) (w w1 : World) :
  run_tool_calls funcs toolCalls (new_round (executed ls)) w = (Returned st, w1) ->
  exists rest,
    lm_log (snd (round env funcs model request toolCalls ls w))
    = lm_log w1
      ++ {| lm_model := model;
            lm_messages := request ++ [assistantMessage ls] ++ toolResults st;
            lm_tool_choice := auto |} :: rest.
Proof.
  intros Hrun. rewrite round_cases, Hrun. cbv zeta.
  destruct (openRouter env (length (lm_log w1)) _) as [data|msg resp];
    [|exists []; reflexivity].
  destruct (lm_message data) as [m|]; [|exists []; reflexivity].
  destruct (no_content m && bool_decide (pending m = []));
    [|exists []; reflexivity].
  assert (Htwo : forall (o : Outcome (LoopState * bool)) (r1 r2 : LMRequest),
             exists rest,
               lm_log (snd (o, log_lm r2 (log_lm r1 w1)))
               = lm_log w1 ++ r1 :: rest).
  { intros o r1 r2. exists [r2]. cbn [snd lm_log log_lm].
    rewrite <- app_assoc. reflexivity. }
  destruct (openRouter env _ _) as [final|msg resp]; [|apply Htwo].
  destruct (lm_message final); apply Htwo.
Qed.

(** With a model that, from its [k]-th request on, always answers with
    a message whose tool calls parse, the loop returns. *)
Lemma tool_loop_returns (k : nat) (remaining : nat) :
  (forall n r, (k <= n)%nat ->
      exists data m,
        openRouter env n r = LMResponse data /\ lm_message data = Some m
        /\ Forall parses (pending m)) ->
  forall (ls : LoopState) (w : World),
    (k <= length (lm_log w))%nat ->
    Forall parses (pending (assistantMessage ls)) ->
    exists ls' w', tool_loop env funcs model request remaining ls w = (Returned ls', w').
Proof using funcs_quiet.
  intros Hlm. induction remaining as [|j IH]; intros ls w Hk Hparse; simpl.
  - destruct (pending (assistantMessage ls)); eexists _, _; reflexivity.
  - destruct (pending (assistantMessage ls)) as [|tc tcs] eqn:Hp;
      [eexists _, _; reflexivity|].
    unfold bind. rewrite round_cases.
    destruct (run_tool_calls_returns funcs funcs_quiet (tc :: tcs)
                (new_round (executed ls)) w Hparse) as [st [w1 [Hrun [_ Hlog]]]].
    rewrite Hrun. cbv zeta.
    assert (Hk1 : (k <= length (lm_log w1))%nat) by (rewrite Hlog; exact Hk).
    match goal with
    | |- context [openRouter env ?n ?r] =>
        destruct (Hlm n r Hk1) as [data [m [Hr [Hm Hpm]]]]; rewrite Hr
    end.
    rewrite Hm.
    match goal with
    | |- context [log_lm ?r w1] =>
        assert (Hk2 : (k <= length (lm_log (log_lm r w1)))%nat)
          by (cbn [lm_log log_lm]; rewrite length_app; lia)
    end.
    destruct (no_content m && bool_decide (pending m = [])).
    + match goal with
      | |- context [openRouter env ?n ?r] =>
          destruct (Hlm n r Hk2) as [data2 [m2 [Hr2 [Hm2 _]]]]; rewrite Hr2
      end.
      rewrite Hm2. cbn [snd fst]. eexists _, _; reflexivity.
    + cbn [snd fst]. apply IH; [exact Hk2 | exact Hpm].
Qed.

(** [executed] grows by the results of the executor calls that
    returned: the loop hands on what the rounds executed. *)
Lemma tool_loop_executed (remaining : nat) :
  forall (ls ls' : LoopState) (w w' : World),
    tool_loop env funcs model request remaining ls w = (Returned ls', w') ->
    exists new,
      invoked w' = invoked w ++ new
      /\ executed ls' = executed ls ++ returned_results new.
Proof using funcs_quiet.
  assert (Hstop : forall (ls ls' : LoopState) (w w' : World),
             ret ls w = (Returned ls', w') ->
             exists new,
               invoked w' = invoked w ++ new
               /\ executed ls' = executed ls ++ returned_results new).
  { intros ls ls' w w' H. injection H as <- <-. exists [].
    rewrite !app_nil_r. split; reflexivity. }
  induction remaining as [|j IH]; intros ls ls' w w'; simpl.
  - destruct (pending (assistantMessage ls)); apply Hstop.
  - destruct (pending (assistantMessage ls)) as [|tc tcs] eqn:Hp; [apply Hstop|].
    unfold bind. rewrite round_cases.
    destruct (run_tool_calls funcs (tc :: tcs) (new_round (executed ls)) w)
      as [[st|e] w1] eqn:Hrun; [|discriminate].
    destruct (run_tool_calls_executed funcs funcs_quiet _ _ _ _ _ Hrun)
      as [n1 [Hi1 He1]]. cbn [executedToolResults new_round] in He1.
    cbv zeta.
    destruct (openRouter env (length (lm_log w1)) _) as [data|msg resp];
      [|discriminate].
    destruct (lm_message data) as [m|]; [|discriminate].
    destruct (no_content m && bool_decide (pending m = [])).
    + destruct (openRouter env _ _) as [final|msg resp]; [|discriminate].
      destruct (lm_message final) as [m'|]; [|discriminate].
      cbn [fst snd]. intros H. injection H as <- <-.
      exists n1. split; [exact Hi1 | exact He1].
    + cbn [fst snd]. intros H.
      destruct (IH _ _ _ _ H) as [n2 [Hi2 He2]].
      cbn [invoked log_lm executed] in Hi2, He2.
      exists (n1 ++ n2).
      rewrite Hi2, Hi1, He2, He1, returned_results_app, !app_assoc.
      split; reflexivity.
Qed.

Lemma lookup_new {A} (l new : list A) (i : nat) :
  (l ++ new) !! (length l + i)%nat = new !! i.
Proof.
  rewrite lookup_app_r by lia. f_equal. lia.
Qed.

(** A call of the model that fails ends the loop: what the loop throws
    is the error of that call. *)
Lemma tool_loop_failure (remaining : nat) :
  forall (ls : LoopState) (w : World),
  exists new,
    lm_log (snd (tool_loop env funcs model request remaining ls w))
    = lm_log w ++ new
    /\ forall i r msg resp,
        new !! i = Some r ->
        openRouter env (length (lm_log w) + i) r = LMFailure msg resp ->
        fst (tool_loop env funcs model request remaining ls w)
        = Threw (AxiosError msg resp).
Proof using funcs_quiet.
  assert (Hstop : forall (o : Outcome LoopState) (w : World),
             exists new : list LMRequest,
               lm_log (snd (o, w)) = lm_log w ++ new
               /\ forall i r msg resp,
                   new !! i = Some r ->
                   openRouter env (length (lm_log w) + i) r = LMFailure msg resp ->
                   fst (o, w) = Threw (AxiosError msg resp)).
  { intros o w. exists []. rewrite app_nil_r. split; [reflexivity|].
    intros i r msg resp H. destruct i; discriminate. }
  induction remaining as [|j IH]; intros ls w; simpl.
  - destruct (pending (assistantMessage ls)); apply Hstop.
  - destruct (pending (assistantMessage ls)) as [|tc tcs] eqn:Hp; [apply Hstop|].
    unfold bind. rewrite round_cases.
    destruct (run_tool_calls_log funcs funcs_quiet (tc :: tcs)
                (new_round (executed ls)) w) as [Hquiet _].
    destruct (run_tool_calls funcs (tc :: tcs) (new_round (executed ls)) w)
      as [[st|e] w1]; cbn [snd] in Hquiet.
    2:{ exists []. rewrite app_nil_r. split; [exact Hquiet|].
        intros i r msg resp H. destruct i; discriminate. }
    cbv zeta.
    set (r1 := {| lm_model := model;
                  lm_messages := request ++ [assistantMessage ls] ++ toolResults st;
                  lm_tool_choice := auto |}).
    set (r2 := {| lm_model := model;
                  lm_messages := request ++ [assistantMessage ls] ++ toolResults st;
                  lm_tool_choice := none |}).
    rewrite Hquiet.
    assert (Hlen1 : length (lm_log (log_lm r1 w1)) = S (length (lm_log w))).
    { cbn [lm_log log_lm]. rewrite length_app, Hquiet. simpl. lia. }
    rewrite Hlen1.
    destruct (openRouter env (length (lm_log w)) r1) as [data|msg0 resp0] eqn:H1.
    2:{ exists [r1]. cbn [snd fst lm_log log_lm]. rewrite Hquiet.
        split; [reflexivity|]. intros i r msg resp Hi Hfail.
        destruct i as [|i]; [|destruct i; discriminate].
        injection Hi as <-. rewrite Nat.add_0_r in Hfail. congruence. }
    assert (Hfirst : forall i r msg resp (rest : list LMRequest),
               (r1 :: rest) !! i = Some r ->
               openRouter env (length (lm_log w) + i) r = LMFailure msg resp ->
               exists i', i = S i' /\ rest !! i' = Some r).
    { intros i r msg resp rest Hi Hfail. destruct i as [|i].
      - injection Hi as <-. rewrite Nat.add_0_r in Hfail. congruence.
      - exists i. split; [reflexivity | exact Hi]. }
    destruct (lm_message data) as [m|] eqn:Hm.
    2:{ exists [r1]. cbn [snd fst lm_log log_lm]. rewrite Hquiet.
        split; [reflexivity|]. intros i r msg resp Hi Hfail.
        destruct (Hfirst _ _ _ _ _ Hi Hfail) as [i' [-> Hi']].
        destruct i'; discriminate. }
    destruct (no_content m && bool_decide (pending m = [])).
    + assert (Hlog2 : lm_log (log_lm r2 (log_lm r1 w1)) = lm_log w ++ [r1; r2]).
      { cbn [lm_log log_lm]. rewrite Hquiet, <- app_assoc. reflexivity. }
      destruct (openRouter env (S (length (lm_log w))) r2)
        as [final|msg0 resp0] eqn:H2.
      2:{ exists [r1; r2]. cbn [snd fst]. split; [exact Hlog2|].
          intros i r msg resp Hi Hfail.
          destruct (Hfirst _ _ _ _ _ Hi Hfail) as [i' [-> Hi']].
          destruct i' as [|i']; [|destruct i'; discriminate].
          injection Hi' as <-.
          replace (length (lm_log w) + 1)%nat with (S (length (lm_log w)))
            in Hfail by lia.
          congruence. }
      assert (Hboth : forall (o : Outcome LoopState),
                 exists new : list LMRequest,
                   lm_log (snd (o, log_lm r2 (log_lm r1 w1))) = lm_log w ++ new
                   /\ forall i r msg resp,
                       new !! i = Some r ->
                       openRouter env (length (lm_log w) + i) r
                       = LMFailure msg resp ->
                       fst (o, log_lm r2 (log_lm r1 w1))
                       = Threw (AxiosError msg resp)).
      { intros o. exists [r1; r2]. cbn [snd fst]. split; [exact Hlog2|].
        intros i r msg resp Hi Hfail.
        destruct (Hfirst _ _ _ _ _ Hi Hfail) as [i' [-> Hi']].
        destruct i' as [|i']; [|destruct i'; discriminate].
        injection Hi' as <-.
        replace (length (lm_log w) + 1)%nat with (S (length (lm_log w)))
          in Hfail by lia.
        congruence. }
      destruct (lm_message final) as [m'|]; cbn [fst snd]; apply Hboth.
    + cbn [fst snd].
      match goal with
      | |- context [tool_loop env funcs model request j ?l ?x] =>
          destruct (IH l x) as [new' [Hlog' Hfail']]
      end.
      exists (r1 :: new'). split.
      * rewrite Hlog'. cbn [lm_log log_lm]. rewrite Hquiet, <- app_assoc.
        reflexivity.
      * intros i r msg resp Hi Hfail.
        destruct (Hfirst _ _ _ _ _ Hi Hfail) as [i' [-> Hi']].
        apply (Hfail' i' r msg resp Hi').
        rewrite Hlen1.
        replace (S (length (lm_log w)) + i')%nat
          with (length (lm_log w) + S i')%nat by lia.
        exact Hfail.
Qed.

(** A first tool call whose arguments do not parse ends the loop, and
    the request, in a throw, before any follow-up. *)
Lemma tool_loop_throws (remaining : nat) (ls : LoopState) (w : World)
    (pre post : list ToolCall) (tc : ToolCall) :
  pending (assistantMessage ls) = pre ++ tc :: post ->
  Forall parses pre -> ~ parses tc ->
  exists w',
    tool_loop env funcs model request (S remaining) ls w
    = (Threw (JsError (syntax_error (tc_arguments tc))), w')
    /\ lm_log w' = lm_log w.
Proof using funcs_quiet.
  intros Hp Hpre Hbad. simpl. rewrite Hp.
  destruct (run_tool_calls_throws funcs funcs_quiet pre post tc
              (new_round (executed ls)) w Hpre Hbad) as [w' [Hrun Hlog]].
  exists w'. split; [|exact Hlog].
  destruct (pre ++ tc :: post) as [|x xs] eqn:Hx.
  { destruct pre; discriminate. }
  unfold bind. rewrite round_cases, Hrun. reflexivity.
Qed.
End Loop.

(** *** The answer *)

Lemma replace_links_not_empty (links : list str) (i : nat) (s : str) :
  s <> [] -> replace_links links i 0 s <> [].
Proof.
  destruct s as [|c s']; [congruence|]. intros _. cbn [replace_links].
  destruct (placeholder_at (c :: s')) as [[label n]|] eqn:Hp; [|discriminate].
  destruct (LinkProofs.placeholder_at_Some _ _ _ Hp) as [after [Hs [Hn _]]].
  rewrite LinkProofs.render_length in Hn. subst n.
  destruct (nth_error links i); discriminate.
Qed.

Lemma replace_not_empty (text : str) (executed : list ExecutedToolResult) :
  text <> [] -> replacePlaceholderLinksWithToolUrls text executed <> [].
Proof.
  intros H. unfold replacePlaceholderLinksWithToolUrls.
  destruct text as [|c t]; [congruence|].
  destruct (collect_links executed); [discriminate|].
  apply replace_links_not_empty. discriminate.
Qed.

Lemma fallback_kept (m : Message) (executed : list ExecutedToolResult) :
  let c := match pending m with [] => FALLBACK_PLAIN | _ => FALLBACK_TOOLS end in
  replacePlaceholderLinksWithToolUrls c executed = c.
Proof.
  unfold replacePlaceholderLinksWithToolUrls.
  destruct (pending m); destruct (collect_links executed); reflexivity.
Qed.

Lemma trim_nil : trim [] = [].
Proof. reflexivity. Qed.

(** The answer is never empty: it is the text of the message, or the
    fallback when that text is blank, with its placeholder links filled. *)
Lemma finalize_content (m : Message) (executed : list ExecutedToolResult) :
  exists c,
    content (finalize m executed) = Some c
    /\ c <> []
    /\ (blank m = false ->
        exists c0, content m = Some c0
                   /\ c = replacePlaceholderLinksWithToolUrls c0 executed)
    /\ (blank m = true ->
        c = match pending m with [] => FALLBACK_PLAIN | _ => FALLBACK_TOOLS end).
Proof.
  unfold finalize, ensure_content. destruct (blank m) eqn:Hb.
  - exists (match pending m with [] => FALLBACK_PLAIN | _ => FALLBACK_TOOLS end).
    cbn [content with_content default from_option id]. rewrite (fallback_kept m executed).
    split_and!; [reflexivity | | discriminate | reflexivity].
    destruct (pending m); discriminate.
  - unfold blank in Hb. destruct (content m) as [c0|] eqn:Hc; [|discriminate].
    exists (replacePlaceholderLinksWithToolUrls c0 executed).
    cbn [content with_content default from_option id].
    split_and!; [reflexivity | | | discriminate].
    + apply replace_not_empty. intros ->. rewrite trim_nil in Hb. discriminate.
    + intros _. exists c0. split; reflexivity.
Qed.

(** *** The handler *)

Section Handler.
Context {rt : Runtime} (env : Env).

(** [handle], case by case. *)
Lemma handle_cases (req : ChatRequest) (w : World) :
  handle env req w
  = match truthy (userToken req) with
    | None =>
        (Returned {| status := 401;
                     body := ErrorBody (lit "Unauthenticated: missing user token") |},
         w)
    | Some token =>
        match truthy (OPENROUTER_API_KEY (process_env env)) with
        | None =>
            (Threw (JsError (lit "OpenRouter API key is not configured")), w)
        | Some _ =>
            let r0 := first_request env req w in
            match openRouter env (length (lm_log w)) r0 with
            | LMFailure msg resp => (Threw (AxiosError msg resp), log_lm r0 w)
            | LMResponse response =>
                match lm_message response with
                | None =>
                    (Threw (JsError (lit "Invalid response from OpenRouter API")),
                     log_lm r0 w)
                | Some first =>
                    match tool_loop env (getFunctions env (userToken req))
                            (lm_model r0) (lm_messages r0) 5
                            (loop_start response first) (log_lm r0 w) with
                    | (Threw e, w2) => (Threw e, w2)
                    | (Returned ls, w2) =>
                        (Returned
                           {| status := 200;
                              body :=
                                ChatBody (conversation_id env req)
                                  (finalize (assistantMessage ls) (executed ls))
                                  (Z.max 0 (usedTokens ls)) |},
                         settled env req token ls w2)
                    end
                end
            end
        end
    end.
Proof.
  unfold handle. destruct (truthy (userToken req)) as [token|]; [|reflexivity].
  unfold bind at 1. unfold store_get, gets.
  destruct (truthy (OPENROUTER_API_KEY (process_env env))); [|reflexivity].
  unfold bind at 1. rewrite chat_completions_cases. cbv zeta.
  unfold first_request, conversation_id.
  destruct (openRouter env (length (lm_log w)) _) as [response|msg resp];
    [|reflexivity].
  destruct (lm_message response) as [first|]; [|reflexivity].
  unfold bind at 1. unfold loop_start. cbn [lm_model lm_messages].
  destruct (tool_loop _ _ _ _ _ _ _) as [[ls|e] w2]; [|reflexivity].
  reflexivity.
Qed.

Lemma settled_log (req : ChatRequest) (token : str) (ls : LoopState) (w : World) :
  lm_log (settled env req token ls w) = lm_log w.
Proof. reflexivity. Qed.

Lemma quiet_funcs (userToken : option str) :
  forall name f args,
    getFunctions env userToken name = Some f -> quiet (f args).
Proof. intros name f args. apply quiet_getFunctions. Qed.

(** What [POST] asks of the model: nothing, or the first request and
    then at most five follow-ups and at most one forced text. *)
Lemma POST_requests (req : str + ChatRequest) (w : World) :
  exists new,
    lm_log (snd (POST env req w)) = lm_log w ++ new
    /\ (new = []
        \/ exists r followups,
             req = inr r
             /\ new = first_request env r w :: followups
             /\ (length (List.filter is_auto followups) <= 5)%nat
             /\ (length (List.filter is_forced followups) <= 1)%nat
             /\ Forall (followup_of (lm_messages (first_request env r w)))
                  followups).
Proof.
  destruct req as [message|r]; simpl.
  { exists []. rewrite app_nil_r. split; [reflexivity | left; reflexivity]. }
  rewrite handle_cases.
  destruct (truthy (userToken r)) as [token|].
  2:{ exists []. rewrite app_nil_r. split; [reflexivity | left; reflexivity]. }
  destruct (truthy (OPENROUTER_API_KEY (process_env env))).
  2:{ exists []. rewrite app_nil_r. split; [reflexivity | left; reflexivity]. }
  cbv zeta. set (r0 := first_request env r w).
  assert (Honly : forall x : HttpResponse,
             exists new,
               lm_log (snd (x, log_lm r0 w)) = lm_log w ++ new
               /\ (new = []
                   \/ exists r' followups,
                        @inr str ChatRequest r = inr r'
                        /\ new = first_request env r' w :: followups
                        /\ (length (List.filter is_auto followups) <= 5)%nat
                        /\ (length (List.filter is_forced followups) <= 1)%nat
                        /\ Forall (followup_of (lm_messages (first_request env r' w)))
                             followups)).
  { intros x. exists [r0]. split; [reflexivity|]. right.
    exists r, []. cbn [List.filter length].
    split_and!; try reflexivity; try lia. constructor. }
  destruct (openRouter env (length (lm_log w)) r0) as [response|msg resp].
  2:{ apply Honly. }
  destruct (lm_message response) as [first|]; [|apply Honly].
  destruct (tool_loop_log env (getFunctions env (userToken r))
              (quiet_funcs (userToken r)) (lm_model r0) (lm_messages r0) 5
              (loop_start response first) (log_lm r0 w))
    as [new [Hlog [Hauto [Hforced [Hshape _]]]]].
  exists (r0 :: new). split.
  - destruct (tool_loop _ _ _ _ _ _ _) as [[ls|e] w2]; simpl in *;
      rewrite Hlog, <- app_assoc; reflexivity.
  - right. exists r, new. split_and!; try reflexivity; assumption.
Qed.

(** An answer of [POST] has status 200 and carries the message of the
    last answer of the model, finalized. *)
Lemma POST_answer (req : str + ChatRequest) (w : World) (id : str)
    (msg : Message) (used : Z) :
  body (fst (POST env req w)) = ChatBody id msg used ->
  status (fst (POST env req w)) = 200%Z
  /\ exists last executed,
      msg = finalize last executed
      /\ answered env (snd (POST env req w)) last.
Proof.
  destruct req as [message|r]; simpl; [discriminate|].
  rewrite handle_cases.
  destruct (truthy (userToken r)) as [token|]; [|discriminate].
  destruct (truthy (OPENROUTER_API_KEY (process_env env))); [|discriminate].
  cbv zeta. set (r0 := first_request env r w).
  destruct (openRouter env (length (lm_log w)) r0) as [response|msg' resp] eqn:H0;
    [|discriminate].
  destruct (lm_message response) as [first|] eqn:Hm; [|discriminate].
  destruct (tool_loop_log env (getFunctions env (userToken r))
              (quiet_funcs (userToken r)) (lm_model r0) (lm_messages r0) 5
              (loop_start response first) (log_lm r0 w))
    as [new [_ [_ [_ [_ Hret]]]]].
  destruct (tool_loop _ _ _ _ _ _ _) as [[ls|e] w2]; [|discriminate].
  cbn [fst snd body status]. intros H. injection H as _ <- _.
  split; [reflexivity|].
  exists (assistantMessage ls), (executed ls). split; [reflexivity|].
  apply (answered_same_log env w2); [apply settled_log|].
  destruct (Hret ls w2 eq_refl) as [Hans _]. apply Hans.
  exact (answered_by env r0 w response first H0 Hm).
Qed.

(** An answer of [POST] is the message of the last answer of the
    model, finalized with the results of the executor calls of the
    request that returned. *)
Lemma POST_answer_executed (req : str + ChatRequest) (w : World) (id : str)
    (msg : Message) (used : Z) :
  body (fst (POST env req w)) = ChatBody id msg used ->
  exists last new,
    answered env (snd (POST env req w)) last
    /\ invoked (snd (POST env req w)) = invoked w ++ new
    /\ msg = finalize last (returned_results new).
Proof.
  destruct req as [message|r]; simpl; [discriminate|].
  rewrite handle_cases.
  destruct (truthy (userToken r)) as [token|]; [|discriminate].
  destruct (truthy (OPENROUTER_API_KEY (process_env env))); [|discriminate].
  cbv zeta. set (r0 := first_request env r w).
  destruct (openRouter env (length (lm_log w)) r0) as [response|msg' resp] eqn:H0;
    [|discriminate].
  destruct (lm_message response) as [first|] eqn:Hm; [|discriminate].
  destruct (tool_loop_log env (getFunctions env (userToken r))
              (quiet_funcs (userToken r)) (lm_model r0) (lm_messages r0) 5
              (loop_start response first) (log_lm r0 w))
    as [new [_ [_ [_ [_ Hret]]]]].
  pose proof (fun ls' w' =>
                tool_loop_executed env (getFunctions env (userToken r))
                  (quiet_funcs (userToken r)) (lm_model r0) (lm_messages r0) 5
                  (loop_start response first) ls' (log_lm r0 w) w') as Hexec.
  destruct (tool_loop _ _ _ _ _ _ _) as [[ls|e] w2]; [|discriminate].
  cbn [fst snd body status]. intros H. injection H as _ <- _.
  destruct (Hexec ls w2 eq_refl) as [inv [Hinv Hex]].
  cbn [executed loop_start app] in Hex. cbn [invoked log_lm] in Hinv.
  exists (assistantMessage ls), inv. split_and!.
  - apply (answered_same_log env w2); [apply settled_log|].
    destruct (Hret ls w2 eq_refl) as [Hans _]. apply Hans.
    exact (answered_by env r0 w response first H0 Hm).
  - exact Hinv.
  - rewrite Hex. reflexivity.
Qed.

(** With a caller token, an API key and a model that, from this
    request on, always answers with a message whose tool calls parse,
    [POST] answers with status 200. *)
Lemma POST_returns (req : ChatRequest) (w : World) :
  is_Some (truthy (userToken req)) ->
  is_Some (truthy (OPENROUTER_API_KEY (process_env env))) ->
  (forall n r, (length (lm_log w) <= n)%nat ->
      exists data m,
        openRouter env n r = LMResponse data /\ lm_message data = Some m
        /\ Forall parses (pending m)) ->
  exists id msg used,
    fst (POST env (inr req) w)
    = {| status := 200; body := ChatBody id msg used |}.
Proof.
  intros [token Htoken] [k Hkey] Hlm.
  simpl. rewrite handle_cases, Htoken, Hkey. cbv zeta.
  destruct (Hlm (length (lm_log w)) (first_request env req w) (le_n _))
    as [data [first [Hr [Hm Hp]]]].
  rewrite Hr, Hm.
  destruct (tool_loop_returns env (getFunctions env (userToken req))
              (quiet_funcs (userToken req))
              (lm_model (first_request env req w))
              (lm_messages (first_request env req w)) (length (lm_log w)) 5 Hlm
              (loop_start data first) (log_lm (first_request env req w) w))
    as [ls [w2 Hloop]].
  - cbn [lm_log log_lm]. rewrite length_app. lia.
  - exact Hp.
  - rewrite Hloop. eexists _, _, _. reflexivity.
Qed.

(** A call of the model that fails, the first or a later one, ends the
    request: [POST] answers with the error of that call. *)
Lemma POST_failure (req : str + ChatRequest) (w : World) :
  exists new,
    lm_log (snd (POST env req w)) = lm_log w ++ new
    /\ forall i r msg resp,
        new !! i = Some r ->
        openRouter env (length (lm_log w) + i) r = LMFailure msg resp ->
        fst (POST env req w) = error_response (AxiosError msg resp).
Proof.
  assert (Hnone : forall (x : HttpResponse),
             exists new : list LMRequest,
               lm_log (snd (x, w)) = lm_log w ++ new
               /\ forall i r msg resp,
                   new !! i = Some r ->
                   openRouter env (length (lm_log w) + i) r = LMFailure msg resp ->
                   fst (x, w) = error_response (AxiosError msg resp)).
  { intros x. exists []. rewrite app_nil_r. split; [reflexivity|].
    intros i r msg resp H. destruct i; discriminate. }
  destruct req as [message|r]; simpl; [apply Hnone|].
  rewrite handle_cases.
  destruct (truthy (userToken r)) as [token|]; [|apply Hnone].
  destruct (truthy (OPENROUTER_API_KEY (process_env env))); [|apply Hnone].
  cbv zeta. set (r0 := first_request env r w).
  destruct (openRouter env (length (lm_log w)) r0) as [response|msg0 resp0] eqn:H0.
  2:{ exists [r0]. split; [reflexivity|]. intros i r' msg resp Hi Hfail.
      destruct i as [|i]; [|destruct i; discriminate].
      injection Hi as <-. rewrite Nat.add_0_r in Hfail.
      cbn [fst]. congruence. }
  assert (Hfirst : forall i r' msg resp (rest : list LMRequest),
             (r0 :: rest) !! i = Some r' ->
             openRouter env (length (lm_log w) + i) r' = LMFailure msg resp ->
             exists i', i = S i' /\ rest !! i' = Some r').
  { intros i r' msg resp rest Hi Hfail. destruct i as [|i].
    - injection Hi as <-. rewrite Nat.add_0_r in Hfail. congruence.
    - exists i. split; [reflexivity | exact Hi]. }
  destruct (lm_message response) as [first|] eqn:Hm.
  2:{ exists [r0]. split; [reflexivity|]. intros i r' msg resp Hi Hfail.
      destruct (Hfirst _ _ _ _ _ Hi Hfail) as [i' [-> Hi']].
      destruct i'; discriminate. }
  destruct (tool_loop_failure env (getFunctions env (userToken r))
              (quiet_funcs (userToken r)) (lm_model r0) (lm_messages r0) 5
              (loop_start response first) (log_lm r0 w))
    as [new [Hlog Hfail']].
  assert (Hlen : length (lm_log (log_lm r0 w)) = S (length (lm_log w))).
  { cbn [lm_log log_lm]. rewrite length_app. simpl. lia. }
  exists (r0 :: new). split.
  - destruct (tool_loop _ _ _ _ _ _ _) as [[ls|e] w2]; cbn [fst snd] in *;
      try rewrite settled_log; rewrite Hlog; cbn [lm_log log_lm];
      rewrite <- app_assoc; reflexivity.
  - intros i r' msg resp Hi Hfail.
    destruct (Hfirst _ _ _ _ _ Hi Hfail) as [i' [-> Hi']].
    specialize (Hfail' i' r' msg resp Hi'). rewrite Hlen in Hfail'.
    replace (S (length (lm_log w)) + i')%nat
      with (length (lm_log w) + S i')%nat in Hfail' by lia.
    specialize (Hfail' Hfail).
    destruct (tool_loop _ _ _ _ _ _ _) as [[ls|e] w2]; cbn [fst] in *;
      [discriminate|]. congruence.
Qed.

(** The names [funcs] has nothing under. *)
Lemma getFunctions_None (userToken : option str) (name : str) :
  getFunctions env userToken name = None
  <-> ~ In name (tool_names ++ inherited_names).
Proof.
  assert (Hex : getFunctions env userToken name = None
                <-> existsb (str_eqb name) (tool_names ++ inherited_names) = false).
  { unfold getFunctions, inherited, tool_names, inherited_names.
    cbn [app existsb].
    repeat match goal with
           | |- context [if str_eqb name ?x then _ else _] =>
               destruct (str_eqb name x)
           end; cbn [orb]; try (split; discriminate).
    destruct (existsb (str_eqb name) throwing_members);
      split; (discriminate || reflexivity). }
  rewrite Hex. split.
  - intros Hf Hin.
    assert (existsb (str_eqb name) (tool_names ++ inherited_names) = true)
      as Ht; [|congruence].
    apply existsb_exists. exists name. split; [exact Hin | apply str_eqb_refl].
  - intros Hnot. destruct (existsb _ _) eqn:He; [|reflexivity].
    apply existsb_exists in He as [x [Hin Hx]].
    apply str_eqb_eq in Hx. subst x. contradiction.
Qed.

(** *** The context window *)

Lemma slice_last_suffix {A} (k : Z) (l : list A) :
  exists dropped, l = dropped ++ slice_last k l.
Proof.
  exists (firstn (length l - Z.to_nat k) l). unfold slice_last.
  symmetry. apply firstn_skipn.
Qed.

Lemma slice_last_length {A} (k : Z) (l : list A) :
  length (slice_last k l) = Nat.min (Z.to_nat k) (length l).
Proof. unfold slice_last. rewrite length_skipn. lia. Qed.

Lemma leading_system_length (joined : list Message) :
  (length (leading_system joined) <= 1)%nat.
Proof.
  unfold leading_system. destruct joined as [|m rest]; [simpl; lia|].
  destruct (is_system m); simpl; lia.
Qed.

Lemma requestMessages_bound (maxc : Z) (base msgs : list Message) :
  (2 <= maxc)%Z ->
  (Z.of_nat (length (requestMessages maxc base msgs)) <= maxc)%Z.
Proof.
  intros Hmax. unfold requestMessages.
  destruct (Z.leb_spec (Z.of_nat (length (base ++ msgs))) maxc) as [Hle|Hgt];
    [exact Hle|].
  rewrite length_app, slice_last_length.
  pose proof (leading_system_length (base ++ msgs)). lia.
Qed.

Lemma requestMessages_system (maxc : Z) (base msgs : list Message)
    (m : Message) (rest : list Message) :
  base ++ msgs = m :: rest -> is_system m = true ->
  exists rest', requestMessages maxc base msgs = m :: rest'.
Proof.
  intros Hj Hm. unfold requestMessages. rewrite Hj.
  destruct (_ <=? _)%Z; [exists rest; reflexivity|].
  unfold leading_system. rewrite Hm. eexists. reflexivity.
Qed.

Lemma requestMessages_trimmed (maxc : Z) (base msgs : list Message) :
  (maxc < Z.of_nat (length (base ++ msgs)))%Z ->
  exists dropped kept,
    base ++ msgs = dropped ++ kept
    /\ requestMessages maxc base msgs = leading_system (base ++ msgs) ++ kept
    /\ length kept
       = Nat.min
           (Z.to_nat (Z.max 1 (maxc - Z.of_nat (length (leading_system (base ++ msgs))))))
           (length (base ++ msgs)).
Proof.
  intros Hgt. unfold requestMessages.
  destruct (Z.leb_spec (Z.of_nat (length (base ++ msgs))) maxc) as [Hle|_]; [lia|].
  destruct (slice_last_suffix
              (Z.max 1 (maxc - Z.of_nat (length (leading_system (base ++ msgs)))))
              (base ++ msgs)) as [dropped Hd].
  eexists dropped, _. split_and!; [exact Hd | reflexivity | apply slice_last_length].
Qed.

Lemma requestMessages_whole (maxc : Z) (base msgs : list Message) :
  (Z.of_nat (length (base ++ msgs)) <= maxc)%Z ->
  requestMessages maxc base msgs = base ++ msgs.
Proof.
  intros Hle. unfold requestMessages.
  destruct (Z.leb_spec (Z.of_nat (length (base ++ msgs))) maxc); [reflexivity | lia].
Qed.
End Handler.

#[local] Existing Instance rt0.

(** C3 (as amended).  Inside a round, what goes wrong with one tool call
    is answered to the model: a name [funcs] has nothing under (any name
    but the three tools and the members of [Object.prototype]) and an
    executor that throws are answered with an error payload as the tool
    result of that call, and the round goes on; the tool results of a
    round go to the model in the follow-up.  When the caller has a
    token, the key is set and every call of the model from this request
    on succeeds with a message whose tool calls have arguments that
    parse, the handler answers with status 200, whatever the Content
    Backend does.  A call of the model that fails, the first or a later
    one, is not recovered: the handler answers with the error of that
    call, under the upstream status, or 500 when there is none. *)
Theorem tool_errors_are_recovered {rt : Runtime} (env : Env)
    (req : ChatRequest) (w : World) :
  let funcs := getFunctions env (userToken req) in
  let answer := POST env (inr req) w in
  (forall name, funcs name = None <-> ~ In name (tool_names ++ inherited_names))
  /\ (forall tc st w0 args,
        let key := tc_name tc ++ lit "|" ++ JSON_stringify args in
        JSON_parse (or_default (Some (tc_arguments tc)) (lit "{}")) = Some args ->
        roundMemo st !! key = None ->
        (funcs (tc_name tc) = None ->
         run_tool_call funcs tc st w0
         = (Returned
              (push_result
                 (tool_message (tc_id tc) (tc_name tc)
                    (stringify_error (lit "Unsupported tool: " ++ tc_name tc)))
                 st), w0))
        /\ (forall f e w1,
              funcs (tc_name tc) = Some f ->
              f args w0 = (Threw e, w1) ->
              run_tool_call funcs tc st w0
              = (Returned (push_result (error_message tc e) st),
                 log_invoked key (tc_name tc) None w1)))
  /\ (forall model request toolCalls ls st w0 w1,
        run_tool_calls funcs toolCalls (new_round (executed ls)) w0
        = (Returned st, w1) ->
        exists rest,
          lm_log (snd (round env funcs model request toolCalls ls w0))
          = lm_log w1
            ++ {| lm_model := model;
                  lm_messages :=
                    request ++ [assistantMessage ls] ++ toolResults st;
                  lm_tool_choice := auto |} :: rest)
  /\ (is_Some (truthy (userToken req)) ->
      is_Some (truthy (OPENROUTER_API_KEY (process_env env))) ->
      (forall n r, (length (lm_log w) <= n)%nat ->
          exists data m,
            openRouter env n r = LMResponse data /\ lm_message data = Some m
            /\ Forall parses (pending m)) ->
      exists id msg used,
        fst answer = {| status := 200; body := ChatBody id msg used |})
  /\ (exists new,
        lm_log (snd answer) = lm_log w ++ new
        /\ forall i r msg resp,
            new !! i = Some r ->
            openRouter env (length (lm_log w) + i) r = LMFailure msg resp ->
            fst answer = error_response (AxiosError msg resp)
            /\ status (fst answer) = upstream_status resp).
Proof.
  intros funcs answer. split_and!.
  - intros name. apply getFunctions_None.
  - intros tc st w0 args key Hargs Hmemo. split.
    + intros Hf. rewrite run_tool_call_cases, Hargs. cbv zeta.
      fold key. rewrite Hmemo, Hf. reflexivity.
    + intros f e w1 Hf Hthrow. rewrite run_tool_call_cases, Hargs.
      cbv zeta. fold key. rewrite Hmemo, Hf, Hthrow. reflexivity.
  - intros model request toolCalls ls st w0 w1.
    apply round_feeds_back.
  - apply POST_returns.
  - destruct (POST_failure env (inr req) w) as [new [Hlog Hfail]].
    exists new. split; [exact Hlog|].
    intros i r msg resp Hi Hr. subst answer.
    rewrite (Hfail i r msg resp Hi Hr). split; reflexivity.
Qed.

(** C3, as stated, fails: the first call of the model succeeds and asks
    for a search, the search succeeds, the follow-up call is refused with
    503, and the handler answers 503 with the upstream error, not 200
    with a fallback text. *)
Lemma followup_failure_is_fatal :
  fst (POST env_followup_down (inr (ask "find ideas about bike lanes")) world0)
  = {| status := 503; body := ErrorBody (lit "Service Unavailable") |}.
Proof. vm_compute. reflexivity. Qed.

(** The backend is down: the search throws, the model is told, and the
    handler answers 200. *)
Lemma tool_errors_are_recovered_witness :
  status (fst (POST env_backend_down (inr (ask "find ideas about bike lanes"))
                 world0)) = 200%Z.
Proof.
  destruct (tool_errors_are_recovered env_backend_down
              (ask "find ideas about bike lanes") world0)
    as [_ [_ [_ [H200 _]]]].
  destruct H200 as [id [msg [used H]]].
  - eexists. reflexivity.
  - eexists. reflexivity.
  - intros n r _. destruct n as [|n]; eexists _, _; (split_and!; [reflexivity..|]).
    + repeat constructor. eexists. reflexivity.
    + constructor.
  - rewrite H. reflexivity.
Defined.

(** C4: the code does not do this.  A tool call whose arguments do not
    parse makes [JSON.parse] throw outside the [try] of the loop: no tool
    result is made for it, the calls after it are not run, no follow-up is
    sent, and the handler answers with status 500 and the message of the
    [SyntaxError]. *)
Theorem unparsable_arguments_abort {rt : Runtime} (env : Env)
    (req : ChatRequest) (w : World) (data : LMData) (first : Message)
    (pre post : list ToolCall) (tc : ToolCall) :
  is_Some (truthy (userToken req)) ->
  is_Some (truthy (OPENROUTER_API_KEY (process_env env))) ->
  openRouter env (length (lm_log w)) (first_request env req w) = LMResponse data ->
  lm_message data = Some first ->
  pending first = pre ++ tc :: post ->
  Forall parses pre ->
  ~ parses tc ->
  fst (POST env (inr req) w)
  = {| status := 500; body := ErrorBody (syntax_error (tc_arguments tc)) |}
  /\ lm_log (snd (POST env (inr req) w)) = lm_log w ++ [first_request env req w].
Proof.
  intros [token Htoken] [k Hkey] Hr Hm Hp Hpre Hbad.
  simpl. rewrite handle_cases, Htoken, Hkey. cbv zeta. rewrite Hr, Hm.
  destruct (tool_loop_throws env (getFunctions env (userToken req))
              (quiet_funcs env (userToken req))
              (lm_model (first_request env req w))
              (lm_messages (first_request env req w)) 4
              (loop_start data first) (log_lm (first_request env req w) w)
              pre post tc Hp Hpre Hbad) as [w' [Hloop Hlog]].
  rewrite Hloop. split; [reflexivity | exact Hlog].
Qed.

Lemma unparsable_arguments_abort_witness :
  fst (POST env_bad_arguments (inr (ask "find ideas about bike lanes")) world0)
  = {| status := 500; body := ErrorBody (lit "Unexpected end of JSON input") |}.
Proof.
  refine (proj1 (unparsable_arguments_abort env_bad_arguments
                   (ask "find ideas about bike lanes") world0 _ _
                   [] [call "call_2" "find_content" find_text]
                   (call "call_1" "find_content" (lit "{"))
                   _ _ eq_refl eq_refl eq_refl _ _)).
  - eexists. reflexivity.
  - eexists. reflexivity.
  - constructor.
  - intros [args Hargs]. vm_compute in Hargs. discriminate.
Defined.

(** The scenario of the specification: one search, two items found, both
    placeholder links filled; two requests to the model, one search and
    the token decrement to the backend. *)
Example bike_lanes :
  let out := POST env_search (inr (ask "find ideas about bike lanes")) world0 in
  fst out
  = {| status := 200;
       body :=
         ChatBody (lit "c0ffee")
           (text_message assistant
              "Found [Protected bike lanes](https://needpedia.org/posts/7) and [Bike lane map](https://needpedia.org/posts/9).")
           0 |}
  /\ length (lm_log (snd out)) = 2%nat
  /\ backend_log (snd out)
     = [SearchPosts (lit "idea") (lit "bike lanes") (Some (lit "u-1"));
        DecreaseTokens (lit "u-1") 1].
Proof. vm_compute. split_and!; reflexivity. Qed.

(** C5 (as amended).  Whatever the model and the backend do, [POST]
    ends, having asked the model at most its first request, five
    follow-ups (one for each round) and one forced text.  When it answers
    with a message, the status is 200 and the text of the answer is not
    empty: it is the text of the last message the model sent with its
    placeholder links filled, or, when that text is missing, empty or
    white space, one of the two fallback sentences.  It answers with a
    message whenever the caller has a token, the key is set and every
    call of the model succeeds with a message whose tool calls have
    arguments that parse; and when a call of the model fails, the caller
    gets the error of that call and no text of the assistant. *)
Theorem bounded_rounds {rt : Runtime} (env : Env) (req : str + ChatRequest)
    (w : World) :
  exists response w' new,
    POST env req w = (response, w')
    /\ lm_log w' = lm_log w ++ new
    /\ (length (List.filter is_auto new) <= 1 + 5)%nat
    /\ (length (List.filter is_forced new) <= 1)%nat
    /\ (forall id msg used,
          body response = ChatBody id msg used ->
          status response = 200%Z
          /\ exists last executed c,
              answered env w' last
              /\ msg = finalize last executed
              /\ content msg = Some c
              /\ c <> []
              /\ (blank last = false ->
                  exists c0,
                    content last = Some c0
                    /\ c = replacePlaceholderLinksWithToolUrls c0 executed)
              /\ (blank last = true ->
                  c = match pending last with
                      | [] => FALLBACK_PLAIN
                      | _ => FALLBACK_TOOLS
                      end))
    /\ (forall r,
          req = inr r ->
          is_Some (truthy (userToken r)) ->
          is_Some (truthy (OPENROUTER_API_KEY (process_env env))) ->
          (forall n r', (length (lm_log w) <= n)%nat ->
              exists data m,
                openRouter env n r' = LMResponse data /\ lm_message data = Some m
                /\ Forall parses (pending m)) ->
          exists id msg used,
            response = {| status := 200; body := ChatBody id msg used |})
    /\ (forall i r msg resp,
          new !! i = Some r ->
          openRouter env (length (lm_log w) + i) r = LMFailure msg resp ->
          response
          = {| status := upstream_status resp;
               body := body (error_response (AxiosError msg resp)) |}
          /\ forall id m used, body response <> ChatBody id m used).
Proof.
  destruct (POST env req w) as [response w'] eqn:HP.
  exists response, w'.
  destruct (POST_requests env req w) as [new [Hlog Hnew]].
  rewrite HP in Hlog. cbn [snd] in Hlog.
  exists new. split; [reflexivity|]. split; [exact Hlog|].
  assert (Hcount : (length (List.filter is_auto new) <= 1 + 5)%nat
                   /\ (length (List.filter is_forced new) <= 1)%nat).
  { destruct Hnew as [->|[r [followups [_ [-> [Hauto [Hforced _]]]]]]].
    - simpl. lia.
    - cbn [List.filter]. unfold is_forced at 1.
      change (is_auto (first_request env r w)) with true.
      cbn [negb length]. lia. }
  destruct Hcount as [Hauto Hforced].
  split; [exact Hauto|]. split; [exact Hforced|]. split_and!.
  - intros id msg used Hbody.
    pose proof (POST_answer env req w id msg used) as Hans.
    rewrite HP in Hans. cbn [fst snd] in Hans.
    destruct (Hans Hbody) as [Hstatus [last [executed [Hmsg Hlast]]]].
    split; [exact Hstatus|].
    destruct (finalize_content last executed) as [c [Hc [Hne [Hkept Hfall]]]].
    exists last, executed, c. rewrite Hmsg.
    split_and!; try assumption. reflexivity.
  - intros r -> Htoken Hkey Hlm.
    destruct (POST_returns env r w Htoken Hkey Hlm) as [id [msg [used H]]].
    rewrite HP in H. cbn [fst] in H. eexists _, _, _. exact H.
  - intros i r msg resp Hi Hfail.
    destruct (POST_failure env req w) as [new' [Hlog' Hfail']].
    rewrite HP in Hlog', Hfail'. cbn [fst snd] in Hlog', Hfail'.
    assert (new' = new) as ->.
    { rewrite Hlog in Hlog'. apply app_inv_head in Hlog'. congruence. }
    rewrite (Hfail' i r msg resp Hi Hfail).
    split; [reflexivity | discriminate].
Qed.

(** C5, as stated, fails: the model asks for a search in every answer it
    gives, its third call is refused with 429, and the caller gets that
    error, not the last text of the assistant or a fallback sentence. *)
Lemma endless_calls_can_end_in_error :
  let out := POST env_rate_limited (inr (ask "find ideas about bike lanes")) world0 in
  fst out = {| status := 429; body := ErrorBody (lit "Rate limit exceeded") |}
  /\ length (lm_log (snd out)) = 3%nat.
Proof. vm_compute. split; reflexivity. Qed.

(** The model asks for a search in every answer, and every call
    succeeds: the caller gets an answer. *)
Lemma bounded_rounds_witness :
  exists id msg used,
    fst (POST env_endless (inr (ask "find ideas about bike lanes")) world0)
    = {| status := 200; body := ChatBody id msg used |}.
Proof.
  destruct (bounded_rounds env_endless (inr (ask "find ideas about bike lanes"))
              world0) as [response [w' [new [HP [_ [_ [_ [_ [Hok _]]]]]]]]].
  destruct (Hok (ask "find ideas about bike lanes") eq_refl)
    as [id [msg [used H]]].
  - eexists. reflexivity.
  - eexists. reflexivity.
  - intros n r _. eexists _, _. split_and!; [reflexivity | reflexivity |].
    repeat constructor. eexists. reflexivity.
  - exists id, msg, used. rewrite HP. exact H.
Defined.

(** The model asks for a search in every answer, without a text: five
    rounds, six requests, and the fallback sentence. *)
Example endless_tool_calls :
  let out := POST env_endless (inr (ask "find ideas about bike lanes")) world0 in
  length (lm_log (snd out)) = 6%nat
  /\ status (fst out) = 200%Z
  /\ exists id msg used,
      body (fst out) = ChatBody id msg used /\ content msg = Some FALLBACK_TOOLS.
Proof.
  vm_compute. split_and!; try reflexivity. eexists _, _, _. split; reflexivity.
Qed.

(** C6 (as amended).  The messages of the first request to the model are
    never more than the configured maximum when that maximum is at least
    2; a leading system message stays at the front; and when the history
    is longer than the maximum, what is sent is the leading system
    message and the most recent messages, the ones between being dropped.
    A follow-up request is not cut: it carries the messages of the first
    request, then the assistant message and a tool result for each of its
    tool calls. *)
Theorem context_window {rt : Runtime} (env : Env) (req : ChatRequest)
    (w : World) :
  let request := lm_messages (first_request env req w) in
  let joined := joined_history env req w in
  let maxc := MAX_CONTEXT_MESSAGES env in
  ((2 <= maxc)%Z -> (Z.of_nat (length request) <= maxc)%Z)
  /\ (forall m rest,
        joined = m :: rest -> is_system m = true ->
        exists rest', request = m :: rest')
  /\ ((Z.of_nat (length joined) <= maxc)%Z -> request = joined)
  /\ ((maxc < Z.of_nat (length joined))%Z ->
      exists dropped kept,
        joined = dropped ++ kept
        /\ request = leading_system joined ++ kept
        /\ length kept
           = Nat.min
               (Z.to_nat (Z.max 1 (maxc - Z.of_nat (length (leading_system joined)))))
               (length joined))
  /\ exists new,
      lm_log (snd (POST env (inr req) w)) = lm_log w ++ new
      /\ forall r, In r new -> lm_messages r = request \/ followup_of request r.
Proof.
  intros request joined maxc. split_and!.
  - apply requestMessages_bound.
  - apply requestMessages_system.
  - apply requestMessages_whole.
  - apply requestMessages_trimmed.
  - destruct (POST_requests env (inr req) w) as [new [Hlog Hnew]].
    exists new. split; [exact Hlog|].
    destruct Hnew as [->|[r [followups [Hreq [-> [_ [_ Hshape]]]]]]].
    + intros r [].
    + injection Hreq as <-. intros r0 [<-|Hin].
      * left. reflexivity.
      * right. rewrite List.Forall_forall in Hshape. apply Hshape. exact Hin.
Qed.

(** C6, as stated, fails: with the default maximum of 16 and a request of
    fifteen messages, the first request carries 16 messages and the
    follow-up, which adds the assistant message and the tool result, 18. *)
Lemma followup_exceeds_context :
  MAX_CONTEXT_MESSAGES env_search = 16%Z
  /\ List.map (fun r => length (lm_messages r))
       (lm_log (snd (POST env_search (inr long_request) world0)))
     = [16; 18]%nat.
Proof. vm_compute. split; reflexivity. Qed.

Lemma context_window_witness :
  (Z.of_nat (length (lm_messages (first_request env_search long_request world0)))
   <= 16)%Z.
Proof.
  destruct (context_window env_search long_request world0) as [Hbound _].
  apply Hbound. vm_compute. discriminate.
Defined.

(** C8.  A request without a user token is answered with 401 before
    anything is asked of the model.  With a token but no API key, the
    answer is 500, again before anything is asked of the model.  With
    both, when the first call of the model fails, the answer carries the
    status and the error message of the upstream response (500 and the
    message of the failure when there is no upstream response), and it is
    not 200 as long as the upstream status is not. *)
Theorem fatal_errors {rt : Runtime} (env : Env) (req : ChatRequest) (w : World) :
  (truthy (userToken req) = None ->
   POST env (inr req) w
   = ({| status := 401;
         body := ErrorBody (lit "Unauthenticated: missing user token") |}, w))
  /\ (is_Some (truthy (userToken req)) ->
      truthy (OPENROUTER_API_KEY (process_env env)) = None ->
      POST env (inr req) w
      = ({| status := 500;
            body := ErrorBody (lit "OpenRouter API key is not configured") |}, w))
  /\ (is_Some (truthy (userToken req)) ->
      is_Some (truthy (OPENROUTER_API_KEY (process_env env))) ->
      forall message response,
        openRouter env (length (lm_log w)) (first_request env req w)
        = LMFailure message response ->
        let answer := fst (POST env (inr req) w) in
        lm_log (snd (POST env (inr req) w)) = lm_log w ++ [first_request env req w]
        /\ (forall s e,
              response = Some {| ax_status := s; ax_error := Some (ErrorString e) |} ->
              s <> 0%Z ->
              answer = {| status := s; body := ErrorBody e |})
        /\ (forall s e,
              response
              = Some {| ax_status := s; ax_error := Some (ErrorObject (Some e)) |} ->
              s <> 0%Z -> e <> [] ->
              answer = {| status := s; body := ErrorBody e |})
        /\ (response = None ->
            answer = {| status := 500; body := ErrorBody message |})
        /\ ((forall r, response = Some r -> ax_status r <> 200%Z) ->
            status answer <> 200%Z)).
Proof.
  split_and!.
  - intros Htoken. simpl. rewrite handle_cases, Htoken. reflexivity.
  - intros [token Htoken] Hkey. simpl. rewrite handle_cases, Htoken, Hkey.
    reflexivity.
  - intros [token Htoken] [k Hkey] message response Hr answer.
    assert (HP : POST env (inr req) w
                 = (error_response (AxiosError message response),
                    log_lm (first_request env req w) w)).
    { simpl. rewrite handle_cases, Htoken, Hkey. cbv zeta. rewrite Hr. reflexivity. }
    subst answer. rewrite HP. cbn [fst snd]. split_and!.
    + reflexivity.
    + intros s e -> Hs. unfold error_response. cbn [ax_status ax_error].
      destruct (Z.eqb_spec s 0); [congruence | reflexivity].
    + intros s e -> Hs He. unfold error_response. cbn [ax_status ax_error].
      destruct (Z.eqb_spec s 0); [congruence|].
      destruct e; [congruence | reflexivity].
    + intros ->. reflexivity.
    + intros Hup. unfold error_response. cbn [status].
      destruct response as [r|]; [|discriminate].
      specialize (Hup r eq_refl).
      destruct (Z.eqb_spec (ax_status r) 0); [discriminate | exact Hup].
Qed.

(** No token; a token and no key; and a first call that is refused with
    503. *)
Lemma fatal_errors_witness :
  status (fst (POST env_search
                 (inr {| messages := []; conversationId := None; userToken := None |})
                 world0)) = 401%Z
  /\ status (fst (POST (env_of (scripted []) (fun _ _ => Fetched unavailable))
                    (inr (ask "hello")) world0)) = 500%Z.
Proof.
  destruct (fatal_errors env_search
              {| messages := []; conversationId := None; userToken := None |}
              world0) as [H401 _].
  destruct (fatal_errors (env_of (scripted []) (fun _ _ => Fetched unavailable))
              (ask "hello") world0) as [_ [_ Hfirst]].
  split.
  - rewrite (H401 eq_refl). reflexivity.
  - destruct Hfirst with (message := lit "script exhausted")
                         (response := @None AxiosResponse) as [_ [_ [_ [Hnone _]]]].
    + eexists. reflexivity.
    + eexists. reflexivity.
    + reflexivity.
    + rewrite (Hnone eq_refl). reflexivity.
Defined.

(** C7.  The text of an answer is cut at its placeholder links, the
    texts [[label](#)] with a label that is not empty and has no closing
    bracket, leftmost first; the [n]-th placeholder link gets the [n]-th
    of the links collected, which are the links that are there and not
    blank of the items of the results of [find_content], in the order
    the searches were executed in and of their items; a placeholder link
    beyond the last collected link stays as it is, and so does the whole
    text when no link was collected.  The handler fills the text of its
    answer in this way with the results of the executor calls of the
    request that returned: a tool call whose executor returns adds its
    name and result to them, and a call answered from the memo, a name
    [funcs] has nothing under and an executor that throws add nothing. *)
Theorem placeholder_links_by_position {rt : Runtime} (env : Env) :
  (forall text results,
      replacePlaceholderLinksWithToolUrls text results
      = fill (search_links results) 0 (pieces text))
  /\ (forall s label n,
        placeholder_at s = Some (label, n)
        <-> (label <> []
             /\ Forall (fun c => c <> 93) label
             /\ n = length (render (Placeholder label))
             /\ exists after, s = render (Placeholder label) ++ after))
  /\ (forall text, concat (List.map render (pieces text)) = text)
  /\ (forall links n ps, (length links <= n)%nat ->
        fill links n ps = concat (List.map render ps))
  /\ (forall text results,
        search_links results = [] ->
        replacePlaceholderLinksWithToolUrls text results = text)
  /\ (forall req w id msg used,
        body (fst (POST env req w)) = ChatBody id msg used ->
        exists last new,
          answered env (snd (POST env req w)) last
          /\ invoked (snd (POST env req w)) = invoked w ++ new
          /\ content msg
             = Some (fill (search_links (returned_results new)) 0
                       (pieces (answer_text last))))
  /\ (forall userToken tc st w0 args,
        let funcs := getFunctions env userToken in
        let key := tc_name tc ++ lit "|" ++ JSON_stringify args in
        JSON_parse (or_default (Some (tc_arguments tc)) (lit "{}")) = Some args ->
        (forall f result w1,
            roundMemo st !! key = None ->
            funcs (tc_name tc) = Some f ->
            f args w0 = (Returned result, w1) ->
            exists st',
              run_tool_call funcs tc st w0
              = (Returned st', log_invoked key (tc_name tc) (Some result) w1)
              /\ invoked w1 = invoked w0
              /\ executedToolResults st'
                 = executedToolResults st
                   ++ [{| er_name := tc_name tc; er_result := result |}])
        /\ (is_Some (roundMemo st !! key)
            \/ funcs (tc_name tc) = None
            \/ (exists f e w1,
                   funcs (tc_name tc) = Some f /\ f args w0 = (Threw e, w1)) ->
            exists st' w',
              run_tool_call funcs tc st w0 = (Returned st', w')
              /\ returned_results (invoked w') = returned_results (invoked w0)
              /\ executedToolResults st' = executedToolResults st)).
Proof.
  split_and!; cycle 6.
  { intros userToken tc st w0 args funcs key Hargs. split.
    - intros f result w1 Hmemo Hf Hret.
      rewrite run_tool_call_cases, Hargs. cbv zeta. fold key.
      rewrite Hmemo, Hf, Hret. eexists. split_and!; [reflexivity | | reflexivity].
      destruct (quiet_funcs env userToken _ _ args Hf w0) as [_ Hinv].
      rewrite Hret in Hinv. exact Hinv.
    - intros Hcase. rewrite run_tool_call_cases, Hargs. cbv zeta. fold key.
      destruct (roundMemo st !! key) as [cached|] eqn:Hmemo.
      { eexists _, _. split_and!; reflexivity. }
      destruct Hcase as [[x Hx]|[Hnone|[f [e [w1 [Hf Hthrow]]]]]]; [discriminate| |].
      + rewrite Hnone. eexists _, _. split_and!; reflexivity.
      + rewrite Hf, Hthrow. eexists _, _. split_and!; [reflexivity | | reflexivity].
        destruct (quiet_funcs env userToken _ _ args Hf w0) as [_ Hinv].
        rewrite Hthrow in Hinv. cbn [snd] in Hinv.
        cbn [invoked log_invoked]. rewrite returned_results_app, Hinv.
        cbn. rewrite app_nil_r. reflexivity. }
  - intros text results. rewrite <- LinkProofs.collect_links_search_links.
    apply LinkProofs.replace_by_position.
  - apply LinkProofs.placeholder_at_iff.
  - intros text. unfold pieces. apply LinkProofs.pieces_from_text.
  - intros links n ps Hn. apply LinkProofs.fill_out_of_links. exact Hn.
  - intros text results Hnone.
    unfold replacePlaceholderLinksWithToolUrls.
    rewrite LinkProofs.collect_links_search_links, Hnone.
    destruct text; reflexivity.
  - intros req w id msg used Hbody.
    destruct (POST_answer_executed env req w id msg used Hbody)
      as [last [new [Hans [Hinv Hmsg]]]].
    exists last, new. split_and!; [exact Hans | exact Hinv |].
    rewrite Hmsg. unfold finalize. cbn [content with_content].
    rewrite LinkProofs.replace_by_position,
      LinkProofs.collect_links_search_links.
    do 3 f_equal. unfold answer_text, ensure_content.
    destruct (blank last); reflexivity.
Qed.

End HandlerProofs.

(** ** The conversation store *)

Module MemoryProofs.
Import StringProofs.

Lemma slice_last_app {A} (k : Z) (x b : list A) :
  slice_last k (slice_last k x ++ b) = slice_last k (x ++ b).
Proof.
  unfold slice_last. rewrite !length_app, length_skipn.
  set (n := Z.to_nat k).
  destruct (Nat.le_gt_cases (length x) n) as [Hle|Hgt].
  - replace (length x - n)%nat with 0%nat by lia.
    cbn [skipn]. rewrite Nat.sub_0_r. reflexivity.
  - replace (length x - (length x - n) + length b - n)%nat
      with (length b) by lia.
    rewrite !skipn_app, length_skipn, skipn_skipn.
    replace (length b - (length x - (length x - n)))%nat
      with (length b - n)%nat by lia.
    replace (length x + length b - n - length x)%nat
      with (length b - n)%nat by lia.
    f_equal.
    destruct (Nat.le_gt_cases (length b) n) as [Hb|Hb].
    + f_equal. lia.
    + rewrite !skipn_all2 by lia. reflexivity.
Qed.

Lemma last_skipn {A} (n : nat) (l : list A) :
  (n < length l)%nat -> last (skipn n l) = last l.
Proof.
  revert n. induction l as [|a l IH]; intros n Hn; [simpl in Hn; lia|].
  destruct n as [|n]; [reflexivity|].
  cbn [skipn length] in *. rewrite IH by lia.
  destruct l; [simpl in Hn; lia | reflexivity].
Qed.

(** A cut to the last [k], [k] at least 1, keeps the last element. *)
Lemma slice_last_last {A} (k : Z) (l : list A) :
  (1 <= k)%Z -> last (slice_last k l) = last l.
Proof.
  intros Hk. unfold slice_last. destruct l as [|a l]; [reflexivity|].
  apply last_skipn. cbn [length]. lia.
Qed.

(** X1.  [append] stores what it returns, and [get] reads it back: the
    end of the old history followed by the new messages, as long as the
    bound allows when the bound is positive.  No other conversation
    changes. *)
Theorem append_then_get (id : str) (msgs : list Message) (maxMessages : Z)
    (w : World) :
  let out := store_append id msgs maxMessages w in
  let old := default [] (conversationStore w !! id) in
  exists dropped kept,
    fst out = Returned kept
    /\ store_get id (snd out) = (Returned (Some kept), snd out)
    /\ old ++ msgs = dropped ++ kept
    /\ length kept
       = (if (0 <? maxMessages)%Z
          then Nat.min (Z.to_nat maxMessages) (length old + length msgs)
          else length old + length msgs)%nat
    /\ forall other,
        other <> id ->
        conversationStore (snd out) !! other = conversationStore w !! other.
Proof.
  intros out old. subst out. unfold store_append. fold old.
  cbn [fst snd]. unfold store_get, gets.
  cbn [set_store conversationStore].
  destruct (0 <? maxMessages)%Z.
  - exists (firstn (length (old ++ msgs) - Z.to_nat maxMessages) (old ++ msgs)),
      (slice_last maxMessages (old ++ msgs)).
    split_and!.
    + reflexivity.
    + rewrite lookup_insert_eq. reflexivity.
    + unfold slice_last. symmetry. apply firstn_skipn.
    + unfold slice_last. rewrite length_skipn, length_app. lia.
    + intros other Hne. apply lookup_insert_ne. congruence.
  - exists [], (old ++ msgs).
    split_and!.
    + reflexivity.
    + rewrite lookup_insert_eq. reflexivity.
    + reflexivity.
    + apply length_app.
    + intros other Hne. apply lookup_insert_ne. congruence.
Qed.

(** X2.  Two appends to a conversation under one bound leave the store
    as one append of the two batches does, and return the same history:
    cutting after each batch loses no message that cutting once keeps. *)
Theorem append_append (id : str) (a b : list Message) (maxMessages : Z)
    (w : World) :
  store_append id b maxMessages (snd (store_append id a maxMessages w))
  = store_append id (a ++ b) maxMessages w.
Proof.
  unfold store_append. cbn [snd set_store conversationStore].
  rewrite lookup_insert_eq.
  set (old := default [] (conversationStore w !! id)).
  destruct (0 <? maxMessages)%Z;
    change (default [] (Some ?l)) with l;
    unfold set_store;
    cbn [toolResultCache conversationStore lm_log backend_log clock_reads invoked];
    rewrite insert_insert_eq.
  - rewrite slice_last_app, <- app_assoc. reflexivity.
  - rewrite <- app_assoc. reflexivity.
Qed.

End MemoryProofs.

(** ** The search and its results *)

Module SearchProofs.
Import Scenario StringProofs CacheProofs.

Lemma or_default_not_empty (o : option str) (d : str) :
  d <> [] -> or_default o d <> [].
Proof. intros Hd. destruct o as [[|c s]|]; cbn [or_default]; congruence. Qed.

Lemma truthy_not_empty (o : option str) : truthy o <> Some [].
Proof. destruct o as [[|c s]|]; cbn [truthy]; congruence. Qed.

Lemma to_item_tidy (postType : str) (item : NeedpediaPost) :
  tidy_item (to_item postType item).
Proof.
  split; cbn [to_item item_title item_link].
  - apply or_default_not_empty. discriminate.
  - pose proof (truthy_not_empty (np_link item)) as Hl.
    pose proof (truthy_not_empty (np_url item)) as Hu.
    destruct (truthy (np_link item)) as [l|]; [exact Hl|].
    destruct (truthy (np_url item)) as [u|]; [exact Hu|].
    apply truthy_not_empty.
Qed.

Section Search.
Context {rt : Runtime} (env : Env).

Lemma find_content_miss_cases (userToken : option str) (q postType key : str)
    (t : Z) (w : World) :
  find_content_miss env userToken q postType key t w
  = let r := SearchPosts postType q (truthy userToken) in
    match fetch env (length (backend_log w)) r with
    | FetchRejected msg => (Threw (JsError msg), log_backend r w)
    | Fetched resp =>
        let p := match r_json resp with Some p => p | None => empty_payload end in
        if r_ok resp then
          let items := List.map (to_item postType) (search_source postType p) in
          (Returned (FindContentResult items),
           set_cache
             (insert key {| expiryMs := (t + 5000)%Z; payload := items |})
             (log_backend r w))
        else (Threw (api_failure resp p), log_backend r w)
    end.
Proof.
  unfold find_content_miss, bind, backend, read_payload, token_header. cbv zeta.
  destruct (fetch env _ _) as [resp|msg]; [|reflexivity].
  destruct (r_ok resp); reflexivity.
Qed.

(** X3.  What a search returns has a title for every item (the title
    of the post, or [Untitled]) and no empty link, whether the items
    come from the backend or from the cache; and the cache holds such
    items only, as long as it did before. *)
Theorem search_items_are_tidy (userToken : option str) (args : FunctionArgs)
    (w : World) :
  tidy_cache w ->
  tidy_cache (snd (find_content env userToken args w))
  /\ forall r,
      fst (find_content env userToken args w) = Returned r ->
      exists items, r = FindContentResult items /\ Forall tidy_item items.
Proof.
  intros Hw.
  destruct (query args) as [q|] eqn:Hq.
  2:{ unfold find_content. rewrite Hq. split; [exact Hw | discriminate]. }
  rewrite (find_content_unfold env userToken args q w Hq). cbv zeta.
  assert (Hmiss : forall postType key t,
             let out := find_content_miss env userToken q postType key t (tick w) in
             tidy_cache (snd out)
             /\ forall r, fst out = Returned r ->
                          exists items, r = FindContentResult items
                                        /\ Forall tidy_item items).
  { intros postType key t. cbv zeta. rewrite find_content_miss_cases. cbv zeta.
    destruct (fetch env _ _) as [resp|msg]; [|split; [exact Hw | discriminate]].
    destruct (r_ok resp); [|split; [exact Hw | discriminate]].
    assert (Htidy : Forall tidy_item
                      (List.map (to_item postType)
                         (search_source postType
                            match r_json resp with
                            | Some p => p
                            | None => empty_payload
                            end))).
    { apply List.Forall_forall. intros i Hi. apply in_map_iff in Hi.
      destruct Hi as [item [<- _]]. apply to_item_tidy. }
    split.
    - intros k e. cbn [snd set_cache toolResultCache log_backend tick].
      destruct (decide (k = key)) as [->|Hne].
      + rewrite lookup_insert_eq. intros H. injection H as <-. exact Htidy.
      + rewrite lookup_insert_ne by congruence. apply Hw.
    - cbn [fst]. intros r H. injection H as <-. eexists. split; [reflexivity|].
      exact Htidy. }
  destruct (toolResultCache w !! cache_key args) as [entry|] eqn:He;
    [|apply Hmiss].
  destruct (_ <? _)%Z; [|apply Hmiss].
  cbn [fst snd]. split; [exact Hw|].
  intros r H. injection H as <-. eexists. split; [reflexivity|].
  exact (Hw _ _ He).
Qed.

(** X4.  A search that fails is not cached: when the executor throws,
    the tool-result cache is as it was, so that the next search with
    the same arguments asks the backend again. *)
Theorem failed_search_is_not_cached (userToken : option str)
    (args : FunctionArgs) (w w' : World) (e : Thrown) :
  find_content env userToken args w = (Threw e, w') ->
  toolResultCache w' = toolResultCache w.
Proof.
  destruct (query args) as [q|] eqn:Hq.
  2:{ unfold find_content. rewrite Hq. intros H. injection H as _ <-. reflexivity. }
  rewrite (find_content_unfold env userToken args q w Hq). cbv zeta.
  assert (Hmiss : forall postType key t,
             find_content_miss env userToken q postType key t (tick w)
             = (Threw e, w') ->
             toolResultCache w' = toolResultCache w).
  { intros postType key t. rewrite find_content_miss_cases. cbv zeta.
    destruct (fetch env _ _) as [resp|msg].
    - destruct (r_ok resp); [discriminate|].
      intros H. injection H as _ <-. reflexivity.
    - intros H. injection H as _ <-. reflexivity. }
  destruct (toolResultCache w !! cache_key args) as [entry|]; [|apply Hmiss].
  destruct (_ <? _)%Z; [discriminate | apply Hmiss].
Qed.

(** X5.  The cache does not know who asked.  When a search went to the
    backend for one caller and was answered, the same search for any
    other caller (another token, or none) within the 5000 ms of the
    entry returns the items found for the first, and nothing is asked
    of the backend. *)
Theorem cache_ignores_the_caller (first second : option str)
    (args : FunctionArgs) (w w' : World) (r : FunctionResult) :
  find_content env first args w = (Returned r, w') ->
  backend_log w' <> backend_log w ->
  (Date_now env (clock_reads w') < Date_now env (clock_reads w) + 5000)%Z ->
  let again := find_content env second args w' in
  fst again = Returned r /\ backend_log (snd again) = backend_log w'.
Proof.
  intros Hfirst Hsent Hsoon.
  enough (H : find_content env second args w' = (Returned r, tick w'))
    by (cbv zeta; rewrite H; split; reflexivity).
  destruct (query args) as [q|] eqn:Hq.
  2:{ unfold find_content in Hfirst. rewrite Hq in Hfirst. discriminate. }
  rewrite (find_content_unfold env first args q w Hq) in Hfirst.
  cbv zeta in Hfirst.
  assert (Hmiss : find_content_miss env first q
                    (toLowerCase (or_default (type_ args) (lit "all")))
                    (cache_key args) (Date_now env (clock_reads w)) (tick w)
                  = (Returned r, w')).
  { destruct (toolResultCache w !! cache_key args) as [entry|]; [|exact Hfirst].
    destruct (_ <? _)%Z; [|exact Hfirst].
    injection Hfirst as _ <-. exfalso. apply Hsent. reflexivity. }
  destruct (miss_store env first _ _ _ _ _ _ _ Hmiss) as [items [-> Hcache]].
  rewrite (find_content_unfold env second args q w' Hq). cbv zeta.
  rewrite Hcache, lookup_insert_eq. cbn [expiryMs payload].
  apply Z.ltb_lt in Hsoon. rewrite Hsoon. reflexivity.
Qed.
End Search.

#[local] Existing Instance rt0.

(** The first search of the scenario, from an empty cache: the items
    found are tidy. *)
Lemma search_items_are_tidy_witness :
  Forall tidy_item found_items.
Proof.
  destruct (search_items_are_tidy env_search (Some (lit "u-1")) find_args world0)
    as [_ Hitems].
  - intros key e He. vm_compute in He. discriminate.
  - destruct (Hitems (FindContentResult found_items)) as [items [Heq Htidy]].
    + vm_compute. reflexivity.
    + injection Heq as <-. exact Htidy.
Defined.

(** The backend is down: the search throws and the cache stays empty. *)
Lemma failed_search_is_not_cached_witness :
  toolResultCache
    (snd (find_content env_backend_down (Some (lit "u-1")) find_args world0))
  = toolResultCache world0.
Proof.
  apply (failed_search_is_not_cached env_backend_down (Some (lit "u-1")) find_args
           world0 _
           (JsError (lit "API request failed: 503 - Service Unavailable"))).
  vm_compute. reflexivity.
Defined.

(** The first search of the scenario is made with the token [u-1]; the
    same search without a token, one tick later, is answered from the
    cache. *)
Lemma cache_ignores_the_caller_witness :
  let again := find_content env_search None find_args (snd first_search) in
  fst again = Returned (FindContentResult found_items)
  /\ backend_log (snd again) = backend_log (snd first_search).
Proof.
  apply (cache_ignores_the_caller env_search (Some (lit "u-1")) None find_args
           world0 (snd first_search) (FindContentResult found_items)).
  - vm_compute. reflexivity.
  - vm_compute. discriminate.
  - vm_compute. reflexivity.
Defined.

End SearchProofs.

(** ** The tool results of a round *)

Module ResultProofs.
Import Scenario StringProofs RoundProofs HandlerProofs.

Section Results.
Context {rt : Runtime}.
Context (funcs : str -> option (JsonValue -> M FunctionResult)).

Lemma run_tool_call_result (tc : ToolCall) (st st' : RoundState) (w w' : World) :
  run_tool_call funcs tc st w = (Returned st', w') ->
  exists m more,
    toolResults st' = toolResults st ++ [m]
    /\ answers_call tc m
    /\ executedToolResults st' = executedToolResults st ++ more
    /\ (length more <= 1)%nat.
Proof.
  rewrite run_tool_call_cases.
  destruct (JSON_parse _) as [args|]; [|discriminate]. cbv zeta.
  destruct (roundMemo st !! _) as [cached|].
  { intros H. injection H as <- _. eexists _, [].
    rewrite app_nil_r. cbn [push_result toolResults executedToolResults length].
    split_and!; [reflexivity | | reflexivity | lia].
    split_and!; [reflexivity | reflexivity | eexists; reflexivity]. }
  destruct (funcs (tc_name tc)) as [f|].
  2:{ intros H. injection H as <- _. eexists _, [].
      rewrite app_nil_r. cbn [push_result toolResults executedToolResults length].
      split_and!; [reflexivity | | reflexivity | lia].
      split_and!; [reflexivity | reflexivity | eexists; reflexivity]. }
  destruct (f args w) as [[result|e] w1]; intros H; injection H as <- _.
  - eexists _, [_]. cbn [toolResults executedToolResults length].
    split_and!; [reflexivity | | reflexivity | lia].
    split_and!; [reflexivity | reflexivity | eexists; reflexivity].
  - eexists _, []. rewrite app_nil_r.
    cbn [push_result toolResults executedToolResults length].
    split_and!; [reflexivity | | reflexivity | lia].
    split_and!; [reflexivity | reflexivity | eexists; reflexivity].
Qed.

(** A round that returns has answered every tool call, in the order of
    the calls, and has added the results of the executors that returned
    to those of the rounds before, at most one for each call. *)
Lemma run_tool_calls_results (tcs : list ToolCall) :
  forall (st st' : RoundState) (w w' : World),
    run_tool_calls funcs tcs st w = (Returned st', w') ->
    exists results more,
      toolResults st' = toolResults st ++ results
      /\ Forall2 answers_call tcs results
      /\ executedToolResults st' = executedToolResults st ++ more
      /\ (length more <= length tcs)%nat.
Proof.
  induction tcs as [|tc tcs IH]; intros st st' w w'; cbn [run_tool_calls].
  - intros H. injection H as <- _. exists [], []. rewrite !app_nil_r.
    split_and!; [reflexivity | constructor | reflexivity | simpl; lia].
  - unfold bind.
    destruct (run_tool_call funcs tc st w) as [[st1|e] w1] eqn:H1; [|discriminate].
    intros H2.
    destruct (run_tool_call_result _ _ _ _ _ H1) as [m [more1 [Hm [Ha [He Hl]]]]].
    destruct (IH _ _ _ _ H2) as [results [more [Hr [Hall [He' Hl']]]]].
    exists (m :: results), (more1 ++ more).
    rewrite Hr, Hm, He', He, <- !app_assoc, length_app. cbn [app length].
    split_and!; [reflexivity | constructor; assumption | reflexivity | lia].
Qed.
End Results.

Section Followups.
Context {rt : Runtime} (env : Env).
Context (funcs : str -> option (JsonValue -> M FunctionResult)).
Hypothesis funcs_quiet :
  forall name f args, funcs name = Some f -> quiet (f args).
Context (model : str) (request : list Message).

(** The requests of the loop are the requests of its rounds. *)
Lemma tool_loop_rounds (remaining : nat) :
  forall (ls : LoopState) (w : World),
  exists new,
    lm_log (snd (tool_loop env funcs model request remaining ls w)) = lm_log w ++ new
    /\ rounds env request (length (lm_log w)) (assistantMessage ls) new.
Proof using funcs_quiet.
  assert (Hstop : forall (o : Outcome LoopState) (m : Message) (w : World),
             exists new,
               lm_log (snd (o, w)) = lm_log w ++ new
               /\ rounds env request (length (lm_log w)) m new).
  { intros o m w. exists []. rewrite app_nil_r. split; [reflexivity | exact I]. }
  induction remaining as [|k IH]; intros ls w; cbn [tool_loop].
  - destruct (pending (assistantMessage ls)); apply Hstop.
  - destruct (pending (assistantMessage ls)) as [|tc tcs] eqn:Hp; [apply Hstop|].
    unfold bind. rewrite round_cases.
    destruct (run_tool_calls_log funcs funcs_quiet (tc :: tcs)
                (new_round (executed ls)) w) as [Hquiet _].
    pose proof (fun st' w' =>
                  run_tool_calls_results funcs (tc :: tcs)
                    (new_round (executed ls)) st' w w') as Hresults.
    destruct (run_tool_calls funcs (tc :: tcs) (new_round (executed ls)) w)
      as [[st|e] w1]; cbn [snd] in Hquiet.
    2:{ exists []. rewrite app_nil_r. split; [exact Hquiet | exact I]. }
    destruct (Hresults st w1 eq_refl) as [results [more [Hres [Hall _]]]].
    cbn [new_round toolResults app] in Hres. cbv zeta.
    set (r1 := {| lm_model := model;
                  lm_messages := request ++ [assistantMessage ls] ++ toolResults st;
                  lm_tool_choice := auto |}).
    change {| lm_model := model;
              lm_messages := request ++ [assistantMessage ls] ++ toolResults st;
              lm_tool_choice := none |} with (forced_after r1).
    assert (Hanswers : answers_every_call request (assistantMessage ls) r1).
    { exists results. cbn [lm_messages r1]. rewrite Hres, Hp.
      split; [reflexivity | exact Hall]. }
    assert (Hlog1 : lm_log (log_lm r1 w1) = lm_log w ++ [r1]).
    { cbn [lm_log log_lm]. rewrite Hquiet. reflexivity. }
    assert (Hone : forall (o : Outcome LoopState),
               exists new,
                 lm_log (snd (o, log_lm r1 w1)) = lm_log w ++ new
                 /\ rounds env request (length (lm_log w))
                      (assistantMessage ls) new).
    { intros o. exists [r1]. split; [exact Hlog1|].
      cbn [rounds]. split_and!; [reflexivity | exact Hanswers | left; reflexivity]. }
    rewrite Hquiet.
    destruct (openRouter env (length (lm_log w)) r1) as [data|msg resp] eqn:H1;
      [|apply Hone].
    destruct (lm_message data) as [m|] eqn:Hm; [|apply Hone].
    assert (Hreply : replies env (length (lm_log w)) r1 m)
      by (exists data; split; assumption).
    destruct (no_content m && bool_decide (pending m = [])).
    + assert (Htwo : forall (o : Outcome LoopState),
                 exists new,
                   lm_log (snd (o, log_lm (forced_after r1) (log_lm r1 w1)))
                   = lm_log w ++ new
                   /\ rounds env request (length (lm_log w))
                        (assistantMessage ls) new).
      { intros o. exists [r1; forced_after r1]. split.
        - cbn [snd lm_log log_lm]. rewrite Hquiet, <- app_assoc. reflexivity.
        - cbn [rounds]. split_and!; [reflexivity | exact Hanswers |].
          right. exists m. split; [exact Hreply | left; reflexivity]. }
      destruct (openRouter env _ (forced_after r1)) as [final|msg resp];
        [|apply Htwo].
      destruct (lm_message final);
        [apply (Htwo (Returned _)) | apply (Htwo (Threw _))].
    + cbn [fst snd].
      match goal with
      | |- context [tool_loop env funcs model request k ?l ?x] =>
          destruct (IH l x) as [new' [Hlog' Hrounds']]
      end.
      cbn [assistantMessage] in Hrounds'.
      replace (length (lm_log (log_lm r1 w1))) with (S (length (lm_log w)))
        in Hrounds' by (rewrite Hlog1, length_app; simpl; lia).
      exists (r1 :: new'). split.
      * rewrite Hlog', Hlog1, <- app_assoc. reflexivity.
      * cbn [rounds]. split_and!; [reflexivity | exact Hanswers |].
        right. exists m. split; [exact Hreply | right; exact Hrounds'].
Qed.
End Followups.

(** X6.  Every follow-up answers every tool call of the message the
    model sent last.  After its first request, a request asks the model
    round by round: the follow-up of a round holds the messages of the
    first request, then the assistant message the model answered the
    request before with and, for each tool call of that message in their
    order, one tool message with the id of that call and a content (the
    result, the result of an equal call before it, or an error).  A
    request that forces a text repeats the follow-up before it. *)
Theorem followups_answer_every_call {rt : Runtime} (env : Env)
    (req : ChatRequest) (w : World) :
  let first := first_request env req w in
  exists new,
    lm_log (snd (POST env (inr req) w)) = lm_log w ++ new
    /\ (new = []
        \/ exists followups,
             new = first :: followups
             /\ (followups = []
                 \/ exists m,
                      replies env (length (lm_log w)) first m
                      /\ rounds env (lm_messages first) (S (length (lm_log w)))
                           m followups)).
Proof.
  intros r0. cbn [POST]. rewrite handle_cases.
  destruct (truthy (userToken req)) as [token|].
  2:{ exists []. rewrite app_nil_r. split; [reflexivity | left; reflexivity]. }
  destruct (truthy (OPENROUTER_API_KEY (process_env env))).
  2:{ exists []. rewrite app_nil_r. split; [reflexivity | left; reflexivity]. }
  cbv zeta. fold r0.
  assert (Honly : forall x : HttpResponse,
             exists new,
               lm_log (snd (x, log_lm r0 w)) = lm_log w ++ new
               /\ (new = []
                   \/ exists followups,
                        new = r0 :: followups
                        /\ (followups = []
                            \/ exists m,
                                 replies env (length (lm_log w)) r0 m
                                 /\ rounds env (lm_messages r0)
                                      (S (length (lm_log w))) m followups))).
  { intros x. exists [r0]. split; [reflexivity|]. right. exists [].
    split; [reflexivity | left; reflexivity]. }
  destruct (openRouter env (length (lm_log w)) r0) as [response|msg resp] eqn:H0;
    [|apply Honly].
  destruct (lm_message response) as [first|] eqn:Hm; [|apply Honly].
  destruct (tool_loop_rounds env (getFunctions env (userToken req))
              (quiet_funcs env (userToken req)) (lm_model r0) (lm_messages r0) 5
              (loop_start response first) (log_lm r0 w)) as [new [Hlog Hrounds]].
  cbn [assistantMessage loop_start] in Hrounds.
  replace (length (lm_log (log_lm r0 w))) with (S (length (lm_log w)))
    in Hrounds by (cbn [lm_log log_lm]; rewrite length_app; simpl; lia).
  exists (r0 :: new). split.
  - destruct (tool_loop _ _ _ _ _ _ _) as [[ls|e] w2]; cbn [fst snd] in *;
      rewrite ?settled_log, Hlog; cbn [log_lm lm_log]; rewrite <- app_assoc;
      reflexivity.
  - right. exists new. split; [reflexivity|]. right. exists first.
    split; [exists response; split; assumption | exact Hrounds].
Qed.

#[local] Existing Instance rt0.

(** The same search asked twice in one round: a tool result for each
    call, one executed result. *)
Example twice_find_results :
  fst twice_found = Returned after_twice_find
  /\ Forall2 answers_call twice_find (toolResults after_twice_find)
  /\ length (executedToolResults after_twice_find) = 1%nat.
Proof.
  assert (Hrun : run_tool_calls (getFunctions env_search (Some (lit "u-1")))
                   twice_find (new_round []) world0
                 = (Returned after_twice_find, snd twice_found))
    by (vm_compute; reflexivity).
  destruct (run_tool_calls_results _ _ _ _ _ _ Hrun)
    as [results [more [Hres [Hall _]]]].
  split_and!; [vm_compute; reflexivity | rewrite Hres; exact Hall
              | vm_compute; reflexivity].
Qed.

End ResultProofs.

(** ** What a request stores and what it is charged *)

Module BillingProofs.
Import Scenario StringProofs RoundProofs HandlerProofs.

(** *** Computations that are calm *)

Lemma calm_ret {A} (a : A) : calm (ret a).
Proof. intros w. split; reflexivity. Qed.

Lemma calm_throw {A} (e : Thrown) : calm (@throw A e).
Proof. intros w. split; reflexivity. Qed.

Lemma calm_bind {A B} (m : M A) (k : A -> M B) :
  calm m -> (forall a, calm (k a)) -> calm (bind m k).
Proof.
  intros Hm Hk w. unfold bind. destruct (Hm w) as [H1 H2].
  destruct (m w) as [[a|e] w1]; simpl in *.
  - destruct (Hk a w1) as [H3 H4]. split; congruence.
  - split; assumption.
Qed.

Lemma decreases_log_backend (r : BackendRequest) (w : World) :
  decreases (log_backend r w)
  = decreases w ++ (if is_decrease r then [r] else []).
Proof.
  unfold decreases. cbn [log_backend backend_log].
  rewrite List.filter_app. cbn [List.filter]. destruct (is_decrease r); reflexivity.
Qed.

Lemma calm_backend (env : Env) (r : BackendRequest) :
  is_decrease r = false -> calm (backend env r).
Proof.
  intros Hr w. unfold backend.
  destruct (fetch env _ r); cbn [snd]; rewrite decreases_log_backend, Hr, app_nil_r;
    split; reflexivity.
Qed.

Lemma calm_read_payload (resp : Response) : calm (read_payload resp).
Proof.
  unfold read_payload. destruct (r_ok resp); [apply calm_ret | apply calm_throw].
Qed.

Lemma calm_modify_cache (f : gmap str CacheEntry -> gmap str CacheEntry) :
  calm (modify (set_cache f)).
Proof. intros w. split; reflexivity. Qed.

Lemma calm_now (env : Env) : calm (now env).
Proof. intros w. split; reflexivity. Qed.

Lemma calm_gets {A} (f : World -> A) : calm (gets f).
Proof. intros w. split; reflexivity. Qed.

Lemma calm_chat_completions (env : Env) (r : LMRequest) :
  calm (chat_completions env r).
Proof.
  intros w. rewrite chat_completions_cases.
  destruct (openRouter env _ r); split; reflexivity.
Qed.

Create HintDb calm.
#[local] Hint Resolve calm_ret calm_throw calm_read_payload calm_modify_cache
  calm_now calm_gets calm_chat_completions : calm.

Ltac calm_step :=
  repeat first
    [ apply calm_bind; [| intros ? ]
    | apply calm_backend; reflexivity
    | solve [ auto with calm ] ].

Section Executors.
Context {rt : Runtime} (env : Env) (userToken : option str).

Lemma calm_find_content (args : FunctionArgs) :
  calm (find_content env userToken args).
Proof.
  unfold find_content. destruct (query args) as [q|]; [|auto with calm].
  apply calm_bind; [auto with calm | intros t].
  apply calm_bind; [auto with calm | intros cached].
  assert (Hmiss : forall k, calm (find_content_miss env userToken q
            (toLowerCase (or_default (type_ args) (lit "all"))) k t)).
  { intros k. unfold find_content_miss. calm_step. }
  destruct cached as [entry|]; [|apply Hmiss].
  destruct (_ <? _)%Z; [auto with calm | apply Hmiss].
Qed.

Lemma calm_create_content (args : FunctionArgs) :
  calm (create_content env userToken args).
Proof.
  unfold create_content.
  destruct (negb (isCreateContentArgs args)); [auto with calm|].
  destruct (negb (confirmed args)); [auto with calm|]. calm_step.
Qed.

Lemma calm_edit_content (args : FunctionArgs) :
  calm (edit_content env userToken args).
Proof.
  unfold edit_content.
  destruct (content_id args), (changes args); try solve [auto with calm].
  destruct (negb (confirmed args)); [auto with calm|]. calm_step.
Qed.

Lemma calm_getFunctions (name : str) (f : JsonValue -> M FunctionResult)
    (args : JsonValue) :
  getFunctions env userToken name = Some f -> calm (f args).
Proof.
  unfold getFunctions.
  repeat match goal with
         | |- context [if ?b then _ else _] => destruct b
         end; intros H; try (injection H as <-).
  - apply calm_find_content.
  - apply calm_create_content.
  - apply calm_edit_content.
  - intros w. rewrite (inherited_pure name f args w H). split; reflexivity.
Qed.
End Executors.

Section Loop.
Context {rt : Runtime} (env : Env).
Context (funcs : str -> option (JsonValue -> M FunctionResult)).
Hypothesis funcs_calm :
  forall name f args, funcs name = Some f -> calm (f args).
Hypothesis funcs_quiet :
  forall name f args, funcs name = Some f -> quiet (f args).
Context (model : str) (request : list Message).

Lemma calm_run_tool_call (tc : ToolCall) (st : RoundState) :
  calm (run_tool_call funcs tc st).
Proof using funcs_calm.
  intros w. rewrite run_tool_call_cases.
  destruct (JSON_parse _) as [args|]; [|split; reflexivity]. cbv zeta.
  destruct (roundMemo st !! _) as [cached|]; [split; reflexivity|].
  destruct (funcs (tc_name tc)) as [f|] eqn:Hf; [|split; reflexivity].
  destruct (funcs_calm _ _ args Hf w) as [Hs Hd].
  destruct (f args w) as [[result|e] w1]; cbn [snd] in *;
    split; assumption.
Qed.

Lemma calm_run_tool_calls (tcs : list ToolCall) :
  forall st, calm (run_tool_calls funcs tcs st).
Proof using funcs_calm.
  induction tcs as [|tc tcs IH]; intros st; cbn [run_tool_calls].
  - apply calm_ret.
  - apply calm_bind; [apply calm_run_tool_call | exact IH].
Qed.

Lemma calm_message_of (data : LMData) : calm (message_of data).
Proof. unfold message_of. destruct (lm_message data); auto with calm. Qed.

Lemma calm_round (toolCalls : list ToolCall) (ls : LoopState) :
  calm (round env funcs model request toolCalls ls).
Proof using funcs_calm.
  unfold round.
  apply calm_bind; [apply calm_run_tool_calls | intros st].
  apply calm_bind; [auto with calm | intros followup].
  apply calm_bind; [apply calm_message_of | intros msg].
  destruct (no_content msg && bool_decide (pending msg = [])); [|auto with calm].
  apply calm_bind; [auto with calm | intros final].
  apply calm_bind; [apply calm_message_of | intros msg'].
  auto with calm.
Qed.

Lemma calm_tool_loop (remaining : nat) :
  forall ls, calm (tool_loop env funcs model request remaining ls).
Proof using funcs_calm.
  induction remaining as [|k IH]; intros ls; cbn [tool_loop].
  - destruct (pending (assistantMessage ls)); apply calm_ret.
  - destruct (pending (assistantMessage ls)) as [|tc tcs]; [apply calm_ret|].
    apply calm_bind; [apply calm_round | intros [ls1 brk]].
    cbn [fst snd]. destruct brk; [apply calm_ret | apply IH].
Qed.

(** *** The usage the loop adds up *)

Lemma answers_app (n : nat) (a b : list LMRequest) :
  answers env n (a ++ b) = answers env n a ++ answers env (n + length a) b.
Proof.
  revert n. induction a as [|r a IH]; intros n; cbn [answers app length].
  - rewrite Nat.add_0_r. reflexivity.
  - rewrite IH. replace (n + S (length a))%nat with (S n + length a)%nat by lia.
    reflexivity.
Qed.

Lemma reported_usage_app (n : nat) (a b : list LMRequest) :
  reported_usage env n (a ++ b)
  = (reported_usage env n a + reported_usage env (n + length a) b)%Z.
Proof.
  unfold reported_usage. rewrite answers_app, List.map_app.
  induction (List.map tokens_of (answers env n a)) as [|x l IH];
    cbn [fold_right app]; [reflexivity | rewrite IH; lia].
Qed.

Lemma round_usage (toolCalls : list ToolCall) (ls ls' : LoopState)
    (brk : bool) (w w' : World) :
  round env funcs model request toolCalls ls w = (Returned (ls', brk), w') ->
  exists new,
    lm_log w' = lm_log w ++ new
    /\ usedTokens ls'
       = (usedTokens ls + reported_usage env (length (lm_log w)) new)%Z.
Proof using funcs_quiet.
  rewrite round_cases.
  destruct (run_tool_calls_log funcs funcs_quiet toolCalls
              (new_round (executed ls)) w) as [Hquiet _].
  destruct (run_tool_calls funcs toolCalls (new_round (executed ls)) w)
    as [[st|e] w1]; cbn [snd] in Hquiet; [|discriminate].
  cbv zeta. rewrite Hquiet.
  set (r1 := {| lm_model := model;
                lm_messages := request ++ [assistantMessage ls] ++ toolResults st;
                lm_tool_choice := auto |}).
  set (r2 := {| lm_model := model;
                lm_messages := request ++ [assistantMessage ls] ++ toolResults st;
                lm_tool_choice := none |}).
  destruct (openRouter env (length (lm_log w)) r1) as [data|msg resp] eqn:H1;
    [|discriminate].
  destruct (lm_message data) as [m|]; [|discriminate].
  destruct (no_content m && bool_decide (pending m = [])).
  - cbn [log_lm lm_log]. rewrite Hquiet, length_app. cbn [length].
    destruct (openRouter env (length (lm_log w) + 1) r2) as [final|msg resp] eqn:H2;
      [|discriminate].
    destruct (lm_message final) as [m'|]; [|discriminate].
    intros H. injection H as <- _ <-. exists [r1; r2].
    cbn [log_lm lm_log usedTokens]. rewrite Hquiet, <- app_assoc.
    split; [reflexivity|].
    unfold reported_usage. cbn [answers List.map fold_right].
    replace (S (length (lm_log w))) with (length (lm_log w) + 1)%nat by lia.
    rewrite H1, H2. cbn [tokens_of]. lia.
  - intros H. injection H as <- _ <-. exists [r1].
    cbn [log_lm lm_log usedTokens]. rewrite Hquiet.
    split; [reflexivity|].
    unfold reported_usage. cbn [answers List.map fold_right].
    rewrite H1. cbn [tokens_of]. lia.
Qed.

Lemma tool_loop_usage (remaining : nat) :
  forall (ls ls' : LoopState) (w w' : World),
    tool_loop env funcs model request remaining ls w = (Returned ls', w') ->
    exists new,
      lm_log w' = lm_log w ++ new
      /\ usedTokens ls'
         = (usedTokens ls + reported_usage env (length (lm_log w)) new)%Z.
Proof using funcs_quiet.
  assert (Hstop : forall ls ls' w w',
             ret ls w = (Returned ls', w') ->
             exists new,
               lm_log w' = lm_log w ++ new
               /\ usedTokens ls'
                  = (usedTokens ls + reported_usage env (length (lm_log w)) new)%Z).
  { intros ls ls' w w' H. injection H as <- <-. exists [].
    rewrite app_nil_r. split; [reflexivity|]. unfold reported_usage. simpl. lia. }
  induction remaining as [|k IH]; intros ls ls' w w'; cbn [tool_loop].
  - destruct (pending (assistantMessage ls)); apply Hstop.
  - destruct (pending (assistantMessage ls)) as [|tc tcs]; [apply Hstop|].
    unfold bind.
    destruct (round env funcs model request (tc :: tcs) ls w)
      as [[[ls1 brk]|e] w1] eqn:Hround; [|discriminate].
    destruct (round_usage _ _ _ _ _ _ Hround) as [new [Hlog Hused]].
    cbn [fst snd]. destruct brk.
    + intros H. injection H as <- <-. exists new. split; assumption.
    + intros H. destruct (IH _ _ _ _ H) as [new' [Hlog' Hused']].
      exists (new ++ new'). rewrite Hlog', Hlog, <- app_assoc.
      split; [reflexivity|].
      rewrite reported_usage_app, Hused', Hused, Hlog, length_app. lia.
Qed.
End Loop.

(** An answer with a message: the loop returned, from a world whose
    conversations and decrements are those of the start, and the answer
    was settled. *)
Lemma POST_settles {rt : Runtime} (env : Env) (req : ChatRequest) (w : World)
    (id : str) (msg : Message) (used : Z) :
  body (fst (POST env (inr req) w)) = ChatBody id msg used ->
  exists token ls w2,
    truthy (userToken req) = Some token
    /\ id = conversation_id env req
    /\ msg = finalize (assistantMessage ls) (executed ls)
    /\ used = Z.max 0 (usedTokens ls)
    /\ snd (POST env (inr req) w) = settled env req token ls w2
    /\ conversationStore w2 = conversationStore w
    /\ decreases w2 = decreases w.
Proof.
  cbn [POST]. rewrite handle_cases.
  destruct (truthy (userToken req)) as [token|]; [|discriminate].
  destruct (truthy (OPENROUTER_API_KEY (process_env env))); [|discriminate].
  cbv zeta. set (r0 := first_request env req w).
  destruct (openRouter env (length (lm_log w)) r0) as [response|msg' resp];
    [|discriminate].
  destruct (lm_message response) as [first|]; [|discriminate].
  destruct (calm_tool_loop env (getFunctions env (userToken req))
              (calm_getFunctions env (userToken req))
              (lm_model r0) (lm_messages r0) 5
              (loop_start response first) (log_lm r0 w)) as [Hstore Hdec].
  destruct (tool_loop _ _ _ _ _ _ _) as [[ls|err] w2]; cbn [fst snd body] in *;
    [|discriminate].
  intros H. injection H as <- <- <-.
  exists token, ls, w2. split_and!; try reflexivity; assumption.
Qed.

#[local] Existing Instance rt0.

(** X7.  An answer that is an error stores nothing and charges nothing:
    whatever made the request fail (its body, the token, the key, the
    model, the arguments of a tool call), the conversations are as they
    were and no token decrement has been sent. *)
Theorem error_answers_store_nothing {rt : Runtime} (env : Env)
    (req : str + ChatRequest) (w : World) (e : str) :
  body (fst (POST env req w)) = ErrorBody e ->
  conversationStore (snd (POST env req w)) = conversationStore w
  /\ decreases (snd (POST env req w)) = decreases w.
Proof.
  destruct req as [message|r]; cbn [POST]; [split; reflexivity|].
  rewrite handle_cases.
  destruct (truthy (userToken r)) as [token|]; [|split; reflexivity].
  destruct (truthy (OPENROUTER_API_KEY (process_env env))); [|split; reflexivity].
  cbv zeta. set (r0 := first_request env r w).
  destruct (openRouter env (length (lm_log w)) r0) as [response|msg resp];
    [|split; reflexivity].
  destruct (lm_message response) as [first|]; [|split; reflexivity].
  pose proof (calm_tool_loop env (getFunctions env (userToken r))
                (calm_getFunctions env (userToken r))
                (lm_model r0) (lm_messages r0) 5
                (loop_start response first) (log_lm r0 w)) as Hcalm.
  destruct (tool_loop _ _ _ _ _ _ _) as [[ls|err] w2]; cbn [fst snd body] in *.
  - discriminate.
  - intros _. exact Hcalm.
Qed.

(** The follow-up call of the model is refused: the answer is an error,
    nothing is stored, nothing is charged. *)
Lemma error_answers_store_nothing_witness :
  let out := POST env_followup_down (inr (ask "find ideas about bike lanes")) world0 in
  conversationStore (snd out) = conversationStore world0
  /\ decreases (snd out) = decreases world0.
Proof.
  apply (error_answers_store_nothing env_followup_down
           (inr (ask "find ideas about bike lanes")) world0
           (lit "Service Unavailable")).
  vm_compute. reflexivity.
Defined.

(** X8.  An answer with a message is stored and charged once.  The
    conversation is the one of the request, or a fresh one when the
    request names none; its history becomes the old history, the messages
    of the request and the answer, cut to the most recent
    [MAX_STORED_MESSAGES] when that bound is positive; no other
    conversation changes.  The last request to the backend is the token
    decrement for the caller's token, by the usage the answer reports, and
    by 1 when that is 0; no other decrement is sent. *)
Theorem answers_are_stored_and_charged {rt : Runtime} (env : Env)
    (req : ChatRequest) (w : World) (id : str) (msg : Message) (used : Z) :
  body (fst (POST env (inr req) w)) = ChatBody id msg used ->
  let w' := snd (POST env (inr req) w) in
  let all := default [] (conversationStore w !! id) ++ messages req ++ [msg] in
  let bound := MAX_STORED_MESSAGES env in
  id = or_default (conversationId req) (randomUUID env)
  /\ conversationStore w'
     = <[id := if (0 <? bound)%Z then slice_last bound all else all]>
         (conversationStore w)
  /\ exists token earlier,
      truthy (userToken req) = Some token
      /\ backend_log w' = earlier ++ [DecreaseTokens token (Z.max 1 used)]
      /\ decreases w' = decreases w ++ [DecreaseTokens token (Z.max 1 used)].
Proof.
  intros Hbody.
  destruct (POST_settles env req w id msg used Hbody)
    as [token [ls [w2 [Htoken [-> [-> [-> [-> [Hstore Hdec]]]]]]]]].
  cbv zeta. split; [reflexivity|].
  unfold settled, store_append.
  cbn [snd log_backend set_store conversationStore backend_log].
  rewrite Hstore. split; [reflexivity|].
  exists token, (backend_log w2).
  replace (Z.max 1 (Z.max 0 (usedTokens ls))) with (Z.max 1 (usedTokens ls)) by lia.
  split_and!; [exact Htoken | reflexivity |].
  rewrite decreases_log_backend. cbn [is_decrease].
  change (decreases (set_store ?f w2)) with (decreases w2).
  rewrite Hdec. reflexivity.
Qed.

(** The search scenario: the conversation [c0ffee] holds the question and
    the answer, and one token is charged. *)
Lemma answers_are_stored_and_charged_witness :
  let out := POST env_search (inr (ask "find ideas about bike lanes")) world0 in
  length (default [] (conversationStore (snd out) !! lit "c0ffee")) = 2%nat
  /\ decreases (snd out) = [DecreaseTokens (lit "u-1") 1].
Proof.
  intros out.
  destruct (answers_are_stored_and_charged env_search
              (ask "find ideas about bike lanes") world0 (lit "c0ffee")
              (text_message assistant
                 "Found [Protected bike lanes](https://needpedia.org/posts/7) and [Bike lane map](https://needpedia.org/posts/9).")
              0)
    as [_ [Hstore [token [earlier [Htoken [_ Hdec]]]]]].
  - vm_compute. reflexivity.
  - subst out. rewrite Hstore, Hdec.
    assert (Ht : token = lit "u-1")
      by (apply (inj Some); rewrite <- Htoken; reflexivity).
    rewrite Ht. split; vm_compute; reflexivity.
Defined.

(** X9.  The usage an answer reports is the sum of what the model
    reported in its answers to the requests of this call, the first one
    and every follow-up, and never less than 0. *)
Theorem usage_is_summed {rt : Runtime} (env : Env) (req : ChatRequest)
    (w : World) (id : str) (msg : Message) (used : Z) :
  body (fst (POST env (inr req) w)) = ChatBody id msg used ->
  exists new,
    lm_log (snd (POST env (inr req) w)) = lm_log w ++ new
    /\ used = Z.max 0 (reported_usage env (length (lm_log w)) new).
Proof.
  cbn [POST]. rewrite handle_cases.
  destruct (truthy (userToken req)) as [token|]; [|discriminate].
  destruct (truthy (OPENROUTER_API_KEY (process_env env))); [|discriminate].
  cbv zeta. set (r0 := first_request env req w).
  destruct (openRouter env (length (lm_log w)) r0) as [response|msg' resp] eqn:H0;
    [|discriminate].
  destruct (lm_message response) as [first|]; [|discriminate].
  pose proof (tool_loop_usage env (getFunctions env (userToken req))
                (quiet_funcs env (userToken req))
                (lm_model r0) (lm_messages r0) 5
                (loop_start response first)) as Hloop.
  destruct (tool_loop _ _ _ _ _ _ _) as [[ls|err] w2] eqn:Hrun;
    cbn [fst snd body] in *; [|discriminate].
  destruct (Hloop ls (log_lm r0 w) w2 Hrun) as [new [Hlog Hused]].
  intros H. injection H as _ _ <-.
  exists (r0 :: new). rewrite settled_log, Hlog. cbn [log_lm lm_log].
  rewrite <- app_assoc. split; [reflexivity|].
  rewrite Hused. cbn [loop_start usedTokens].
  unfold reported_usage at 2. cbn [answers List.map fold_right].
  rewrite H0. cbn [tokens_of]. fold (reported_usage env (S (length (lm_log w))) new).
  cbn [log_lm lm_log]. rewrite length_app. cbn [length].
  replace (length (lm_log w) + 1)%nat with (S (length (lm_log w))) by lia.
  reflexivity.
Qed.

(** The model reports 120 tokens, then 30: the answer reports 150. *)
Lemma usage_is_summed_witness :
  exists new,
    lm_log (snd (POST env_metered (inr (ask "find ideas about bike lanes")) world0))
    = lm_log world0 ++ new
    /\ 150%Z = Z.max 0 (reported_usage env_metered (length (lm_log world0)) new).
Proof.
  apply (usage_is_summed env_metered (ask "find ideas about bike lanes") world0
           (lit "c0ffee") (text_message assistant "Two ideas found.") 150).
  vm_compute. reflexivity.
Defined.

End BillingProofs.

(** ** The history route *)

Module HistoryProofs.
Import Scenario StringProofs HandlerProofs MemoryProofs SearchProofs BillingProofs.
Import History.

(** [POST], case by case, for a request that names a conversation. *)
Lemma POST_cases (svc : Services) (r : HistoryRequest) (id : str)
    (hw : HistoryWorld) :
  truthy (h_conversationId r) = Some id ->
  POST svc (inr r) hw
  = let answer h hw' :=
      ({| h_status := 200;
          h_body := HistoryMessages (displayMessages h) (Some id) |}, hw') in
    match conversationStore (route_world hw) !! id with
    | Some ((_ :: _) as h) => answer h hw
    | _ =>
        match getBackendMessages svc id (h_userToken r) hw with
        | (Some ((_ :: _) as b), hw1) => answer b (remember id b hw1)
        | (_, hw1) =>
            match loadConversationFromDisk svc id hw1 with
            | (Some ((_ :: _) as d), hw2) => answer d (remember id d hw2)
            | (_, hw2) =>
                ({| h_status := 200; h_body := HistoryMessages [] None |}, hw2)
            end
        end
    end.
Proof.
  intros Hid. cbn [POST]. rewrite Hid. cbv zeta.
  destruct (conversationStore (route_world hw) !! id) as [[|m h]|] eqn:Hs;
    cbn [found]; try reflexivity.
  - destruct (getBackendMessages svc id (h_userToken r) hw) as [[[|b0 b]|] hw1];
      cbn [found]; try reflexivity;
      destruct (loadConversationFromDisk svc id hw1) as [[[|d0 d]|] hw2];
      reflexivity.
  - destruct (getBackendMessages svc id (h_userToken r) hw) as [[[|b0 b]|] hw1];
      cbn [found]; try reflexivity;
      destruct (loadConversationFromDisk svc id hw1) as [[[|d0 d]|] hw2];
      reflexivity.
Qed.

Lemma displayMessages_shown (h : list Message) :
  Forall (fun m => role m <> system) (displayMessages h).
Proof.
  apply List.Forall_forall. intros m Hm. unfold displayMessages in Hm.
  apply filter_In in Hm. destruct Hm as [_ Hm].
  destruct (role m); cbn in Hm; congruence.
Qed.

(** X10.  The history route never shows a system message: whatever the
    store, the backend and the disk hold, the messages of an answer have
    other roles, and such an answer has status 200. *)
Theorem history_hides_system_messages (svc : Services)
    (req : str + HistoryRequest) (hw : HistoryWorld) :
  forall msgs id,
    h_body (fst (POST svc req hw)) = HistoryMessages msgs id ->
    h_status (fst (POST svc req hw)) = 200%Z
    /\ Forall (fun m => role m <> system) msgs.
Proof.
  intros msgs id. destruct req as [message|r]; [discriminate|].
  destruct (truthy (h_conversationId r)) as [id0|] eqn:Hid.
  2:{ cbn [POST]. rewrite Hid. discriminate. }
  rewrite (POST_cases svc r id0 hw Hid). cbv zeta.
  assert (Hshown : forall h (hw' : HistoryWorld),
             h_body (fst ({| h_status := 200;
                             h_body := HistoryMessages (displayMessages h) (Some id0) |},
                          hw'))
             = HistoryMessages msgs id ->
             h_status (fst ({| h_status := 200;
                               h_body := HistoryMessages (displayMessages h) (Some id0) |},
                            hw')) = 200%Z
             /\ Forall (fun m => role m <> system) msgs).
  { intros h hw' H. cbn [fst h_body] in H. injection H as <- _.
    split; [reflexivity | apply displayMessages_shown]. }
  assert (Hnone : forall hw' : HistoryWorld,
             h_body (fst ({| h_status := 200; h_body := HistoryMessages [] None |}, hw'))
             = HistoryMessages msgs id ->
             h_status (fst ({| h_status := 200;
                               h_body := HistoryMessages [] None |}, hw')) = 200%Z
             /\ Forall (fun m => role m <> system) msgs).
  { intros hw' H. cbn [fst h_body] in H. injection H as <- _.
    split; [reflexivity | constructor]. }
  destruct (conversationStore (route_world hw) !! id0) as [[|m h]|];
    try apply Hshown;
    destruct (getBackendMessages svc id0 (h_userToken r) hw) as [[[|b0 b]|] hw1];
    try apply Hshown;
    destruct (loadConversationFromDisk svc id0 hw1) as [[[|d0 d]|] hw2];
    try apply Hshown; apply Hnone.
Qed.

Lemma remember_lookup (id : str) (h : list Message) (hw : HistoryWorld) :
  conversationStore (route_world (remember id h hw)) !! id = Some h.
Proof.
  unfold remember, store_set, modify. cbn [route_world snd set_store conversationStore].
  apply lookup_insert_eq.
Qed.

(** X11.  What the history route finds, it remembers.  Once a request
    was answered with the messages of a conversation, from the store,
    the backend or the disk, the same request is answered the same from
    the store alone: the backend is not asked and the disk is not read,
    whatever they would say now. *)
Theorem history_is_remembered (svc svc' : Services) (r : HistoryRequest)
    (hw : HistoryWorld) (msgs : list Message) (id : str) :
  h_body (fst (POST svc (inr r) hw)) = HistoryMessages msgs (Some id) ->
  POST svc' (inr r) (snd (POST svc (inr r) hw))
  = (fst (POST svc (inr r) hw), snd (POST svc (inr r) hw)).
Proof.
  destruct (truthy (h_conversationId r)) as [id0|] eqn:Hid.
  2:{ cbn [POST]. rewrite Hid. discriminate. }
  rewrite (POST_cases svc r id0 hw Hid). cbv zeta.
  assert (Hagain : forall h0 h hw',
             conversationStore (route_world hw') !! id0 = Some (h0 :: h) ->
             POST svc' (inr r) hw'
             = ({| h_status := 200;
                   h_body := HistoryMessages (displayMessages (h0 :: h)) (Some id0) |},
                hw')).
  { intros h0 h hw' Hs. rewrite (POST_cases svc' r id0 hw' Hid). cbv zeta.
    rewrite Hs. reflexivity. }
  destruct (conversationStore (route_world hw) !! id0) as [[|m h]|] eqn:Hs.
  - destruct (getBackendMessages svc id0 (h_userToken r) hw) as [[[|b0 b]|] hw1];
      try (intros _; cbn [fst snd]; apply Hagain; apply remember_lookup);
      destruct (loadConversationFromDisk svc id0 hw1) as [[[|d0 d]|] hw2];
      try (intros _; cbn [fst snd]; apply Hagain; apply remember_lookup);
      discriminate.
  - intros _. cbn [fst snd]. apply Hagain. exact Hs.
  - destruct (getBackendMessages svc id0 (h_userToken r) hw) as [[[|b0 b]|] hw1];
      try (intros _; cbn [fst snd]; apply Hagain; apply remember_lookup);
      destruct (loadConversationFromDisk svc id0 hw1) as [[[|d0 d]|] hw2];
      try (intros _; cbn [fst snd]; apply Hagain; apply remember_lookup);
      discriminate.
Qed.

(** The thread is fetched from the backend; asked again with the backend
    down, the route answers the same. *)
Lemma history_is_remembered_witness :
  let first := POST svc_thread (inr (history_of "7")) (hworld world0) in
  POST svc_down (inr (history_of "7")) (snd first) = (fst first, snd first).
Proof.
  apply (history_is_remembered svc_thread svc_down (history_of "7") (hworld world0)
           (skipn 1 thread_7) (lit "7")).
  vm_compute. reflexivity.
Defined.

Lemma history_hides_system_messages_witness :
  Forall (fun m => role m <> system) (skipn 1 thread_7).
Proof.
  apply (history_hides_system_messages svc_thread (inr (history_of "7"))
           (hworld world0) (skipn 1 thread_7) (Some (lit "7"))).
  vm_compute. reflexivity.
Defined.

Lemma getBackendMessages_world (svc : Services) (id : str) (token : option str)
    (hw : HistoryWorld) :
  snd (getBackendMessages svc id token hw)
  = {| route_world := route_world hw;
       asked := asked hw ++ [{| thread_id := id; thread_token := truthy token |}];
       read := read hw |}.
Proof. reflexivity. Qed.

Lemma getBackendMessages_found (svc : Services) (id : str) (token : option str)
    (hw : HistoryWorld) :
  fst (getBackendMessages svc id token hw) <> Some [].
Proof.
  unfold getBackendMessages. cbn [fst].
  destruct (chat_threads svc _ _) as [[|] [d|]|]; try discriminate.
  destruct (thread_messages d) as [|[|m l]|]; discriminate.
Qed.

Lemma loadConversationFromDisk_world (svc : Services) (id : str)
    (hw : HistoryWorld) :
  snd (loadConversationFromDisk svc id hw)
  = {| route_world := route_world hw; asked := asked hw;
       read := read hw ++ [id] |}.
Proof. reflexivity. Qed.

(** X12.  The history route asks in order.  A conversation the store
    holds is answered from the store and nothing else happens.
    Otherwise the backend is asked once, for that conversation and with
    the token of the request; the disk is read, once, only when the
    backend had no messages; and an answer without messages leaves the
    store as it was. *)
Theorem history_asks_in_order (svc : Services) (r : HistoryRequest) (id : str)
    (hw : HistoryWorld) :
  truthy (h_conversationId r) = Some id ->
  let out := POST svc (inr r) hw in
  let stored := conversationStore (route_world hw) !! id in
  let ask := {| thread_id := id; thread_token := truthy (h_userToken r) |} in
  (found stored = true -> snd out = hw)
  /\ (found stored = false ->
      asked (snd out) = asked hw ++ [ask]
      /\ (read (snd out) = read hw
          \/ read (snd out) = read hw ++ [id]
             /\ fst (getBackendMessages svc id (h_userToken r) hw) = None))
  /\ (h_body (fst out) = HistoryMessages [] None ->
      conversationStore (route_world (snd out))
      = conversationStore (route_world hw)).
Proof.
  intros Hid. cbv zeta. rewrite (POST_cases svc r id hw Hid). cbv zeta.
  pose proof (getBackendMessages_world svc id (h_userToken r) hw) as Hw1.
  pose proof (getBackendMessages_found svc id (h_userToken r) hw) as Hsome.
  destruct (getBackendMessages svc id (h_userToken r) hw) as [answer hw1].
  cbn [fst snd] in *. subst hw1.
  match goal with
  | |- context [loadConversationFromDisk svc id ?h] =>
      pose proof (loadConversationFromDisk_world svc id h) as Hw2;
      destruct (loadConversationFromDisk svc id h) as [file hw2]
  end.
  cbn [fst snd route_world asked read] in *. subst hw2.
  destruct (conversationStore (route_world hw) !! id) as [[|m h]|] eqn:Hs;
    cbn [found].
  2:{ split_and!; [reflexivity | discriminate | discriminate]. }
  all: split; [discriminate|].
  all: destruct answer as [[|b0 b]|];
         [ congruence
         | split; [intros _; split; [reflexivity | left; reflexivity]
                  | discriminate] | ].
  all: destruct file as [[|d0 d]|]; cbn [fst snd asked read route_world remember];
         (split; [intros _; split; [reflexivity | right; split; reflexivity]
                 | try discriminate; intros _; reflexivity]).
Qed.

Lemma history_asks_in_order_witness :
  let out := POST svc_down (inr (history_of "7")) (hworld world0) in
  asked (snd out)
  = [{| thread_id := lit "7"; thread_token := Some (lit "u-1") |}]
  /\ read (snd out) = [lit "7"].
Proof.
  destruct (history_asks_in_order svc_down (history_of "7") (lit "7") (hworld world0)
              eq_refl) as [_ [Hmiss _]].
  destruct (Hmiss eq_refl) as [Hasked [Hread|[Hread _]]].
  - vm_compute in Hread. discriminate.
  - cbv zeta. rewrite Hasked, Hread. split; reflexivity.
Defined.

(** *** After an answer of the chat route *)

Lemma last_displayMessages (h : list Message) (m : Message) :
  last h = Some m -> role m <> system -> last (displayMessages h) = Some m.
Proof.
  intros Hl Hm. destruct (last_Some h m) as [[l' ->] _]; [exact Hl|].
  unfold displayMessages. rewrite List.filter_app. cbn [List.filter].
  destruct (role m); try congruence; cbn [Role_eqb negb]; apply last_snoc.
Qed.

(** X13.  The history route shows what the chat route stored.  After an
    answer of the chat route with a message, a history request for the
    conversation of that answer is answered with status 200 from the
    store alone, and the last message shown is that answer. *)
Theorem history_after_chat {rt : Runtime} (env : Env) (svc : Services)
    (req : ChatRequest) (w : World) (id : str) (msg : Message) (used : Z)
    (hw : HistoryWorld) (token : option str) :
  body (fst (Route.POST env (inr req) w)) = ChatBody id msg used ->
  randomUUID env <> [] ->
  role msg <> system ->
  route_world hw = snd (Route.POST env (inr req) w) ->
  exists shown,
    POST svc (inr {| h_conversationId := Some id; h_userToken := token |}) hw
    = ({| h_status := 200; h_body := HistoryMessages shown (Some id) |}, hw)
    /\ last shown = Some msg.
Proof.
  intros Hbody Huuid Hrole Hw.
  destruct (POST_settles env req w id msg used Hbody)
    as [tok [ls [w2 [_ [Hid [Hmsg [_ [Hsettled _]]]]]]]].
  assert (Hne : id <> []).
  { rewrite Hid. unfold conversation_id. apply or_default_not_empty. exact Huuid. }
  assert (Hstored : exists h0 h,
             conversationStore (route_world hw) !! id = Some (h0 :: h)
             /\ last (h0 :: h) = Some msg).
  { rewrite Hw, Hsettled. unfold settled, store_append.
    cbn [snd log_backend set_store conversationStore]. rewrite <- Hid, <- Hmsg.
    rewrite lookup_insert_eq.
    set (all := default [] (conversationStore w2 !! id) ++ messages req ++ [msg]).
    assert (Hall : last all = Some msg).
    { subst all. rewrite !app_assoc. apply last_snoc. }
    assert (Hlen : (0 < length all)%nat).
    { subst all. rewrite !length_app. simpl. lia. }
    assert (Hkept : forall kept, last kept = Some msg ->
               exists h0 h, Some kept = Some (h0 :: h) /\ last (h0 :: h) = Some msg).
    { intros [|h0 h] Hk; [discriminate|]. exists h0, h. split; [reflexivity | exact Hk]. }
    destruct (0 <? MAX_STORED_MESSAGES env)%Z eqn:Hb; apply Hkept; [|exact Hall].
    rewrite slice_last_last; [exact Hall|].
    apply Z.ltb_lt in Hb. lia. }
  destruct Hstored as [h0 [h [Hs Hlast]]].
  exists (displayMessages (h0 :: h)). split.
  - rewrite (POST_cases svc _ id hw).
    + cbv zeta. rewrite Hs. reflexivity.
    + cbn [h_conversationId]. destruct id; [congruence | reflexivity].
  - apply last_displayMessages; assumption.
Qed.

#[local] Existing Instance rt0.

(** The search scenario, then the history of its conversation. *)
Lemma history_after_chat_witness :
  let answer :=
    text_message assistant
      "Found [Protected bike lanes](https://needpedia.org/posts/7) and [Bike lane map](https://needpedia.org/posts/9)." in
  let hw :=
    hworld (snd (Route.POST env_search (inr (ask "find ideas about bike lanes"))
                   world0)) in
  exists shown,
    POST svc_down (inr (history_of "c0ffee")) hw
    = ({| h_status := 200; h_body := HistoryMessages shown (Some (lit "c0ffee")) |},
       hw)
    /\ last shown = Some answer.
Proof.
  intros answer hw.
  apply (history_after_chat env_search svc_down (ask "find ideas about bike lanes")
           world0 (lit "c0ffee") answer 0 hw (Some (lit "u-1"))).
  - vm_compute. reflexivity.
  - vm_compute. discriminate.
  - vm_compute. discriminate.
  - reflexivity.
Defined.

End HistoryProofs.

(** ** More on the rich-text helpers *)

Module TextProofs.
Import StringProofs RichTextProofs.

(** *** Escaping *)

Lemma has_flat_map (c : N) (f : N -> str) (s : str) :
  (forall d, In d s -> has c (f d) = false) -> has c (flat_map f s) = false.
Proof.
  induction s as [|d s IH]; intros H; [reflexivity|].
  cbn [flat_map]. rewrite has_app, (H d) by (left; reflexivity).
  apply IH. intros e He. apply H. right. exact He.
Qed.

Lemma has_false_in (c : N) (s : str) : has c s = false -> ~ In c s.
Proof.
  induction s as [|d s IH]; intros H []; subst.
  - exact (has_head _ _ _ H eq_refl).
  - exact (IH (has_tail _ _ _ H) H0).
Qed.

(** X14.  Escaped text holds no angle bracket: what [toRichHtml] puts
    between its tags cannot open or close a tag of its own. *)
Theorem esc_leaves_no_angle_bracket (s : str) :
  has 60 (esc s) = false /\ has 62 (esc s) = false.
Proof.
  unfold esc.
  assert (H2 : has 60 (flat_map esc2 (flat_map esc1 s)) = false).
  { apply has_flat_map. intros d _. unfold esc2.
    destruct (N.eqb_spec d 60) as [->|Hd]; [reflexivity|].
    rewrite has_cons. apply N.eqb_neq in Hd. rewrite N.eqb_sym, Hd. reflexivity. }
  split.
  - apply has_flat_map. intros d Hd. unfold esc3.
    destruct (N.eqb_spec d 62) as [->|Hne]; [reflexivity|].
    rewrite has_cons.
    destruct (N.eqb_spec 60 d) as [<-|_]; [|reflexivity].
    exfalso. exact (has_false_in _ _ H2 Hd).
  - apply has_flat_map. intros d _. unfold esc3.
    destruct (N.eqb_spec d 62) as [->|Hd]; [reflexivity|].
    rewrite has_cons. apply N.eqb_neq in Hd. rewrite N.eqb_sym, Hd. reflexivity.
Qed.

(** One pass of [entities] over a text written code unit by code unit. *)
Lemma replace_global_flat_map (m : matcher) (f g : N -> str) (s : str) :
  (forall c rest,
      In c s ->
      replace_global m (f c ++ rest) = g c ++ replace_global m rest) ->
  replace_global m (flat_map f s) = flat_map g s.
Proof.
  induction s as [|c s IH]; intros H; [reflexivity|].
  cbn [flat_map]. rewrite H by (left; reflexivity).
  rewrite IH; [reflexivity|]. intros d rest Hd. apply H. right. exact Hd.
Qed.


Lemma flat_map_unit (s : str) : flat_map (fun c => [c]) s = s.
Proof. induction s as [|c s IH]; [reflexivity|]. cbn [flat_map app]. rewrite IH. reflexivity. Qed.

(** The escapes of a code unit that is not [&]: the entity of an angle
    bracket, or the code unit. *)
Lemma esc_unit (c : N) :
  c <> 38 ->
  flat_map esc3 (flat_map esc2 (esc1 c))
  = if c =? 60 then lit "&lt;" else if c =? 62 then lit "&gt;" else [c].
Proof.
  intros Hc. unfold esc1. destruct (N.eqb_spec c 38); [congruence|].
  cbn [flat_map]. rewrite app_nil_r. unfold esc2.
  destruct (N.eqb_spec c 60) as [->|H60]; [reflexivity|].
  cbn [flat_map]. rewrite app_nil_r. unfold esc3.
  destruct (N.eqb_spec c 62); reflexivity.
Qed.

Lemma esc_flat_map (s : str) :
  esc s = flat_map (fun c => flat_map esc3 (flat_map esc2 (esc1 c))) s.
Proof.
  unfold esc. induction s as [|c s IH]; [reflexivity|].
  cbn [flat_map]. rewrite !flat_map_app, IH. reflexivity.
Qed.

(** An entity that is neither [&lt;] nor [&gt;] is not in the escape of
    a text without [&]. *)
Lemma entity_not_escaped (pat rep : str) (s : str) :
  head pat = Some 38 ->
  (forall rest, m_lit pat rep (lit "&lt;" ++ rest) = None) ->
  (forall rest, m_lit pat rep (lit "&gt;" ++ rest) = None) ->
  has 38 s = false ->
  replace_global (m_lit pat rep) (esc s) = esc s.
Proof.
  intros Hp Hlt Hgt Hs. rewrite esc_flat_map.
  apply replace_global_flat_map. intros c rest Hc.
  assert (Hne : c <> 38).
  { intros ->. exact (has_false_in _ _ Hs Hc). }
  assert (Hmiss : forall d r, d <> 38 -> m_lit pat rep (d :: r) = None).
  { intros d r Hd. apply m_entity_head; assumption. }
  rewrite (esc_unit c Hne).
  destruct (c =? 60); [|destruct (c =? 62) eqn:H62].
  - change (lit "&lt;" ++ rest) with (38 :: 108 :: 116 :: 59 :: rest).
    rewrite replace_global_miss by apply Hlt.
    rewrite !replace_global_miss by (apply Hmiss; discriminate). reflexivity.
  - change (lit "&gt;" ++ rest) with (38 :: 103 :: 116 :: 59 :: rest).
    rewrite replace_global_miss by apply Hgt.
    rewrite !replace_global_miss by (apply Hmiss; discriminate). reflexivity.
  - cbn [app]. rewrite replace_global_miss by (apply Hmiss; exact Hne). reflexivity.
Qed.

(** X15.  For a text without [&], the entities of [htmlToPlainText] undo
    the escapes of [toRichHtml]: angle brackets, quotes and everything
    else come back as they were. *)
Theorem entities_undo_esc (s : str) :
  has 38 s = false -> entities (esc s) = s.
Proof.
  intros Hs. unfold entities.
  rewrite (entity_not_escaped (lit "&nbsp;")) by (reflexivity || exact Hs).
  rewrite (entity_not_escaped (lit "&amp;")) by (reflexivity || exact Hs).
  assert (Hlt : replace_global (m_lit (lit "&lt;") (lit "<")) (esc s)
                = flat_map esc3 s).
  { rewrite esc_flat_map. apply replace_global_flat_map. intros c rest Hc.
    assert (Hne : c <> 38).
    { intros ->. exact (has_false_in _ _ Hs Hc). }
    rewrite (esc_unit c Hne). unfold esc3.
    destruct (N.eqb_spec c 60) as [->|H60].
    - change (lit "&lt;" ++ rest) with (38 :: 108 :: 116 :: 59 :: rest).
      rewrite (replace_global_hit _ 38 _ (lit "<") 3) by reflexivity.
      reflexivity.
    - destruct (N.eqb_spec c 62) as [->|H62].
      + change (lit "&gt;" ++ rest) with (38 :: 103 :: 116 :: 59 :: rest).
        rewrite !replace_global_miss by reflexivity. reflexivity.
      + cbn [app]. rewrite replace_global_miss; [reflexivity|].
        apply m_lit_head. exact Hne. }
  rewrite Hlt.
  assert (Hgt : replace_global (m_lit (lit "&gt;") (lit ">")) (flat_map esc3 s) = s).
  { rewrite <- (flat_map_unit s) at 2.
    apply replace_global_flat_map. intros c rest Hc.
    assert (Hne : c <> 38).
    { intros ->. exact (has_false_in _ _ Hs Hc). }
    unfold esc3. destruct (N.eqb_spec c 62) as [->|H62].
    - change (lit "&gt;" ++ rest) with (38 :: 103 :: 116 :: 59 :: rest).
      rewrite (replace_global_hit _ 38 _ (lit ">") 3) by reflexivity.
      reflexivity.
    - cbn [app]. rewrite replace_global_miss; [reflexivity|].
      apply m_lit_head. exact Hne. }
  rewrite Hgt.
  rewrite (entity_without (lit "&quot;")) by (reflexivity || exact Hs).
  apply entity_without; [reflexivity | exact Hs].
Qed.

Lemma entities_undo_esc_witness :
  entities (esc (lit "if a < b then b > a")) = lit "if a < b then b > a".
Proof.
  apply (entities_undo_esc (lit "if a < b then b > a")).
  vm_compute. reflexivity.
Defined.

(** With a [&] it need not be so: the entities are read one replacement
    after the other, and a text that spells an entity comes back as the
    character. *)
Example entities_read_twice :
  esc (lit "&lt;") = lit "&amp;lt;" /\ entities (esc (lit "&lt;")) = lit "<".
Proof. vm_compute. split; reflexivity. Qed.

(** *** The plain text *)

Lemma trimEnd_fixed (s : str) :
  trimEnd s = s <-> s = [] \/ exists r c, s = r ++ [c] /\ is_white_space c = false.
Proof.
  unfold trimEnd. split.
  - intros H. destruct (rev s) as [|c r] eqn:Hr.
    + left. apply (f_equal (@rev N)) in Hr. rewrite rev_involutive in Hr. exact Hr.
    + right. exists (rev r), c.
      assert (Hs : s = rev r ++ [c]).
      { apply (f_equal (@rev N)) in Hr. rewrite rev_involutive in Hr. exact Hr. }
      split; [exact Hs|].
      apply (trimStart_head (c :: r) c r).
      apply (f_equal (@rev N)) in H. rewrite rev_involutive in H.
      rewrite H. exact Hr.
  - intros [->|[r [c [-> Hc]]]]; [reflexivity|].
    rewrite rev_app_distr. cbn [rev app]. rewrite trimStart_clean by exact Hc.
    cbn [rev]. rewrite rev_involutive. reflexivity.
Qed.

(** Trimming the start of a text that ends clean leaves a text that ends
    clean. *)
Lemma trimEnd_trimStart (s : str) :
  trimEnd s = s -> trimEnd (trimStart s) = trimStart s.
Proof.
  intros H. apply trimEnd_fixed.
  apply trimEnd_fixed in H. destruct H as [->|[r [c [-> Hc]]]]; [left; reflexivity|].
  induction r as [|d r IH]; cbn [app trimStart].
  - rewrite Hc. right. exists [], c. split; [reflexivity | exact Hc].
  - destruct (is_white_space d); [exact IH|].
    right. exists (d :: r), c. split; [reflexivity | exact Hc].
Qed.

Lemma trim_idem (s : str) : trim (trim s) = trim s.
Proof.
  unfold trim. rewrite trimEnd_trimStart by apply trimEnd_idem.
  apply trimStart_idem.
Qed.

(** What [trim] leaves is a piece of the text. *)
Lemma trim_piece (s : str) : exists d t, s = d ++ trim s ++ t.
Proof.
  unfold trim. destruct (trimEnd_prefix s) as [t [Hs _]].
  destruct (trimStart_suffix (trimEnd s)) as [d [Hd _]].
  exists d, t. rewrite app_assoc, <- Hd. exact Hs.
Qed.

Lemma leading_newlines_cons (c : N) (s : str) :
  leading_newlines (c :: s) = if c =? 10 then S (leading_newlines s) else 0%nat.
Proof.
  unfold leading_newlines. cbn [span].
  destruct (c =? 10); [|reflexivity].
  destruct (span (fun c0 => c0 =? 10) s). reflexivity.
Qed.

Lemma leading_newlines_skipn (s : str) :
  leading_newlines (skipn (leading_newlines s) s) = 0%nat.
Proof.
  induction s as [|c s IH]; [reflexivity|].
  rewrite (leading_newlines_cons c s).
  destruct (c =? 10) eqn:Hc.
  - cbn [skipn]. exact IH.
  - cbn [skipn]. rewrite leading_newlines_cons, Hc. reflexivity.
Qed.

Lemma skipn_shorter {A} (n : nat) (l : list A) : (length (skipn n l) <= length l)%nat.
Proof. rewrite length_skipn. lia. Qed.

(** After [/\n{3,}/g] is replaced, a text starts with at most two line
    feeds, and holds no three in a row. *)
Lemma blank_lines_replaced (n : nat) :
  forall s,
    (length s <= n)%nat ->
    leading_newlines (replace_global m_blank_lines s)
    = Nat.min (leading_newlines s) 2
    /\ forall a b, replace_global m_blank_lines s <> a ++ 10 :: 10 :: 10 :: b.
Proof.
  induction n as [|n IH]; intros s Hn.
  { destruct s; [|simpl in Hn; lia]. split; [reflexivity|].
    intros [|x a] b; discriminate. }
  destruct s as [|c s]; [split; [reflexivity | intros [|x a] b; discriminate]|].
  cbn [length] in Hn.
  destruct (N.eqb_spec c 10) as [->|Hc].
  - destruct (Nat.le_gt_cases 3 (leading_newlines (10 :: s))) as [Hrun|Hrun].
    + (* three or more: two are left *)
      assert (Hm : m_blank_lines (10 :: s)
                   = Some ([10; 10], S (leading_newlines s))).
      { unfold m_blank_lines. fold (leading_newlines (10 :: s)).
        rewrite leading_newlines_cons in *. change (10 =? 10) with true in *.
        cbv iota in *. apply Nat.leb_le in Hrun. rewrite Hrun. reflexivity. }
      rewrite (replace_global_hit _ _ _ _ _ Hm).
      destruct (IH (skipn (leading_newlines s) s)) as [Hlead Hnone].
      { pose proof (skipn_shorter (leading_newlines s) s). lia. }
      rewrite leading_newlines_skipn in Hlead. cbn [Nat.min] in Hlead.
      cbn [app]. split.
      * rewrite !leading_newlines_cons. change (10 =? 10) with true. cbv iota.
        rewrite Hlead. rewrite leading_newlines_cons in Hrun.
        change (10 =? 10) with true in Hrun. cbv iota in Hrun. lia.
      * intros [|x [|y a]] b H.
        -- injection H as H. rewrite H, !leading_newlines_cons in Hlead.
           change (10 =? 10) with true in Hlead. discriminate.
        -- injection H as _ H. rewrite H, !leading_newlines_cons in Hlead.
           change (10 =? 10) with true in Hlead. discriminate.
        -- injection H as _ _ H. exact (Hnone a b H).
    + (* one or two: they stay *)
      assert (Hm : m_blank_lines (10 :: s) = None).
      { unfold m_blank_lines. fold (leading_newlines (10 :: s)).
        apply Nat.leb_gt in Hrun. rewrite Hrun. reflexivity. }
      rewrite (replace_global_miss _ _ _ Hm).
      destruct (IH s) as [Hlead Hnone]; [lia|].
      rewrite leading_newlines_cons in Hrun. change (10 =? 10) with true in Hrun.
      cbv iota in Hrun. split.
      * rewrite !leading_newlines_cons. change (10 =? 10) with true. cbv iota.
        rewrite Hlead. lia.
      * intros [|x a] b H.
        -- injection H as H. rewrite H, !leading_newlines_cons in Hlead.
           change (10 =? 10) with true in Hlead. cbv iota in Hlead. lia.
        -- injection H as _ H. exact (Hnone a b H).
  - rewrite replace_global_miss by (apply m_blank_lines_head; exact Hc).
    destruct (IH s) as [_ Hnone]; [lia|].
    apply N.eqb_neq in Hc. split.
    + rewrite !leading_newlines_cons, Hc. reflexivity.
    + intros [|x a] b H.
      * injection H as H _. rewrite H in Hc. discriminate.
      * injection H as _ H. exact (Hnone a b H).
Qed.

(** X16.  A plain text is tidy: it neither starts nor ends with white
    space, so that trimming it again changes nothing, and it holds no
    three line feeds in a row, that is, never more than one blank line
    between two lines. *)
Theorem plain_text_is_tidy (html : str) :
  trim (htmlToPlainText html) = htmlToPlainText html
  /\ forall a b, htmlToPlainText html <> a ++ 10 :: 10 :: 10 :: b.
Proof.
  unfold htmlToPlainText. destruct html as [|c html].
  { split; [reflexivity | intros [|x a] b; discriminate]. }
  cbv zeta. split; [apply trim_idem|].
  intros a b H.
  match type of H with
  | trim (replace_global m_blank_lines ?t) = _ =>
      destruct (blank_lines_replaced (length t) t (Nat.le_refl _)) as [_ Hnone];
      destruct (trim_piece (replace_global m_blank_lines t)) as [d [e Hpiece]]
  end.
  rewrite H in Hpiece. apply (Hnone (d ++ a) (b ++ e)).
  rewrite Hpiece, <- !app_assoc. reflexivity.
Qed.

(** *** Blank text *)

Lemma trimStart_blank (s : str) :
  forallb is_white_space s = true -> trimStart s = [].
Proof.
  induction s as [|c s IH]; [reflexivity|]. cbn [forallb trimStart].
  intros H. apply andb_true_iff in H as [Hc Hs]. rewrite Hc. exact (IH Hs).
Qed.

Lemma trimEnd_blank (s : str) :
  forallb is_white_space s = true -> trimEnd s = [].
Proof.
  intros H. unfold trimEnd. rewrite trimStart_blank; [reflexivity|].
  rewrite forallb_forall in *. intros x Hx. apply H, in_rev. exact Hx.
Qed.

Lemma crlf_blank (k : nat) (s : str) :
  forallb is_white_space s = true ->
  forallb is_white_space (replace_from (m_lit [13; 10] [10]) k s) = true.
Proof.
  revert k. induction s as [|c s IH]; intros k H; [reflexivity|].
  cbn [forallb] in H. apply andb_true_iff in H as [Hc Hs].
  cbn [replace_from]. destruct k as [|k]; [|exact (IH k Hs)].
  unfold m_lit at 1. destruct (strip_prefix [13; 10] (c :: s)).
  - cbn [app forallb]. rewrite (IH _ Hs). reflexivity.
  - cbn [forallb]. rewrite Hc, (IH _ Hs). reflexivity.
Qed.

Lemma split_lines_blank (s : str) :
  forallb is_white_space s = true ->
  Forall (fun line => forallb is_white_space line = true) (split_lines s).
Proof.
  induction s as [|c s IH]; intros H; [repeat constructor|].
  cbn [forallb] in H. apply andb_true_iff in H as [Hc Hs].
  specialize (IH Hs). cbn [split_lines].
  destruct (c =? 10); [constructor; [reflexivity | exact IH]|].
  destruct (split_lines s) as [|l ls]; [repeat constructor; cbn; rewrite Hc; reflexivity|].
  inversion IH as [|? ? Hl Hls]; subst.
  constructor; [cbn [forallb]; rewrite Hc, Hl; reflexivity | exact Hls].
Qed.

Lemma rich_line_blank (st : RichState) (raw : str) :
  forallb is_white_space raw = true -> rich_line st raw = flushList st.
Proof. intros H. unfold rich_line. rewrite (trimEnd_blank raw H). reflexivity. Qed.

(** X17.  A text of white space only, the empty text with it, has no
    rich HTML: [toRichHtml] gives the empty string, so that a post made
    from such a description has an empty body. *)
Theorem toRichHtml_blank (s : str) :
  forallb is_white_space s = true -> toRichHtml s = [].
Proof.
  intros H. unfold toRichHtml.
  pose proof (split_lines_blank _ (crlf_blank 0 s H)) as Hlines.
  fold (replace_global (m_lit [13; 10] [10]) s) in Hlines.
  assert (Hfold : forall lines,
             Forall (fun line => forallb is_white_space line = true) lines ->
             fold_left rich_line lines {| htmlParts := []; listBuffer := [] |}
             = {| htmlParts := []; listBuffer := [] |}).
  { induction lines as [|l ls IH]; intros Hall; [reflexivity|].
    inversion Hall as [|? ? Hl Hls]; subst. cbn [fold_left].
    rewrite (rich_line_blank _ l Hl). exact (IH Hls). }
  rewrite (Hfold _ Hlines). reflexivity.
Qed.

Lemma toRichHtml_blank_witness :
  toRichHtml ([32; 9; 13; 10; 10; 160; 32]) = [].
Proof.
  apply (toRichHtml_blank [32; 9; 13; 10; 10; 160; 32]). vm_compute. reflexivity.
Defined.

(** *** Headings and lists *)

Lemma no_terminator_no_lf (t : str) :
  forallb (fun c => negb (is_line_terminator c)) t = true -> has 10 t = false.
Proof.
  induction t as [|c t IH]; [reflexivity|]. cbn [forallb]. intros H.
  apply andb_true_iff in H as [Hc Ht]. rewrite has_cons, (IH Ht), orb_false_r.
  apply N.eqb_neq. intros <-. discriminate Hc.
Qed.

Lemma no_terminator_no_cr (t : str) :
  forallb (fun c => negb (is_line_terminator c)) t = true -> has 13 t = false.
Proof.
  induction t as [|c t IH]; [reflexivity|]. cbn [forallb]. intros H.
  apply andb_true_iff in H as [Hc Ht]. rewrite has_cons, (IH Ht), orb_false_r.
  apply N.eqb_neq. intros <-. discriminate Hc.
Qed.

(** What the helpers make of a plain text. *)
Lemma plain_text_facts (t : str) :
  plain_text t ->
  (exists c r, t = c :: r /\ is_white_space c = false)
  /\ trimEnd t = t
  /\ dots t = Some t
  /\ fmtInline (esc t) = t.
Proof.
  intros [Hne [Htrim [Hterm [Hamp [Hlt [Hgt [Hstar Hurl]]]]]]].
  assert (Hend : trimEnd t = t).
  { rewrite <- Htrim at 2. rewrite <- Htrim at 1. unfold trim.
    apply trimEnd_trimStart, trimEnd_idem. }
  split_and!.
  - destruct t as [|c r]; [congruence|]. exists c, r. split; [reflexivity|].
    apply (trimStart_head (c :: r) c r).
    unfold trim in Htrim. rewrite Hend in Htrim. exact Htrim.
  - exact Hend.
  - unfold dots. rewrite (span_forall _ t Hterm). cbn [fst].
    destruct t; [congruence | reflexivity].
  - rewrite (esc_plain t Hamp Hlt Hgt). apply fmtInline_plain; [exact Hstar|].
    intros a b Hab. exists []. rewrite app_nil_r.
    exact (has_url_suffix t a b Hurl Hab).
Qed.

Lemma trimEnd_app (a t : str) :
  trimEnd t = t -> t <> [] -> trimEnd (a ++ t) = a ++ t.
Proof.
  intros Ht Hne. induction a as [|c a IH]; [exact Ht|].
  cbn [app]. apply trimEnd_cons; [exact IH|]. destruct a; cbn [app]; congruence.
Qed.

Lemma ws_star_dots_text (sep t : str) :
  forallb is_white_space sep = true -> plain_text t ->
  ws_star_dots (sep ++ t) = Some t.
Proof.
  intros Hsep Ht.
  destruct (plain_text_facts t Ht) as [[c [r [Hcr Hc]]] [_ [Hdots _]]].
  induction sep as [|d sep IH]; cbn [app].
  - rewrite Hcr in *. cbn [ws_star_dots]. rewrite Hc. exact Hdots.
  - cbn [forallb] in Hsep. apply andb_true_iff in Hsep as [Hd Hsep].
    cbn [ws_star_dots]. rewrite Hd, (IH Hsep). reflexivity.
Qed.

Lemma exec_heading_short (n : nat) :
  forall (m : nat) (c : N) (r : str),
    (n < m)%nat -> c <> 35 -> exec_heading m (repeat 35 n ++ c :: r) = None.
Proof.
  unfold exec_heading.
  induction n as [|n IH]; intros m c r Hm Hc; (destruct m as [|m]; [lia|]).
  - cbn [repeat app]. rewrite strip_prefix_head by congruence. reflexivity.
  - cbn [repeat app strip_prefix]. change (35 =? 35) with true. cbv iota.
    apply IH; [lia | exact Hc].
Qed.

Lemma exec_heading_here (n : nat) (sep t : str) :
  sep <> [] -> forallb is_white_space sep = true -> plain_text t ->
  exec_heading n (repeat 35 n ++ sep ++ t) = Some t.
Proof.
  intros Hne Hsep Ht. unfold exec_heading. rewrite strip_prefix_app.
  destruct sep as [|d sep]; [congruence|]. cbn [forallb] in Hsep.
  apply andb_true_iff in Hsep as [Hd Hsep].
  cbn [app ws_plus_dots]. rewrite Hd. apply ws_star_dots_text; assumption.
Qed.

Lemma crlf_without_lf (s : str) :
  has 10 s = false -> replace_global (m_lit [13; 10] [10]) s = s.
Proof.
  intros Hnl. apply replace_global_none. intros a b Hab. unfold m_lit.
  destruct (strip_prefix [13; 10] b) as [r|] eqn:Hb; [|reflexivity].
  apply strip_prefix_Some in Hb. subst b s.
  rewrite has_app in Hnl. apply orb_false_iff in Hnl as [_ Hnl].
  discriminate Hnl.
Qed.

Lemma has_repeat (c d : N) (n : nat) : c <> d -> has c (repeat d n) = false.
Proof.
  intros H. induction n as [|n IH]; [reflexivity|].
  cbn [repeat]. rewrite has_cons, IH, orb_false_r. apply N.eqb_neq. exact H.
Qed.

(** X18.  A line that is one to three [#], white space and a plain
    title becomes the heading of that level around the title: [h1] for
    one [#], [h2] for two, [h3] for three. *)
Theorem heading_line (n : nat) (sep t : str) :
  (1 <= n <= 3)%nat ->
  sep <> [] -> forallb is_white_space sep = true -> has 10 sep = false ->
  plain_text t ->
  toRichHtml (repeat 35 n ++ sep ++ t)
  = lit "<" ++ heading_tag n ++ lit ">" ++ t ++ lit "</" ++ heading_tag n ++ lit ">".
Proof.
  intros Hn Hne Hsep Hnl Ht.
  destruct (plain_text_facts t Ht) as [[c [r [Hcr Hc]]] [Hend [_ Hinline]]].
  assert (Hterm : has 10 t = false).
  { apply no_terminator_no_lf. apply Ht. }
  set (line := repeat 35 n ++ sep ++ t).
  assert (Hline : has 10 line = false).
  { subst line. rewrite !has_app, Hnl, Hterm, has_repeat by discriminate. reflexivity. }
  assert (Hclean : trimEnd line = line).
  { subst line. rewrite app_assoc. apply trimEnd_app; [exact Hend|].
    rewrite Hcr. discriminate. }
  assert (Hfull : exists l, trim line = 35 :: l).
  { unfold trim. rewrite Hclean. subst line.
    destruct n as [|n]; [lia|]. cbn [repeat app]. eexists.
    apply trimStart_clean. reflexivity. }
  destruct Hfull as [l Hfull].
  assert (Hhere : exec_heading n line = Some t).
  { apply exec_heading_here; assumption. }
  assert (Hshort : forall m, (n < m)%nat -> exec_heading m line = None).
  { intros m Hm. subst line. destruct sep as [|d sep]; [congruence|].
    cbn [app]. apply exec_heading_short; [exact Hm|].
    intros ->. cbn [forallb] in Hsep. discriminate Hsep. }
  unfold toRichHtml. rewrite (crlf_without_lf line Hline).
  rewrite (split_lines_single line Hline). cbn [fold_left].
  unfold rich_line. rewrite Hclean, Hfull.
  unfold heading, heading_tag.
  destruct n as [|[|[|[|n]]]]; try lia.
  - rewrite (Hshort 3%nat), (Hshort 2%nat), Hhere by lia.
    rewrite Hinline. reflexivity.
  - rewrite (Hshort 3%nat), Hhere by lia. rewrite Hinline. reflexivity.
  - rewrite Hhere. rewrite Hinline. reflexivity.
Qed.

Lemma heading_line_witness :
  toRichHtml (lit "## Safer streets")
  = lit "<h2>Safer streets</h2>".
Proof.
  apply (heading_line 2 (lit " ") (lit "Safer streets")).
  - lia.
  - discriminate.
  - reflexivity.
  - reflexivity.
  - vm_compute. split_and!; try reflexivity. discriminate.
Defined.

Lemma has_join (c : N) (sep : str) (parts : list str) :
  has c sep = false -> Forall (fun p => has c p = false) parts ->
  has c (join sep parts) = false.
Proof.
  intros Hsep. induction parts as [|p ps IH]; intros H; [reflexivity|].
  inversion H as [|? ? Hp Hps]; subst. cbn [join].
  destruct ps as [|q ps]; [exact Hp|].
  rewrite !has_app, Hp, Hsep, (IH Hps). reflexivity.
Qed.

Lemma split_lines_join (lines : list str) :
  lines <> [] -> Forall (fun l => has 10 l = false) lines ->
  split_lines (join [10] lines) = lines.
Proof.
  induction lines as [|p ps IH]; intros Hne H; [congruence|].
  inversion H as [|? ? Hp Hps]; subst. cbn [join].
  destruct ps as [|q ps]; [apply split_lines_single; exact Hp|].
  cbn [app]. rewrite (split_lines_newline p _ Hp), IH; [reflexivity | discriminate | exact Hps].
Qed.

(** A list item: [- ] and a plain text. *)
Lemma rich_line_item (st : RichState) (item : str) :
  plain_text item ->
  rich_line st (lit "- " ++ item)
  = {| htmlParts := htmlParts st; listBuffer := listBuffer st ++ [item] |}.
Proof.
  intros Ht.
  destruct (plain_text_facts item Ht) as [[c [r [Hcr Hc]]] [Hend [Hdots Hinline]]].
  change (lit "- " ++ item) with (45 :: 32 :: item).
  assert (Hclean : trimEnd (45 :: 32 :: item) = 45 :: 32 :: item).
  { apply trimEnd_cons; [|discriminate].
    apply trimEnd_cons; [exact Hend | rewrite Hcr; discriminate]. }
  unfold rich_line. rewrite Hclean.
  assert (Hfull : trim (45 :: 32 :: item) = 45 :: 32 :: item).
  { unfold trim. rewrite Hclean. apply trimStart_clean. reflexivity. }
  rewrite Hfull.
  assert (Hno : forall m, (0 < m)%nat -> exec_heading m (45 :: 32 :: item) = None).
  { intros m Hm. apply (exec_heading_short 0 m 45 (32 :: item)); [exact Hm | discriminate]. }
  rewrite !Hno by lia.
  assert (Hli : exec_li (45 :: 32 :: item) = Some item).
  { unfold exec_li. change (45 =? 45) with true. cbn [orb ws_plus_dots].
    change (is_white_space 32) with true. cbv iota.
    apply (ws_star_dots_text [] item); [reflexivity | exact Ht]. }
  rewrite Hli, Hinline. reflexivity.
Qed.

(** X19.  Lines that are [- ] and a plain text, one after the other,
    become one list: [<ul>], an [<li>] for each line in the order of the
    lines, and [</ul>], each on a line of its own. *)
Theorem list_lines (items : list str) :
  items <> [] -> Forall plain_text items ->
  toRichHtml (join [10] (List.map (fun item => lit "- " ++ item) items))
  = join [10]
      ([lit "<ul>"]
       ++ List.map (fun item => lit "<li>" ++ item ++ lit "</li>") items
       ++ [lit "</ul>"]).
Proof.
  intros Hne Hall.
  set (lines := List.map (fun item => lit "- " ++ item) items).
  assert (Hlines : lines <> []).
  { subst lines. destruct items; [congruence | discriminate]. }
  assert (Hlf : Forall (fun l => has 10 l = false) lines).
  { subst lines. apply List.Forall_forall. intros l Hl. apply in_map_iff in Hl.
    destruct Hl as [item [<- Hin]]. rewrite List.Forall_forall in Hall.
    rewrite has_app. rewrite (no_terminator_no_lf item) by apply (Hall item Hin).
    reflexivity. }
  assert (Hcr : Forall (fun l => has 13 l = false) lines).
  { subst lines. apply List.Forall_forall. intros l Hl. apply in_map_iff in Hl.
    destruct Hl as [item [<- Hin]]. rewrite List.Forall_forall in Hall.
    rewrite has_app. rewrite (no_terminator_no_cr item) by apply (Hall item Hin).
    reflexivity. }
  unfold toRichHtml.
  rewrite (replace_global_without (m_lit [13; 10] [10]) 13).
  2:{ intros d r Hd. apply m_lit_head. exact Hd. }
  2:{ apply has_join; [reflexivity | exact Hcr]. }
  rewrite (split_lines_join lines Hlines Hlf).
  assert (Hfold : forall st,
             fold_left rich_line lines st
             = {| htmlParts := htmlParts st; listBuffer := listBuffer st ++ items |}).
  { subst lines. clear Hlines Hlf Hcr Hne.
    induction items as [|item items IH]; intros st; cbn [List.map fold_left].
    - rewrite app_nil_r. destruct st; reflexivity.
    - inversion Hall as [|? ? Hitem Hrest]; subst.
      rewrite (rich_line_item st item Hitem), (IH Hrest).
      cbn [htmlParts listBuffer]. rewrite <- app_assoc. reflexivity. }
  rewrite Hfold. cbn [htmlParts listBuffer app].
  unfold flushList. cbn [listBuffer htmlParts].
  destruct items as [|item items]; [congruence|]. reflexivity.
Qed.

Lemma list_lines_witness :
  toRichHtml (lit "- lanes" ++ [10] ++ lit "- lights")
  = lit "<ul>" ++ [10] ++ lit "<li>lanes</li>" ++ [10]
    ++ lit "<li>lights</li>" ++ [10] ++ lit "</ul>".
Proof.
  apply (list_lines [lit "lanes"; lit "lights"]).
  - discriminate.
  - constructor; [|constructor; [|constructor]];
      (vm_compute; split_and!; try reflexivity; discriminate).
Defined.

End TextProofs.

(** ** Previews, the prompt and the newest message *)

Module WriteProofs.
Import Scenario StringProofs GateProofs HandlerProofs.

Section Writes.
Context {rt : Runtime} (env : Env) (userToken : option str).

(** X20.  What is previewed is what is posted.  For arguments with the
    fields of a creation, the call without [confirm] returns a preview
    and sends nothing; the same arguments with [confirm = true] send
    one request, the creation of a post whose body is the HTML of that
    preview, whose title and type are those of the preview, and whose
    parent goes to [subject_id] for a problem, to [problem_id] for an
    idea, and nowhere for any other type. *)
Theorem preview_is_what_is_posted (args : FunctionArgs) (w : World) :
  isCreateContentArgs args = true ->
  exists preview instructions post,
    create_content env userToken (with_confirm None args) w
    = (Returned (CreateConfirmation preview instructions), w)
    /\ backend_log
         (snd (create_content env userToken (with_confirm (Some (JsonBool true)) args) w))
       = backend_log w ++ [CreatePost post (truthy userToken)]
    /\ cpp_body post = cp_html preview
    /\ cpp_title post = default [] (cp_title preview)
    /\ cpp_post_type post = default [] (cp_content_type preview)
    /\ cpp_subject_id post
       = (if bool_decide (content_type args = Some (lit "problem"))
          then truthy (parent_id args) else None)
    /\ cpp_problem_id post
       = (if bool_decide (content_type args = Some (lit "idea"))
          then truthy (parent_id args) else None).
Proof.
  intros Hargs.
  assert (Hfields : forall c, isCreateContentArgs (with_confirm c args) = true)
    by (intros c; exact Hargs).
  unfold isCreateContentArgs in Hargs.
  apply andb_true_iff in Hargs as [Hargs Htype].
  apply andb_true_iff in Hargs as [Htitle Hdesc].
  apply bool_decide_eq_true in Htitle, Hdesc, Htype.
  destruct Htitle as [t Ht], Hdesc as [d Hd], Htype as [ct Hct].
  eexists _, _, _. split_and!.
  - unfold create_content. rewrite Hfields. cbn [negb confirmed falsy with_confirm confirm].
    reflexivity.
  - unfold create_content. rewrite Hfields. cbn [negb confirmed falsy with_confirm confirm].
    unfold token_header. apply (request_then_read env). reflexivity.
  - reflexivity.
  - cbn [cpp_title cp_title with_confirm title]. rewrite Ht.
    destruct t; reflexivity.
  - cbn [cpp_post_type cp_content_type with_confirm content_type]. rewrite Hct.
    destruct ct; reflexivity.
  - cbn [cpp_subject_id with_confirm content_type parent_id]. rewrite Hct.
    unfold str_eqb. destruct (decide (ct = lit "problem")) as [->|Hne].
    + rewrite bool_decide_eq_true_2 by reflexivity. reflexivity.
    + rewrite bool_decide_eq_false_2 by congruence. reflexivity.
  - cbn [cpp_problem_id with_confirm content_type parent_id]. rewrite Hct.
    unfold str_eqb. destruct (decide (ct = lit "idea")) as [->|Hne].
    + rewrite bool_decide_eq_true_2 by reflexivity. reflexivity.
    + rewrite bool_decide_eq_false_2 by congruence. reflexivity.
Qed.

(** X21.  An edit sends what its preview shows, and no empty field.
    For arguments with an id and changes, the call without [confirm]
    returns a preview and sends nothing; the same arguments with
    [confirm = true] send one request, the update of that post, with
    the title of the preview when it is not empty and with the HTML of
    the preview as body when it is not empty. *)
Theorem edit_sends_its_preview (args : FunctionArgs) (cid : str)
    (ch : Changes) (w : World) :
  content_id args = Some cid -> changes args = Some ch ->
  exists preview instructions post,
    edit_content env userToken (with_confirm None args) w
    = (Returned (EditConfirmation preview instructions), w)
    /\ backend_log
         (snd (edit_content env userToken (with_confirm (Some (JsonBool true)) args) w))
       = backend_log w ++ [UpdatePost cid post (truthy userToken)]
    /\ ep_content_id preview = cid
    /\ upp_title post = truthy (ep_title preview)
    /\ upp_body post = truthy (ep_html preview).
Proof.
  intros Hcid Hch. eexists _, _, _. split_and!.
  - unfold edit_content. cbn [with_confirm content_id changes confirmed falsy confirm].
    rewrite Hcid, Hch. cbn [negb]. reflexivity.
  - unfold edit_content. cbn [with_confirm content_id changes confirmed falsy confirm].
    rewrite Hcid, Hch. cbn [negb].
    unfold token_header. apply (request_then_read env). reflexivity.
  - reflexivity.
  - reflexivity.
  - reflexivity.
Qed.
End Writes.

#[local] Existing Instance rt0.

(** The creation of the scenario, previewed and then confirmed. *)
Lemma preview_is_what_is_posted_witness :
  exists preview instructions post,
    create_content env_search (Some (lit "u-1"))
      (with_confirm None (create_args None)) world0
    = (Returned (CreateConfirmation preview instructions), world0)
    /\ backend_log
         (snd (create_content env_search (Some (lit "u-1"))
                 (with_confirm (Some (JsonBool true)) (create_args None)) world0))
       = backend_log world0 ++ [CreatePost post (truthy (Some (lit "u-1")))]
    /\ cpp_body post = cp_html preview
    /\ cpp_title post = default [] (cp_title preview)
    /\ cpp_post_type post = default [] (cp_content_type preview)
    /\ cpp_subject_id post
       = (if bool_decide (content_type (create_args None) = Some (lit "problem"))
          then truthy (parent_id (create_args None)) else None)
    /\ cpp_problem_id post
       = (if bool_decide (content_type (create_args None) = Some (lit "idea"))
          then truthy (parent_id (create_args None)) else None).
Proof.
  apply (preview_is_what_is_posted env_search (Some (lit "u-1")) (create_args None)
           world0).
  reflexivity.
Defined.

(** The edit of the scenario: a new title, no description. *)
Lemma edit_sends_its_preview_witness :
  exists preview instructions post,
    edit_content env_search (Some (lit "u-1"))
      (with_confirm None (edit_args None)) world0
    = (Returned (EditConfirmation preview instructions), world0)
    /\ backend_log
         (snd (edit_content env_search (Some (lit "u-1"))
                 (with_confirm (Some (JsonBool true)) (edit_args None)) world0))
       = backend_log world0 ++ [UpdatePost (lit "7") post (truthy (Some (lit "u-1")))]
    /\ ep_content_id preview = lit "7"
    /\ upp_title post = truthy (ep_title preview)
    /\ upp_body post = truthy (ep_html preview).
Proof.
  apply (edit_sends_its_preview env_search (Some (lit "u-1")) (edit_args None)
           (lit "7")
           {| ch_title := Some (lit "Bike lanes"); ch_description := None |} world0);
    reflexivity.
Defined.

End WriteProofs.

(** ** The prompt and the newest message *)

Module ContextProofs.
Import Scenario StringProofs HandlerProofs MemoryProofs SearchProofs BillingProofs.

(** X22.  The newest message always reaches the model.  Whatever the
    bound on the context and however long the history, the last of the
    messages of the first request is the last message the caller
    sent. *)
Theorem newest_message_is_sent (env : Env) (req : ChatRequest) (w : World)
    (m : Message) :
  last (messages req) = Some m ->
  last (lm_messages (first_request env req w)) = Some m.
Proof.
  intros Hm. unfold first_request. cbn [lm_messages].
  set (base := baseHistory _ _).
  assert (Hjoined : last (base ++ messages req) = Some m).
  { destruct (last_Some (messages req) m) as [[l' ->] _]; [exact Hm|].
    rewrite app_assoc. apply last_snoc. }
  unfold requestMessages.
  destruct (_ <=? _)%Z; [exact Hjoined|].
  set (tail := slice_last _ (base ++ messages req)).
  assert (Htail : last tail = Some m).
  { subst tail. rewrite slice_last_last by lia. exact Hjoined. }
  destruct (last_Some tail m) as [[l' Hl] _]; [exact Htail|].
  rewrite Hl, app_assoc. apply last_snoc.
Qed.

Lemma newest_message_is_sent_witness :
  last (lm_messages (first_request env_search long_request world0))
  = Some (text_message user "and another thing").
Proof.
  apply (newest_message_is_sent env_search long_request world0).
  vm_compute. reflexivity.
Defined.

(** X23.  The system prompt leads.  When the stored history of the
    conversation holds no system message, the first message of the first
    request is the system prompt, whatever is cut from the history
    behind it. *)
Theorem system_prompt_leads (env : Env) (req : ChatRequest) (w : World) :
  existsb is_system
    (default [] (conversationStore w !! conversation_id env req)) = false ->
  head (lm_messages (first_request env req w)) = Some (prompt_message env).
Proof.
  intros Hnone. unfold first_request. cbn [lm_messages].
  fold (conversation_id env req). unfold baseHistory. rewrite Hnone.
  fold (prompt_message env).
  destruct (requestMessages_system (MAX_CONTEXT_MESSAGES env)
              (prompt_message env
               :: default [] (conversationStore w !! conversation_id env req))
              (messages req) (prompt_message env)
              (default [] (conversationStore w !! conversation_id env req)
               ++ messages req) eq_refl eq_refl) as [rest ->].
  reflexivity.
Qed.

Lemma system_prompt_leads_witness :
  head (lm_messages (first_request env_search long_request world0))
  = Some (prompt_message env_search).
Proof.
  apply (system_prompt_leads env_search long_request world0). reflexivity.
Defined.

Lemma slice_last_keeps {A} (k : Z) (a : list A) (x : A) (b : list A) :
  (length b < Z.to_nat k)%nat -> In x (slice_last k (a ++ x :: b)).
Proof.
  intros Hk. unfold slice_last. rewrite skipn_app, length_app. cbn [length].
  replace (length a + S (length b) - Z.to_nat k - length a)%nat with 0%nat by lia.
  cbn [skipn]. apply in_or_app. right. left. reflexivity.
Qed.

(** X24.  A conversation continues.  After an answer of the chat route
    with a message, the first request to the model for the next request
    of that conversation holds that answer, as long as the messages of
    the next request leave room for two more within the context bound. *)
Theorem conversation_continues {rt : Runtime} (env : Env)
    (req next : ChatRequest) (w : World) (id : str) (msg : Message) (used : Z) :
  body (fst (Route.POST env (inr req) w)) = ChatBody id msg used ->
  randomUUID env <> [] ->
  conversationId next = Some id ->
  (Z.of_nat (length (messages next)) + 2 <= MAX_CONTEXT_MESSAGES env)%Z ->
  In msg (lm_messages (first_request env next (snd (Route.POST env (inr req) w)))).
Proof.
  intros Hbody Huuid Hnext Hroom.
  destruct (POST_settles env req w id msg used Hbody)
    as [tok [ls [w2 [_ [Hid [Hmsg [_ [Hsettled _]]]]]]]].
  assert (Hne : id <> []).
  { rewrite Hid. unfold conversation_id. apply or_default_not_empty. exact Huuid. }
  assert (Hstored : exists kept,
             conversationStore (snd (Route.POST env (inr req) w)) !! id
             = Some (kept ++ [msg])).
  { rewrite Hsettled. unfold settled, store_append.
    cbn [snd log_backend set_store conversationStore]. rewrite <- Hid, <- Hmsg.
    rewrite lookup_insert_eq.
    set (all := default [] (conversationStore w2 !! id) ++ messages req ++ [msg]).
    assert (Hall : last all = Some msg).
    { subst all. rewrite !app_assoc. apply last_snoc. }
    assert (Hkept : forall kept, last kept = Some msg ->
               exists k', Some kept = Some (k' ++ [msg])).
    { intros kept Hk. destruct (last_Some kept msg) as [[k' ->] _]; [exact Hk|].
      exists k'. reflexivity. }
    destruct (0 <? MAX_STORED_MESSAGES env)%Z eqn:Hb; apply Hkept; [|exact Hall].
    rewrite slice_last_last; [exact Hall|]. apply Z.ltb_lt in Hb. lia. }
  destruct Hstored as [kept Hkept].
  unfold first_request. cbn [lm_messages]. rewrite Hnext.
  assert (Hsame : or_default (Some id) (randomUUID env) = id).
  { destruct id; [congruence | reflexivity]. }
  rewrite Hsame, Hkept.
  change (default [] (Some (kept ++ [msg]))) with (kept ++ [msg]).
  assert (Hbase : exists b,
             baseHistory (SYSTEM_PROMPT env) (kept ++ [msg]) = b ++ [msg]).
  { unfold baseHistory. destruct (existsb is_system (kept ++ [msg])).
    - exists kept. reflexivity.
    - eexists (_ :: kept). reflexivity. }
  destruct Hbase as [b Hb]. rewrite Hb. unfold requestMessages.
  rewrite <- app_assoc. cbn [app].
  destruct (_ <=? _)%Z.
  - apply in_or_app. right. left. reflexivity.
  - apply in_or_app. right. apply slice_last_keeps.
    pose proof (leading_system_length (b ++ msg :: messages next)). lia.
Qed.

#[local] Existing Instance rt0.

(** The search scenario, and a second question in its conversation. *)
Lemma conversation_continues_witness :
  let answer :=
    text_message assistant
      "Found [Protected bike lanes](https://needpedia.org/posts/7) and [Bike lane map](https://needpedia.org/posts/9)." in
  let next :=
    {| messages := [text_message user "tell me more about the first"];
       conversationId := Some (lit "c0ffee"); userToken := Some (lit "u-1") |} in
  In answer
    (lm_messages
       (first_request env_search next
          (snd (Route.POST env_search (inr (ask "find ideas about bike lanes"))
                  world0)))).
Proof.
  intros answer next.
  apply (conversation_continues env_search (ask "find ideas about bike lanes") next
           world0 (lit "c0ffee") answer 0).
  - vm_compute. reflexivity.
  - vm_compute. discriminate.
  - reflexivity.
  - vm_compute. discriminate.
Defined.

End ContextProofs.

(** ** Where the links come from *)

Module LinkSourceProofs.
Import Scenario StringProofs RichTextProofs.

Lemma collect_links_not_searches (results : list ExecutedToolResult) :
  Forall (fun r => er_name r <> lit "find_content") results ->
  collect_links results = [].
Proof.
  unfold collect_links. induction results as [|r rs IH]; intros H; [reflexivity|].
  inversion H as [|? ? Hr Hrs]; subst. cbn [List.filter].
  rewrite (str_eqb_neq _ _ Hr). exact (IH Hrs).
Qed.

Lemma replace_links_without_bracket (links : list str) (i : nat) (s : str) :
  has 91 s = false -> replace_links links i 0 s = s.
Proof.
  induction s as [|c s IH]; intros H; [reflexivity|].
  cbn [replace_links]. unfold placeholder_at.
  rewrite strip_prefix_head by exact (has_head _ _ _ H).
  rewrite IH by exact (has_tail _ _ _ H). reflexivity.
Qed.

(** X25.  The links put into an answer come from searches alone: when
    no executed result is a search, the text is returned as it is, with
    its placeholder links, whatever links the posts created or edited in
    the request have.  And a text without [[] is returned as it is,
    whatever was found. *)
Theorem placeholders_need_a_search (text : str)
    (results : list ExecutedToolResult) :
  (Forall (fun r => er_name r <> lit "find_content") results ->
   replacePlaceholderLinksWithToolUrls text results = text)
  /\ (has 91 text = false ->
      replacePlaceholderLinksWithToolUrls text results = text).
Proof.
  unfold replacePlaceholderLinksWithToolUrls. split.
  - intros H. rewrite (collect_links_not_searches results H).
    destruct text; reflexivity.
  - intros H. destruct text as [|c t]; [reflexivity|].
    destruct (collect_links results); [reflexivity|].
    apply replace_links_without_bracket. exact H.
Qed.

End LinkSourceProofs.

(** ** What a request asks of the Content Backend *)

Module BackendProofs.
Import Scenario StringProofs RoundProofs HandlerProofs.

Section Sends.
Context (P : BackendRequest -> Prop).

Lemma sends_nothing {A} (m : M A) :
  (forall w, backend_log (snd (m w)) = backend_log w) -> sends P m.
Proof.
  intros H w. exists []. rewrite app_nil_r. split; [apply H | constructor].
Qed.

Lemma sends_ret {A} (a : A) : sends P (ret a).
Proof. apply sends_nothing. reflexivity. Qed.

Lemma sends_throw {A} (e : Thrown) : sends P (@throw A e).
Proof. apply sends_nothing. reflexivity. Qed.

Lemma sends_bind {A B} (m : M A) (k : A -> M B) :
  sends P m -> (forall a, sends P (k a)) -> sends P (bind m k).
Proof.
  intros Hm Hk w. unfold bind. destruct (Hm w) as [new [H1 H2]].
  destruct (m w) as [[a|e] w1]; cbn [snd] in *.
  - destruct (Hk a w1) as [new' [H3 H4]]. exists (new ++ new').
    rewrite H3, H1, <- app_assoc. split; [reflexivity|].
    apply Forall_app. split; assumption.
  - exists new. split; assumption.
Qed.

Lemma sends_backend (env : Env) (r : BackendRequest) :
  P r -> sends P (backend env r).
Proof.
  intros Hr w. exists [r]. unfold backend.
  destruct (fetch env _ r); (split; [reflexivity | repeat constructor; exact Hr]).
Qed.

Lemma sends_read_payload (resp : Response) : sends P (read_payload resp).
Proof.
  unfold read_payload. destruct (r_ok resp); [apply sends_ret | apply sends_throw].
Qed.

Lemma sends_chat_completions (env : Env) (r : LMRequest) :
  sends P (chat_completions env r).
Proof.
  apply sends_nothing. intros w. rewrite chat_completions_cases.
  destruct (openRouter env _ r); reflexivity.
Qed.

Section Executors.
Context {rt : Runtime} (env : Env) (userToken : option str).

Lemma sends_find_content (args : FunctionArgs) :
  (forall postType q, P (SearchPosts postType q (truthy userToken))) ->
  sends P (find_content env userToken args).
Proof.
  intros HP. unfold find_content.
  destruct (query args) as [q|]; [|apply sends_throw].
  apply sends_bind; [apply sends_nothing; reflexivity | intros t].
  apply sends_bind; [apply sends_nothing; reflexivity | intros cached].
  assert (Hmiss : forall k, sends P (find_content_miss env userToken q
            (toLowerCase (or_default (type_ args) (lit "all"))) k t)).
  { intros k. unfold find_content_miss.
    apply sends_bind; [apply sends_backend, HP | intros resp].
    apply sends_bind; [apply sends_read_payload | intros p].
    apply sends_bind; [apply sends_nothing; reflexivity | intros _].
    apply sends_ret. }
  destruct cached as [entry|]; [|apply Hmiss].
  destruct (_ <? _)%Z; [apply sends_ret | apply Hmiss].
Qed.

Lemma sends_create_content (args : FunctionArgs) :
  (confirmed args = true ->
   forall payload, P (CreatePost payload (truthy userToken))) ->
  sends P (create_content env userToken args).
Proof.
  intros HP. unfold create_content.
  destruct (negb (isCreateContentArgs args)); [apply sends_throw|].
  destruct (confirmed args); cbn [negb]; [|apply sends_ret].
  apply sends_bind; [apply sends_backend, HP; reflexivity | intros resp].
  apply sends_bind; [apply sends_read_payload | intros p]. apply sends_ret.
Qed.

Lemma sends_edit_content (args : FunctionArgs) :
  (confirmed args = true ->
   forall cid payload, P (UpdatePost cid payload (truthy userToken))) ->
  sends P (edit_content env userToken args).
Proof.
  intros HP. unfold edit_content.
  destruct (content_id args), (changes args); try apply sends_throw.
  destruct (confirmed args); cbn [negb]; [|apply sends_ret].
  apply sends_bind; [apply sends_backend, HP; reflexivity | intros resp].
  apply sends_bind; [apply sends_read_payload | intros p]. apply sends_ret.
Qed.

Lemma sends_getFunctions (name : str) (f : JsonValue -> M FunctionResult)
    (args : JsonValue) :
  (forall postType q, P (SearchPosts postType q (truthy userToken))) ->
  (confirmed (as_args args) = true ->
   (forall payload, P (CreatePost payload (truthy userToken)))
   /\ (forall cid payload, P (UpdatePost cid payload (truthy userToken)))) ->
  getFunctions env userToken name = Some f -> sends P (f args).
Proof.
  intros Hsearch Hwrite. unfold getFunctions.
  repeat match goal with
         | |- context [if ?b then _ else _] => destruct b
         end; intros H; try (injection H as <-).
  - apply sends_find_content. exact Hsearch.
  - apply sends_create_content. intros Hc. apply (Hwrite Hc).
  - apply sends_edit_content. intros Hc. apply (Hwrite Hc).
  - apply sends_nothing. intros w.
    rewrite (inherited_pure name f args w H). reflexivity.
Qed.
End Executors.

Section Loop.
Context {rt : Runtime} (env : Env).
Context (funcs : str -> option (JsonValue -> M FunctionResult)).
(** The tool calls the model may ask for. *)
Context (ok : ToolCall -> Prop).
Hypothesis funcs_send :
  forall tc f j,
    ok tc ->
    funcs (tc_name tc) = Some f ->
    JSON_parse (or_default (Some (tc_arguments tc)) (lit "{}")) = Some j ->
    sends P (f j).
Hypothesis model_ok :
  forall n r data m,
    openRouter env n r = LMResponse data ->
    lm_message data = Some m ->
    Forall ok (pending m).
Context (model : str) (request : list Message).

Lemma sends_run_tool_call (tc : ToolCall) (st : RoundState) :
  ok tc -> sends P (run_tool_call funcs tc st).
Proof using funcs_send.
  intros Hok w. rewrite run_tool_call_cases.
  destruct (JSON_parse _) as [args|] eqn:Hparse.
  2:{ exists []. rewrite app_nil_r. split; [reflexivity | constructor]. }
  cbv zeta.
  destruct (roundMemo st !! _) as [cached|].
  { exists []. rewrite app_nil_r. split; [reflexivity | constructor]. }
  destruct (funcs (tc_name tc)) as [f|] eqn:Hf.
  2:{ exists []. rewrite app_nil_r. split; [reflexivity | constructor]. }
  destruct (funcs_send tc f args Hok Hf Hparse w) as [new [Hlog Hall]].
  exists new.
  destruct (f args w) as [[result|e] w1]; cbn [snd] in *;
    split; assumption.
Qed.

Lemma sends_run_tool_calls (tcs : list ToolCall) :
  Forall ok tcs -> forall st, sends P (run_tool_calls funcs tcs st).
Proof using funcs_send.
  induction tcs as [|tc tcs IH]; intros Hall st; cbn [run_tool_calls].
  - apply sends_ret.
  - inversion Hall as [|? ? Htc Hrest]; subst.
    apply sends_bind; [apply sends_run_tool_call; exact Htc | exact (IH Hrest)].
Qed.

(** One round sends what its tool calls send, and leaves a message
    of the model to the next. *)
Lemma sends_round (toolCalls : list ToolCall) (ls : LoopState) (w : World) :
  Forall ok toolCalls ->
  exists new,
    backend_log (snd (round env funcs model request toolCalls ls w))
    = backend_log w ++ new
    /\ Forall P new
    /\ forall ls' brk w',
        round env funcs model request toolCalls ls w = (Returned (ls', brk), w') ->
        Forall ok (pending (assistantMessage ls')).
Proof using funcs_send model_ok.
  intros Hok. rewrite round_cases.
  destruct (sends_run_tool_calls toolCalls Hok (new_round (executed ls)) w)
    as [new [Hlog Hall]].
  exists new.
  destruct (run_tool_calls funcs toolCalls (new_round (executed ls)) w)
    as [[st|e] w1]; cbn [snd] in Hlog.
  2:{ split_and!; [exact Hlog | exact Hall | discriminate]. }
  cbv zeta.
  destruct (openRouter env (length (lm_log w1)) _) as [data|msg resp] eqn:H1.
  2:{ split_and!; [exact Hlog | exact Hall | discriminate]. }
  destruct (lm_message data) as [m|] eqn:Hm.
  2:{ split_and!; [exact Hlog | exact Hall | discriminate]. }
  destruct (no_content m && bool_decide (pending m = [])).
  - destruct (openRouter env (length (lm_log (log_lm _ w1))) _)
      as [final|msg resp] eqn:H2.
    2:{ split_and!; [exact Hlog | exact Hall | discriminate]. }
    destruct (lm_message final) as [m'|] eqn:Hm'.
    2:{ split_and!; [exact Hlog | exact Hall | discriminate]. }
    split_and!; [exact Hlog | exact Hall |].
    intros ls' brk w' H. injection H as <- _ _.
    exact (model_ok _ _ _ _ H2 Hm').
  - split_and!; [exact Hlog | exact Hall |].
    intros ls' brk w' H. injection H as <- _ _.
    exact (model_ok _ _ _ _ H1 Hm).
Qed.

Lemma sends_tool_loop (remaining : nat) :
  forall ls,
    Forall ok (pending (assistantMessage ls)) ->
    sends P (tool_loop env funcs model request remaining ls).
Proof using funcs_send model_ok.
  induction remaining as [|k IH]; intros ls Hok; cbn [tool_loop].
  - destruct (pending (assistantMessage ls)); apply sends_ret.
  - destruct (pending (assistantMessage ls)) as [|tc tcs] eqn:Hp;
      [apply sends_ret|].
    intros w. unfold bind.
    destruct (sends_round (tc :: tcs) ls w Hok) as [new [Hlog [Hall Hnext]]].
    destruct (round env funcs model request (tc :: tcs) ls w)
      as [[[ls1 brk]|e] w1]; cbn [fst snd] in *.
    2:{ exists new. split; assumption. }
    destruct brk.
    + exists new. split; assumption.
    + destruct (IH ls1 (Hnext ls1 false w1 eq_refl) w1) as [new' [Hlog' Hall']].
      exists (new ++ new'). rewrite Hlog', Hlog, <- app_assoc.
      split; [reflexivity|]. apply Forall_app. split; assumption.
Qed.
End Loop.

(** What [POST] sends: what its executors send, and the decrement. *)
Lemma POST_sends {rt : Runtime} (env : Env) (ok : ToolCall -> Prop)
    (req : str + ChatRequest) (w : World) :
  (forall r tc f j,
      req = inr r -> ok tc ->
      getFunctions env (userToken r) (tc_name tc) = Some f ->
      JSON_parse (or_default (Some (tc_arguments tc)) (lit "{}")) = Some j ->
      sends P (f j)) ->
  (forall n r data m,
      openRouter env n r = LMResponse data ->
      lm_message data = Some m ->
      Forall ok (pending m)) ->
  (forall r token used,
      req = inr r -> truthy (userToken r) = Some token ->
      P (DecreaseTokens token used)) ->
  exists new,
    backend_log (snd (POST env req w)) = backend_log w ++ new /\ Forall P new.
Proof.
  intros Hfuncs Hmodel Hdec.
  assert (Hnone : forall x : HttpResponse * World,
             backend_log (snd x) = backend_log w ->
             exists new,
               backend_log (snd x) = backend_log w ++ new /\ Forall P new).
  { intros x Hx. exists []. rewrite app_nil_r. split; [exact Hx | constructor]. }
  destruct req as [message|r]; cbn [POST]; [apply Hnone; reflexivity|].
  rewrite handle_cases.
  destruct (truthy (userToken r)) as [token|] eqn:Htoken;
    [|apply (Hnone (_, _)); reflexivity].
  destruct (truthy (OPENROUTER_API_KEY (process_env env)));
    [|apply (Hnone (_, _)); reflexivity].
  cbv zeta. set (r0 := first_request env r w).
  destruct (openRouter env (length (lm_log w)) r0) as [response|msg resp] eqn:H0;
    [|apply (Hnone (_, _)); reflexivity].
  destruct (lm_message response) as [first|] eqn:Hfirst;
    [|apply (Hnone (_, _)); reflexivity].
  destruct (sends_tool_loop env (getFunctions env (userToken r)) ok
              (fun tc f j => Hfuncs r tc f j eq_refl) Hmodel
              (lm_model r0) (lm_messages r0) 5
              (loop_start response first) (Hmodel _ _ _ _ H0 Hfirst)
              (log_lm r0 w)) as [new [Hlog Hall]].
  destruct (tool_loop _ _ _ _ _ _ _) as [[ls|err] w2]; cbn [fst snd] in *.
  - exists (new ++ [DecreaseTokens token (Z.max 1 (usedTokens ls))]).
    unfold settled, store_append. cbn [snd log_backend set_store backend_log].
    rewrite Hlog. cbn [log_lm backend_log]. rewrite <- app_assoc.
    split; [reflexivity|]. apply Forall_app. split; [exact Hall|].
    repeat constructor. exact (Hdec r token _ eq_refl Htoken).
  - exists new. split; assumption.
Qed.
End Sends.

(** X26.  No confirmation, no write.  When no answer of the model asks
    for a tool call with a [confirm] that reads as true in a condition
    (every tool call has no [confirm], or [null], [false], a zero, [NaN]
    or the empty string for it), a request writes nothing, whatever else
    the model asks, under whatever tool name, and however often: the only
    requests it adds to those sent to the Content Backend are searches
    and the token decrement. *)
Theorem no_confirmation_no_write {rt : Runtime} (env : Env)
    (req : str + ChatRequest) (w : World) :
  never_confirms env ->
  writes (snd (POST env req w)) = writes w.
Proof.
  intros Hnever.
  destruct (POST_sends (fun r => is_write r = false) env unconfirmed req w)
    as [new [Hlog Hall]].
  - intros r tc f j _ Hok Hf Hparse.
    apply (sends_getFunctions _ env (userToken r) (tc_name tc) f);
      [reflexivity| |exact Hf].
    intros Hc. exfalso.
    rewrite (GateProofs.confirmed_false _ (Hok j Hparse)) in Hc. discriminate.
  - exact Hnever.
  - reflexivity.
  - unfold writes. rewrite Hlog, List.filter_app.
    assert (Hnew : List.filter is_write new = []).
    { clear Hlog. induction Hall as [|x l Hx _ IH]; [reflexivity|].
      cbn [List.filter]. rewrite Hx. exact IH. }
    rewrite Hnew, app_nil_r. reflexivity.
Qed.

(** The model asks for a creation without [confirm]: the answer is a
    question, and nothing is written. *)
Lemma no_confirmation_no_write_witness :
  writes (snd (@POST rt_unconfirmed env_preview (inr (ask "post my idea")) world0))
  = writes world0.
Proof.
  apply (@no_confirmation_no_write rt_unconfirmed env_preview
           (inr (ask "post my idea")) world0).
  intros n r data m Hdata Hm.
  destruct n as [|[|n]]; cbn in Hdata.
  - injection Hdata as <-. injection Hm as <-.
    constructor; [|constructor].
    intros j Hparse. vm_compute in Hparse. injection Hparse as <-. constructor.
  - injection Hdata as <-. injection Hm as <-. constructor.
  - destruct n; discriminate.
Defined.

(** X27.  Every request to the Content Backend is made for the caller.
    The searches and the writes of a request carry the token of the
    caller in their header, and no other token; the decrement names
    that token. *)
Theorem requests_are_made_for_the_caller {rt : Runtime} (env : Env)
    (req : ChatRequest) (w : World) :
  exists new,
    backend_log (snd (POST env (inr req) w)) = backend_log w ++ new
    /\ Forall (on_behalf_of (truthy (userToken req))) new.
Proof.
  apply (POST_sends _ env (fun _ => True)).
  - intros r tc f j Hr _ Hf Hparse. injection Hr as <-.
    apply (sends_getFunctions _ env (userToken req) (tc_name tc) f); [| |exact Hf].
    + reflexivity.
    + intros _. split; reflexivity.
  - intros n r data m _ _. apply List.Forall_forall. intros tc _. exact I.
  - intros r token used Hr Htoken. injection Hr as <-. symmetry. exact Htoken.
Qed.

Lemma finalize_nothing (m : Message) : finalize m [] = ensure_content m.
Proof.
  unfold finalize.
  assert (Hnone : forall text, replacePlaceholderLinksWithToolUrls text [] = text).
  { intros text. unfold replacePlaceholderLinksWithToolUrls. destruct text; reflexivity. }
  rewrite Hnone. unfold ensure_content. destruct (blank m) eqn:Hb; [reflexivity|].
  unfold blank in Hb. destruct m as [r c tc tci n]. cbn [content] in *.
  destruct c as [c|]; [reflexivity | discriminate].
Qed.

(** X28.  A plain answer costs one call of the model.  When the first
    answer of the model has a message without tool calls, the model is
    not asked again, nothing is asked of the Content Backend but the
    token decrement, and the answer is that message, with the fallback
    text when it has none. *)
Theorem plain_answer {rt : Runtime} (env : Env) (req : ChatRequest) (w : World)
    (token : str) (data : LMData) (m : Message) :
  truthy (userToken req) = Some token ->
  is_Some (truthy (OPENROUTER_API_KEY (process_env env))) ->
  openRouter env (length (lm_log w)) (first_request env req w) = LMResponse data ->
  lm_message data = Some m ->
  pending m = [] ->
  let out := POST env (inr req) w in
  let used := extractTokenCount (lm_usage data) in
  fst out
  = {| status := 200;
       body := ChatBody (conversation_id env req) (ensure_content m) (Z.max 0 used) |}
  /\ lm_log (snd out) = lm_log w ++ [first_request env req w]
  /\ backend_log (snd out) = backend_log w ++ [DecreaseTokens token (Z.max 1 used)].
Proof.
  intros Htoken [k Hkey] Hr Hm Hp. cbv zeta. cbn [POST].
  rewrite handle_cases, Htoken, Hkey. cbv zeta. rewrite Hr, Hm.
  assert (Hloop : forall w1,
             tool_loop env (getFunctions env (userToken req))
               (lm_model (first_request env req w))
               (lm_messages (first_request env req w)) 5 (loop_start data m) w1
             = (Returned (loop_start data m), w1)).
  { intros w1. cbn [tool_loop].
    change (pending (assistantMessage (loop_start data m))) with (pending m).
    rewrite Hp. reflexivity. }
  rewrite Hloop. cbn [fst snd].
  change (assistantMessage (loop_start data m)) with m.
  change (executed (loop_start data m)) with (@nil ExecutedToolResult).
  change (usedTokens (loop_start data m)) with (extractTokenCount (lm_usage data)).
  rewrite finalize_nothing. split_and!; reflexivity.
Qed.

#[local] Existing Instance rt0.

Lemma plain_answer_witness :
  let out := POST env_plain (inr (ask "hello")) world0 in
  fst out
  = {| status := 200;
       body :=
         ChatBody (lit "c0ffee")
           (text_message assistant "Hello! How can I help?") 0 |}
  /\ length (lm_log (snd out)) = 1%nat
  /\ backend_log (snd out) = [DecreaseTokens (lit "u-1") 1].
Proof.
  destruct (plain_answer env_plain (ask "hello") world0 (lit "u-1")
              {| lm_message := Some (text_message assistant "Hello! How can I help?");
                 lm_usage := None |}
              (text_message assistant "Hello! How can I help?"))
    as [Hfst [Hlm Hbe]]; try reflexivity.
  - eexists. reflexivity.
  - cbv zeta. rewrite Hfst, Hlm, Hbe. split_and!; reflexivity.
Defined.

End BackendProofs.
